(** * aws_billing_exporter: the collector, embedded and verified

    A shallow embedding of [aws_billing_exporter.go]: the metric catalog,
    the filter parsing of [filterServerMetrics] and [NewExporter], the
    billing client closure of [fetchHTTP], [scrape], [Collect] and
    [Describe], the [String] method of the flag's map type and the default
    value of the metrics flag.

    Go maps are [gmap]s, the [map[int]struct{}] set is a [gset], and a
    pointer is an [option]: the fields of the billing response are the
    SDK's pointers, and reading through a nil one panics.  Effectful code
    ([Collect], [scrape], the fetch closure) is written as a program
    [prog] over the operations the source performs on shared objects (the
    mutex, the scrape counter, the clock, the cost explorer client, the
    logger and the metric channel); the same program is run by one
    goroutine in [run], against a service that answers and a reader that
    takes every sample, and by several at once in [pool_step], against an
    [outside] that may leave a call or a send waiting.

    Outside the model: the HTTP server and the flag parsing of [main], the
    creation of the AWS session and client (taken as given once an
    exporter exists), what the SDK client does inside one call of
    [GetCostAndUsage] (such as its retries), and the text exposition of
    the samples. *)

From Stdlib Require Import ZArith Ascii String SpecFloat.
From stdpp Require Import base gmap list strings pretty sorting.

Local Open Scope Z_scope.

(** ** Go values *)

(** A Go [(value, error)] return: [Err] carries the error's message and no
    value (the source returns [nil] next to every non-nil error). *)
Inductive result (A : Type) : Type :=
| Ok (a : A)
| Err (e : string).
Arguments Ok {A} a.
Arguments Err {A} e.

#[global] Instance result_ret : MRet result := @Ok.
#[global] Instance result_bind : MBind result := λ A B f r,
  match r with
  | Ok a => f a
  | Err e => Err e
  end.

(** [float64] values as IEEE 754 binary64 data. *)
Definition float64 : Type := spec_float.
Definition float64_0 : float64 := S754_zero false.
Definition float64_1 : float64 := S754_finite false 4503599627370496 (-52).

#[global] Instance float64_eq_dec : EqDecision float64.
Proof. unfold float64. solve_decision. Defined.

(** Go's [int] is 64 bits wide on the platforms the exporter is built for. *)
Definition minInt : Z := - 2 ^ 63.
Definition maxInt : Z := 2 ^ 63 - 1.

(** ** [strings.Split] and [strconv.Atoi] *)

(** [strings.Split s sep] for a one-byte separator: the pieces between the
    occurrences of [sep]; the empty string gives one empty piece. *)
Fixpoint Split (s : string) (sep : ascii) : list string :=
  match s with
  | EmptyString => [EmptyString]
  | String c s' =>
      if Ascii.eqb c sep then EmptyString :: Split s' sep
      else match Split s' sep with
           | t :: ts => String c t :: ts
           | [] => [String c EmptyString]
           end
  end.

Definition digit (c : ascii) : option Z :=
  let n := Z.of_N (N_of_ascii c) in
  if (48 <=? n) && (n <=? 57) then Some (n - 48) else None.

Fixpoint digits (s : string) (acc : Z) : option Z :=
  match s with
  | EmptyString => Some acc
  | String c s' => d ← digit c; digits s' (acc * 10 + d)
  end.

(** [strconv.Atoi]: an optional sign, then at least one decimal digit, and
    a value that fits [int].  [None] stands for the non-nil [*NumError]
    (syntax or range); the exporter only tests it against [nil]. *)
Definition Atoi (s : string) : option Z :=
  let '(neg, body) :=
    match s with
    | String "-" r => (true, r)
    | String "+" r => (false, r)
    | _ => (false, s)
    end in
  match body with
  | EmptyString => None
  | _ =>
      n ← digits body 0;
      let v := if neg then - n else n in
      if (minInt <=? v) && (v <=? maxInt) then Some v else None
  end.

(** [strconv.Itoa] and [strings.Join]. *)
Definition Itoa (i : Z) : string := pretty i.

Definition Join (elems : list string) (sep : string) : string :=
  match elems with
  | [] => ""
  | s :: rest => foldl (λ acc t, acc +:+ sep +:+ t) s rest
  end.

(** ** [utf8.ValidString] *)

Definition byte_in (lo hi : N) (c : ascii) : bool :=
  ((lo <=? N_of_ascii c) && (N_of_ascii c <=? hi))%N.

(** A Go string is a sequence of bytes; it is valid UTF-8 when it is a
    sequence of well-formed encodings: one byte 00..7F; C2..DF and one
    continuation byte 80..BF; E0..EF and two, F0..F4 and three, with the
    second byte narrowed after E0 (A0..BF), ED (80..9F), F0 (90..BF) and
    F4 (80..8F), which rules out overlong forms, surrogates and values
    above 10FFFF. *)
Fixpoint ValidString (s : string) : bool :=
  match s with
  | EmptyString => true
  | String c0 s1 =>
      if byte_in 0 127 c0 then ValidString s1
      else
        match s1 with
        | EmptyString => false
        | String c1 s2 =>
            if byte_in 194 223 c0 then byte_in 128 191 c1 && ValidString s2
            else
              match s2 with
              | EmptyString => false
              | String c2 s3 =>
                  if byte_in 224 239 c0 then
                    (if byte_in 224 224 c0 then byte_in 160 191 c1
                     else if byte_in 237 237 c0 then byte_in 128 159 c1
                     else byte_in 128 191 c1)
                    && byte_in 128 191 c2 && ValidString s3
                  else
                    match s3 with
                    | EmptyString => false
                    | String c3 s4 =>
                        byte_in 240 244 c0
                        && (if byte_in 240 240 c0 then byte_in 144 191 c1
                            else if byte_in 244 244 c0 then byte_in 128 143 c1
                            else byte_in 128 191 c1)
                        && byte_in 128 191 c2 && byte_in 128 191 c3
                        && ValidString s4
                    end
              end
        end
  end.

(** ** Prometheus descriptors and samples *)

Record Desc : Type := {
  fqName : string;
  help : string;
  variableLabels : list string;
  constLabels : list (string * string)
}.

#[global] Instance Desc_eq_dec : EqDecision Desc.
Proof. solve_decision. Defined.

(** The errors of the client library: those [NewDesc] records in the
    descriptor and those [NewConstMetric] returns.  Their texts are the
    library's (see [Error] in the runtime). *)
Inductive LibraryError : Type :=
| ErrMetricName (fqName : string)
| ErrLabelName (labelName fqName : string)
| ErrLabelValueUTF8 (labelValue : string)
| ErrDuplicateLabelNames
| ErrLabelCardinality (expected : nat) (labelValues : list string).

Definition is_letter (c : ascii) : bool := byte_in 65 90 c || byte_in 97 122 c.
Definition is_digit (c : ascii) : bool := byte_in 48 57 c.

(** The bytes allowed after the first one of a name. *)
Fixpoint name_rest (colon : bool) (s : string) : bool :=
  match s with
  | EmptyString => true
  | String c s' =>
      (is_letter c || is_digit c || Ascii.eqb c "_" || (colon && Ascii.eqb c ":"))
      && name_rest colon s'
  end.

(** [model.IsValidMetricName]: [a-zA-Z_:][a-zA-Z0-9_:]*. *)
Definition IsValidMetricName (s : string) : bool :=
  match s with
  | EmptyString => false
  | String c s' =>
      (is_letter c || Ascii.eqb c "_" || Ascii.eqb c ":") && name_rest true s'
  end.

(** [checkLabelName]: [a-zA-Z_][a-zA-Z0-9_]*, not starting with two
    underscores. *)
Definition checkLabelName (l : string) : bool :=
  match l with
  | EmptyString => false
  | String c l' => (is_letter c || Ascii.eqb c "_") && name_rest false l'
  end && negb (String.prefix "__" l).

(** [validateLabelValues]: as many values as expected, each valid UTF-8. *)
Definition validateLabelValues (vals : list string)
    (expectedNumberOfValues : nat) : option LibraryError :=
  if decide (length vals = expectedNumberOfValues) then
    ErrLabelValueUTF8 ∘ snd <$> list_find (λ v, ValidString v = false) vals
  else Some (ErrLabelCardinality expectedNumberOfValues vals).

(** [sort.Strings] on the names of the constant labels. *)
Definition label_le (a b : string * string) : Prop := String.leb a.1 b.1 = true.

#[global] Instance label_le_dec (a b : string * string) :
  Decision (label_le a b).
Proof. unfold label_le. apply _. Defined.

(** The [err] field [NewDesc] leaves in a descriptor: it is decided by the
    arguments the descriptor keeps.  The checks, in the order of
    [NewDesc]: the name, the names of the constant labels, the name and
    the constant label values (by sorted label name) as UTF-8, the names
    of the variable labels, and that no label name occurs twice.
    [constLabels] is a Go map; the exporter passes [nil] everywhere. *)
Definition Desc_err (d : Desc) : option LibraryError :=
  if IsValidMetricName (fqName d) then
    match list_find (λ kv, checkLabelName kv.1 = false) (constLabels d) with
    | Some (_, kv) => Some (ErrLabelName kv.1 (fqName d))
    | None =>
        let labelValues :=
          fqName d ::
          (merge_sort label_le (constLabels d)).*2 in
        match validateLabelValues labelValues (length labelValues) with
        | Some err => Some err
        | None =>
            match list_find (λ l, checkLabelName l = false) (variableLabels d) with
            | Some (_, l) => Some (ErrLabelName l (fqName d))
            | None =>
                if decide (NoDup ((constLabels d).*1 ++ variableLabels d))
                then None else Some ErrDuplicateLabelNames
            end
        end
    end
  else Some (ErrMetricName (fqName d)).

(** [prometheus.BuildFQName]: the non-empty parts joined by an underscore;
    an empty name gives the empty string. *)
Definition BuildFQName (namespace subsystem name : string) : string :=
  if decide (name = "") then ""
  else if decide (namespace ≠ "" ∧ subsystem ≠ "") then
    namespace +:+ "_" +:+ subsystem +:+ "_" +:+ name
  else if decide (namespace ≠ "") then namespace +:+ "_" +:+ name
  else if decide (subsystem ≠ "") then subsystem +:+ "_" +:+ name
  else name.

Definition NewDesc (fq hlp : string) (labels : list string)
    (consts : list (string * string)) : Desc :=
  {| fqName := fq; help := hlp; variableLabels := labels; constLabels := consts |}.

Inductive ValueType : Type := CounterValue | GaugeValue | UntypedValue.

#[global] Instance ValueType_eq_dec : EqDecision ValueType.
Proof. solve_decision. Defined.

(** What travels on the [chan<- prometheus.Metric]: a constant sample built
    by [MustNewConstMetric], or the exporter's counter object itself
    ([ch <- e.totalScrapes] sends the counter, not a copy of its value). *)
Inductive Metric : Type :=
| constMetric (desc : Desc) (valType : ValueType) (value : float64)
    (labelValues : list string)
| counterMetric (desc : Desc).

#[global] Instance Metric_eq_dec : EqDecision Metric.
Proof. solve_decision. Defined.

Definition Metric_desc (m : Metric) : Desc :=
  match m with
  | constMetric d _ _ _ => d
  | counterMetric d => d
  end.

(** ** The catalog *)

Definition namespace : string := "aws_billing".

Definition serverLabelNames : list string := ["type"; "unit"].

Definition newAwsBillingMetric (metricName docString : string)
    (consts : list (string * string)) : Desc :=
  NewDesc (BuildFQName namespace "server" metricName) docString
    serverLabelNames consts.

Definition prometheusMetrics : gmap Z Desc :=
  list_to_map [
    (1, newAwsBillingMetric "amortized_cost" "This cost metric reflects the effective cost of the upfront and monthly reservation fees spread across the billing period.." []);
    (2, newAwsBillingMetric "blended_cost" "This cost metric reflects the average cost of usage across the consolidated billing family." []);
    (3, newAwsBillingMetric "net_amortized_cost" "This cost metric amortizes the upfront and monthly reservation fees while including discounts such as RI volume discounts." []);
    (4, newAwsBillingMetric "net_unblended_cost" "This cost metric reflects the cost after discounts." []);
    (5, newAwsBillingMetric "normalized_usage_amount" "Cost of amount of resource consumption like CPU." []);
    (6, newAwsBillingMetric "unblended_cost" "Unblended costs separate discounts into their own line items. This enables you to view the amount of each discount received." []);
    (7, newAwsBillingMetric "usage_quantity" "Usage of quantity like data in GB." [])
  ].

Definition awsBillingUp : Desc :=
  NewDesc (BuildFQName namespace "" "up")
    "Was the last scrape of aws billing successful." [] [].

Definition AWSMetrics : gmap Z string :=
  list_to_map [
    (1, "AmortizedCost");
    (2, "BlendedCost");
    (3, "NetAmortizedCost");
    (4, "NetUnblendedCost");
    (5, "NormalizedUsageAmount");
    (6, "UnblendedCost");
    (7, "UsageQuantity")
  ].

(** [AWSMetrics[key]]: a Go map read, the zero value for a missing key. *)
Definition AWSMetrics_at (key : Z) : string := default "" (AWSMetrics !! key).

(** ** Cost explorer requests and responses *)

Record DateInterval : Type := { Start : string; End_ : string }.

Record GetCostAndUsageInput : Type := {
  Metrics : list string;
  Granularity : string;
  TimePeriod : DateInterval
}.

(** The SDK's structures as they are: [Amount] and [Unit] are [*string],
    the items of [Total] are [*MetricValue] and the buckets of
    [ResultsByTime] are [*ResultByTime]; [None] is the nil pointer.  A nil
    map or slice is the empty one.  The output itself is never nil next
    to a nil error (the SDK allocates it before the request is sent). *)
Record MetricValue : Type := { Amount : option string; Unit : option string }.

Record ResultByTime : Type := { Total : gmap string (option MetricValue) }.

Record GetCostAndUsageOutput : Type := {
  ResultsByTime : list (option ResultByTime)
}.

(** The text of the run-time panic on a nil pointer. *)
Definition nil_dereference : string :=
  "runtime error: invalid memory address or nil pointer dereference".

(** ** The Go runtime and standard library under the exporter

    What the exporter uses and the repository does not define: calendar
    arithmetic and formatting of [time.Time], [strconv.ParseFloat], the
    texts of the client library's errors, and the order in which a
    [for ... range] statement visits a map (any order of the entries of
    the map; no theorem below depends on which).

    [Day t] is the number of the calendar day on which [t] falls in its
    location.  [AddDate] with no years and no months moves the calendar
    day by the given number of days, and the layout 2006-01-02 prints the
    calendar day and nothing else. *)
Class Runtime : Type := {
  Time : Type;
  AddDate : Time → Z → Z → Z → Time;
  Format : Time → string → string;
  Day : Time → Z;
  Day_AddDate : ∀ t days, Day (AddDate t 0 0 days) = Day t + days;
  Format_Day : ∀ t t',
    Format t "2006-01-02" = Format t' "2006-01-02" ↔ Day t = Day t';
  ParseFloat : string → Z → option float64;
  Error : LibraryError → string;
  range : ∀ {K : Type} `{Countable K} {A : Type}, gmap K A → list (K * A);
  range_perm : ∀ {K : Type} `{Countable K} {A : Type} (m : gmap K A),
    range m ≡ₚ map_to_list m
}.

Section Model.
Context `{RT : Runtime}.

(** ** Programs over the exporter's shared objects *)

Inductive prog (A : Type) : Type :=
| Ret (a : A)
| Panic (msg : string)
| Lock (k : prog A)
| Unlock (k : prog A)
| Inc (k : prog A)
| Now (k : Time → prog A)
| GetCostAndUsage (input : GetCostAndUsageInput)
    (k : result GetCostAndUsageOutput → prog A)
| Errorf (msg : string) (k : prog A)
| Send (m : Metric) (k : prog A).
Arguments Ret {A} a.
Arguments Panic {A} msg.
Arguments Lock {A} k.
Arguments Unlock {A} k.
Arguments Inc {A} k.
Arguments Now {A} k.
Arguments GetCostAndUsage {A} input k.
Arguments Errorf {A} msg k.
Arguments Send {A} m k.

Fixpoint prog_bind {A B : Type} (f : A → prog B) (p : prog A) : prog B :=
  match p with
  | Ret a => f a
  | Panic msg => Panic msg
  | Lock k => Lock (prog_bind f k)
  | Unlock k => Unlock (prog_bind f k)
  | Inc k => Inc (prog_bind f k)
  | Now k => Now (λ t, prog_bind f (k t))
  | GetCostAndUsage input k => GetCostAndUsage input (λ r, prog_bind f (k r))
  | Errorf msg k => Errorf msg (prog_bind f k)
  | Send m k => Send m (prog_bind f k)
  end.

#[global] Instance prog_mret : MRet prog := @Ret.
#[global] Instance prog_mbind : MBind prog := @prog_bind.

(** [e.mutex.Lock()], [e.mutex.Unlock()], [e.totalScrapes.Inc()],
    [time.Now()], [client.GetCostAndUsage(input)], [log.Errorf], [ch <- m]. *)
Definition mutex_Lock : prog unit := Lock (Ret tt).
Definition mutex_Unlock : prog unit := Unlock (Ret tt).
Definition totalScrapes_Inc : prog unit := Inc (Ret tt).
Definition time_Now : prog Time := Now Ret.
Definition client_GetCostAndUsage (input : GetCostAndUsageInput) :
    prog (result GetCostAndUsageOutput) :=
  GetCostAndUsage input Ret.
Definition log_Errorf (msg : string) : prog unit := Errorf msg (Ret tt).
Definition send (m : Metric) : prog unit := Send m (Ret tt).

(** [defer d] around [p]: [d] runs when [p] returns and when it panics. *)
Fixpoint defer {A : Type} (d : prog unit) (p : prog A) : prog A :=
  match p with
  | Ret a => d;; Ret a
  | Panic msg => d;; Panic msg
  | Lock k => Lock (defer d k)
  | Unlock k => Unlock (defer d k)
  | Inc k => Inc (defer d k)
  | Now k => Now (λ t, defer d (k t))
  | GetCostAndUsage input k => GetCostAndUsage input (λ r, defer d (k r))
  | Errorf msg k => Errorf msg (defer d k)
  | Send m k => Send m (defer d k)
  end.

(** [for _, x := range l { body }]. *)
Definition for_each {X : Type} (l : list X) (body : X → prog unit) : prog unit :=
  foldr (λ x rest, body x;; rest) (Ret tt) l.

(** [s[0]]: a run-time panic when the slice is empty. *)
Definition index0 {X : Type} (s : list X) : prog X :=
  match s with
  | x :: _ => Ret x
  | [] => Panic "runtime error: index out of range [0] with length 0"
  end.

(** [*p] and [p.f] on a pointer: a run-time panic when the pointer is
    nil. *)
Definition deref {X : Type} (p : option X) : prog X :=
  match p with
  | Some x => Ret x
  | None => Panic nil_dereference
  end.

(** [prometheus.NewConstMetric]: the error of the descriptor if it has
    one, else an error unless there is one label value per variable label
    and every label value is valid UTF-8. *)
Definition NewConstMetric (desc : Desc) (valueType : ValueType)
    (value : float64) (labelValues : list string) : result Metric :=
  match Desc_err desc with
  | Some err => Err (Error err)
  | None =>
      match validateLabelValues labelValues (length (variableLabels desc)) with
      | Some err => Err (Error err)
      | None => Ok (constMetric desc valueType value labelValues)
      end
  end.

(** [prometheus.MustNewConstMetric] panics with the error of
    [NewConstMetric]. *)
Definition MustNewConstMetric (desc : Desc) (valueType : ValueType)
    (value : float64) (labelValues : list string) : prog Metric :=
  match NewConstMetric desc valueType value labelValues with
  | Ok m => Ret m
  | Err err => Panic err
  end.

(** ** The exporter *)

(** The gauge and the counter are kept by their descriptors; the counter's
    value and the mutex live in the [world] the programs run on. *)
Record Exporter : Type := {
  Exporter_fetch : prog (result GetCostAndUsageOutput);
  Exporter_up : Desc;
  Exporter_totalScrapes : Desc;
  Exporter_prometheusMetrics : gmap Z Desc
}.

Definition NewGauge (ns name hlp : string) : Desc :=
  NewDesc (BuildFQName ns "" name) hlp [] [].
Definition NewCounter (ns name hlp : string) : Desc :=
  NewDesc (BuildFQName ns "" name) hlp [] [].

(** The closure [fetchHTTP] returns.  The session and the client it
    captures are made once, before the closure, and are the [env] a
    program runs against. *)
Definition fetchHTTP (metrics : list string) :
    prog (result GetCostAndUsageOutput) :=
  t1 ← time_Now;
  t2 ← time_Now;
  let input := {|
    Metrics := metrics;
    Granularity := "DAILY";
    TimePeriod := {|
      Start := Format (AddDate t1 0 0 (-1)) "2006-01-02";
      End_ := Format t2 "2006-01-02"
    |}
  |} in
  r ← client_GetCostAndUsage input;
  match r with
  | Err err => Ret (Err err)
  | Ok resp => Ret (Ok resp)
  end.

Definition invalid_field (f : string) : string :=
  "invalid server metric field number: " +:+ f.

(** The loop of [NewExporter] over the filter's fields. *)
Fixpoint selectFields (fields : list string) (selected : list string) :
    result (list string) :=
  match fields with
  | [] => Ok selected
  | f :: fields' =>
      match Atoi f with
      | None => Err (invalid_field f)
      | Some field => selectFields fields' (selected ++ [AWSMetrics_at field])
      end
  end.

Definition NewExporter (filter : string)
    (selectedServerMetrics : gmap Z Desc) : result Exporter :=
  selected ←
    (if decide (String.length filter = 0%nat) then
       Ok (foldl (λ selected kv, selected ++ [kv.2]) [] (range AWSMetrics))
     else selectFields (Split filter ",") []);
  let fetch := fetchHTTP selected in
  Ok {|
    Exporter_fetch := fetch;
    Exporter_up :=
      NewGauge namespace "up"
        "Was the last scrape of aws cost and usage API successful.";
    Exporter_totalScrapes :=
      NewCounter namespace "exporter_total_scrapes"
        "Current total aws cost and usage API scrapes.";
    Exporter_prometheusMetrics := selectedServerMetrics
  |}.

(** The first loop of [filterServerMetrics]. *)
Fixpoint parseFields (fields : list string) (selected : gset Z) :
    result (gset Z) :=
  match fields with
  | [] => Ok selected
  | f :: fields' =>
      match Atoi f with
      | None => Err (invalid_field f)
      | Some field => parseFields fields' ({[field]} ∪ selected)
      end
  end.

Definition filterServerMetrics (filter : string) : result (gmap Z Desc) :=
  let metrics : gmap Z Desc := ∅ in
  if decide (String.length filter = 0%nat) then Ok metrics
  else
    selected ← parseFields (Split filter ",") ∅;
    Ok (foldl (λ (metrics : gmap Z Desc) kv,
                 if decide (kv.1 ∈ selected) then <[kv.1 := kv.2]> metrics
                 else metrics)
              metrics (range prometheusMetrics)).

(** [metrics.String]: the ids in increasing order, joined by commas.
    [main] makes it the default value of the flag. *)
Definition metrics_String (m : gmap Z Desc) : string :=
  let keys := foldl (λ keys kv, keys ++ [kv.1]) [] (range m) in
  let keys := merge_sort Z.le keys in
  Join (Itoa <$> keys) ",".

(** The part of [main] that builds the collector from the flag's value. *)
Definition main_exporter (awsBillingServerMetricFields : string) :
    result Exporter :=
  selectedServerMetrics ← filterServerMetrics awsBillingServerMetricFields;
  NewExporter awsBillingServerMetricFields selectedServerMetrics.

Definition scrape (e : Exporter) : prog float64 :=
  totalScrapes_Inc;;
  r ← Exporter_fetch e;
  match r with
  | Err err =>
      log_Errorf ("Can't scrape AWS Billing data: " +:+ err);;
      Ret float64_0
  | Ok response =>
      for_each (range (Exporter_prometheusMetrics e)) (λ km,
        bucket ← index0 (ResultsByTime response);
        bucket ← deref bucket;
        for_each (range (Total bucket)) (λ kc,
          if decide (kc.1 = AWSMetrics_at km.1) then
            cost ← deref kc.2;
            amount ← deref (Amount cost);
            match ParseFloat amount 64 with
            | Some f =>
                u ← deref (Unit cost);
                m ← MustNewConstMetric km.2 GaugeValue f [kc.1; u];
                send m
            | None => Ret tt
            end
          else Ret tt));;
      Ret float64_1
  end.

Definition Collect (e : Exporter) : prog unit :=
  mutex_Lock;;
  defer mutex_Unlock (
    up ← scrape e;
    m ← MustNewConstMetric awsBillingUp GaugeValue up [];
    send m;;
    send (counterMetric (Exporter_totalScrapes e))).

(** ** Running a program: one goroutine *)

(** What a run does, in order. *)
Inductive event : Type :=
| EvLock
| EvUnlock
| EvInc
| EvNow (t : Time)
| EvCall (input : GetCostAndUsageInput) (r : result GetCostAndUsageOutput)
| EvLog (msg : string)
| EvSend (m : Metric).

(** The shared objects: the value of [e.totalScrapes] as the number of
    [Inc] calls so far, whether [e.mutex] is held, and how often the clock
    and the billing service were asked. *)
Record world : Type := {
  counter : N;
  locked : bool;
  clock_reads : nat;
  client_calls : nat
}.

(** The outside: the [n]-th reading of the clock and the billing service's
    answer to the [n]-th call. *)
Record env : Type := {
  env_now : nat → Time;
  env_client : nat → GetCostAndUsageInput → result GetCostAndUsageOutput
}.

Inductive outcome (A : Type) : Type :=
| Returned (a : A)
| Panicked (msg : string)
| Blocked.
Arguments Returned {A} a.
Arguments Panicked {A} msg.
Arguments Blocked {A}.

Definition emit {A : Type} (ev : event)
    (r : list event * world * outcome A) : list event * world * outcome A :=
  (ev :: r.1.1, r.1.2, r.2).

(** [run E p w]: the events of [p] started in world [w] against the
    outside [E], the world it leaves, and how it ends.  With no other
    goroutine around, [Lock] on a held mutex blocks for good; [Unlock] of a
    free mutex is the fatal error of the Go runtime. *)
Fixpoint run {A : Type} (E : env) (p : prog A) (w : world) :
    list event * world * outcome A :=
  match p with
  | Ret a => ([], w, Returned a)
  | Panic msg => ([], w, Panicked msg)
  | Lock k =>
      if locked w then ([], w, Blocked)
      else emit EvLock (run E k
        {| counter := counter w; locked := true;
           clock_reads := clock_reads w; client_calls := client_calls w |})
  | Unlock k =>
      if locked w then
        emit EvUnlock (run E k
          {| counter := counter w; locked := false;
             clock_reads := clock_reads w; client_calls := client_calls w |})
      else ([], w, Panicked "sync: Unlock of unlocked RWMutex")
  | Inc k =>
      emit EvInc (run E k
        {| counter := (counter w + 1)%N; locked := locked w;
           clock_reads := clock_reads w; client_calls := client_calls w |})
  | Now k =>
      let t := env_now E (clock_reads w) in
      emit (EvNow t) (run E (k t)
        {| counter := counter w; locked := locked w;
           clock_reads := S (clock_reads w); client_calls := client_calls w |})
  | GetCostAndUsage input k =>
      let r := env_client E (client_calls w) input in
      emit (EvCall input r) (run E (k r)
        {| counter := counter w; locked := locked w;
           clock_reads := clock_reads w; client_calls := S (client_calls w) |})
  | Errorf msg k => emit (EvLog msg) (run E k w)
  | Send m k => emit (EvSend m) (run E k w)
  end.

(** The samples a run sent on the channel, in order. *)
Definition sent (evs : list event) : list Metric :=
  omap (λ ev, match ev with EvSend m => Some m | _ => None end) evs.

(** ** Running several goroutines on the same exporter *)

(** The state the goroutines share; the trace tags each event with the
    goroutine that performed it. *)
Record shared : Type := {
  sh_counter : N;
  sh_locked : bool;
  sh_trace : list (nat * event)
}.

Definition record (i : nat) (ev : event) (s : shared) : shared :=
  {| sh_counter := sh_counter s; sh_locked := sh_locked s;
     sh_trace := sh_trace s ++ [(i, ev)] |}.

(** What the goroutines do not control: the answers the billing service
    may give to a call made after a given trace (none: the call hangs),
    and whether the reader of the channel takes a sample sent after a
    given trace (it does not: the send blocks). *)
Record outside : Type := {
  answers :
    list (nat * event) → GetCostAndUsageInput →
    result GetCostAndUsageOutput → Prop;
  receives : list (nat * event) → Metric → Prop
}.

(** One atomic step of goroutine [i].  [Lock] is enabled only while the
    mutex is free, a call returns only with an answer of the service, a
    send only when the reader takes the sample; the clock reads
    anything. *)
Inductive thread_step {A : Type} (O : outside) (i : nat) :
    prog A → shared → prog A → shared → Prop :=
| step_Lock k s :
    sh_locked s = false →
    thread_step O i (Lock k) s k
      {| sh_counter := sh_counter s; sh_locked := true;
         sh_trace := sh_trace s ++ [(i, EvLock)] |}
| step_Unlock k s :
    sh_locked s = true →
    thread_step O i (Unlock k) s k
      {| sh_counter := sh_counter s; sh_locked := false;
         sh_trace := sh_trace s ++ [(i, EvUnlock)] |}
| step_Inc k s :
    thread_step O i (Inc k) s k
      {| sh_counter := (sh_counter s + 1)%N; sh_locked := sh_locked s;
         sh_trace := sh_trace s ++ [(i, EvInc)] |}
| step_Now k s t :
    thread_step O i (Now k) s (k t) (record i (EvNow t) s)
| step_GetCostAndUsage input k s r :
    answers O (sh_trace s) input r →
    thread_step O i (GetCostAndUsage input k) s (k r)
      (record i (EvCall input r) s)
| step_Errorf msg k s :
    thread_step O i (Errorf msg k) s k (record i (EvLog msg) s)
| step_Send m k s :
    receives O (sh_trace s) m →
    thread_step O i (Send m k) s k (record i (EvSend m) s).

(** Any goroutine that can step may step. *)
Inductive pool_step {A : Type} (O : outside) :
    list (prog A) * shared → list (prog A) * shared → Prop :=
| pool_step_at ts s i p p' s' :
    ts !! i = Some p →
    thread_step O i p s p' s' →
    pool_step O (ts, s) (<[i := p']> ts, s').

(** A goroutine is done when its program has returned or panicked. *)
Definition done_prog {A : Type} (p : prog A) : Prop :=
  match p with
  | Ret _ | Panic _ => True
  | _ => False
  end.

(** No goroutine's events are split by another's: whatever lies between
    two events of one goroutine is an event of that goroutine. *)
Definition no_interleave (tids : list nat) : Prop :=
  ∀ a b l1 l2 l3 l4,
    tids = l1 ++ a :: l2 ++ b :: l3 ++ a :: l4 → b = a.

(** ** Shapes of programs *)

(** Sequencing of runs: what [run] does on [p ≫= f]. *)
Definition and_then {A B : Type} (r : list event * world * outcome A)
    (f : A → world → list event * world * outcome B) :
    list event * world * outcome B :=
  match r.2 with
  | Returned a => let r' := f a r.1.2 in (r.1.1 ++ r'.1.1, r'.1.2, r'.2)
  | Panicked msg => (r.1.1, r.1.2, Panicked msg)
  | Blocked => (r.1.1, r.1.2, Blocked)
  end.

(** The program never touches the mutex. *)
Fixpoint lockfree {A : Type} (p : prog A) : Prop :=
  match p with
  | Ret _ | Panic _ => True
  | Lock _ | Unlock _ => False
  | Inc k | Errorf _ k | Send _ k => lockfree k
  | Now k => ∀ t, lockfree (k t)
  | GetCostAndUsage _ k => ∀ r, lockfree (k r)
  end.

(** Whatever the outside answers, the program counts [n] more scrapes
    before it ends. *)
Fixpoint incs_left {A : Type} (p : prog A) (n : nat) : Prop :=
  match p with
  | Ret _ | Panic _ => n = 0%nat
  | Inc k => match n with S n' => incs_left k n' | O => False end
  | Lock k | Unlock k | Errorf _ k | Send _ k => incs_left k n
  | Now k => ∀ t, incs_left (k t) n
  | GetCostAndUsage _ k => ∀ r, incs_left (k r) n
  end.

(** Where a goroutine running [Collect e] stands: not yet through
    [Lock], between [Lock] and the deferred [Unlock], or done. *)
Definition waiting (e : Exporter) (p : prog unit) : Prop := p = Collect e.

Definition inside (p : prog unit) : Prop :=
  ∃ q : prog unit, p = defer mutex_Unlock q ∧ lockfree q.

Definition is_inc (ev : event) : bool :=
  match ev with EvInc => true | _ => false end.

Definition is_send (ev : event) : bool :=
  match ev with EvSend _ => true | _ => false end.

(** The sends of a pool's trace, each with the goroutine that sent. *)
Definition sends_of (tr : list (nat * event)) : list (nat * event) :=
  base.filter (λ ie, is_send ie.2 = true) tr.

Definition thread_ok (e : Exporter) (p : prog unit) : Prop :=
  waiting e p ∨ inside p ∨ done_prog p.

(** What holds of a pool of goroutines that all run [Collect e], started
    with the counter at [c]: the mutex is held exactly while some
    goroutine is inside, that goroutine wrote the last event, goroutines
    still waiting have written none, and the counter and the increments
    still to come add up to one per goroutine. *)
Definition pool_inv (e : Exporter) (c : N)
    (st : list (prog unit) * shared) : Prop :=
  Forall (thread_ok e) st.1 ∧
  (∀ i p, st.1 !! i = Some p → inside p →
     sh_locked st.2 = true ∧ last (sh_trace st.2).*1 = Some i) ∧
  (sh_locked st.2 = true → ∃ i p, st.1 !! i = Some p ∧ inside p) ∧
  (∀ i p, st.1 !! i = Some p → waiting e p → i ∉ (sh_trace st.2).*1) ∧
  no_interleave (sh_trace st.2).*1 ∧
  (∃ lefts, Forall2 incs_left st.1 lefts ∧
     (sh_counter st.2 + N.of_nat (sum_list lefts)
      = c + N.of_nat (length st.1))%N) ∧
  sh_counter st.2 =
    (c + N.of_nat (length (base.filter (λ ie, is_inc ie.2 = true)
                             (sh_trace st.2))))%N.

(** ** The rest of the collector *)

(** [Describe]: the descriptors it sends on its channel, in order.  It
    takes no lock and touches nothing else. *)
Definition Describe (e : Exporter) : list Desc :=
  let ch := foldl (λ ch km, ch ++ [km.2]) [] (range (Exporter_prometheusMetrics e)) in
  let ch := ch ++ [awsBillingUp] in
  ch ++ [Exporter_totalScrapes e].

(** What [scrape] does once the fetch closure has returned [r]. *)
Definition scrape_after_fetch (e : Exporter)
    (r : result GetCostAndUsageOutput) : prog float64 :=
  match r with
  | Err err =>
      log_Errorf ("Can't scrape AWS Billing data: " +:+ err);;
      Ret float64_0
  | Ok response =>
      for_each (range (Exporter_prometheusMetrics e)) (λ km,
        bucket ← index0 (ResultsByTime response);
        bucket ← deref bucket;
        for_each (range (Total bucket)) (λ kc,
          if decide (kc.1 = AWSMetrics_at km.1) then
            cost ← deref kc.2;
            amount ← deref (Amount cost);
            match ParseFloat amount 64 with
            | Some f =>
                u ← deref (Unit cost);
                m ← MustNewConstMetric km.2 GaugeValue f [kc.1; u];
                send m
            | None => Ret tt
            end
          else Ret tt));;
      Ret float64_1
  end.

(** The bodies of the two loops of [scrape]: what it does with one item
    of the bucket for the enabled metric [km], and what it does for [km]. *)
Definition item_body (km : Z * Desc) (kc : string * option MetricValue) :
    prog unit :=
  if decide (kc.1 = AWSMetrics_at km.1) then
    cost ← deref kc.2;
    amount ← deref (Amount cost);
    match ParseFloat amount 64 with
    | Some f =>
        u ← deref (Unit cost);
        m ← MustNewConstMetric km.2 GaugeValue f [kc.1; u];
        send m
    | None => Ret tt
    end
  else Ret tt.

Definition metric_body (response : GetCostAndUsageOutput) (km : Z * Desc) :
    prog unit :=
  bucket ← index0 (ResultsByTime response);
  bucket ← deref bucket;
  for_each (range (Total bucket)) (item_body km).

(** The world after [n] scrapes in a row, each started where the one
    before stopped, however it ended. *)
Fixpoint after_Collects (E : env) (e : Exporter) (n : nat) (w : world) : world :=
  match n with
  | O => w
  | S n' => after_Collects E e n' (run E (Collect e) w).1.2
  end.

(** How each of the first [n] scrapes in a row ends. *)
Fixpoint outcomes_of_Collects (E : env) (e : Exporter) (n : nat) (w : world) :
    list (outcome unit) :=
  match n with
  | O => []
  | S n' =>
      (run E (Collect e) w).2 ::
      outcomes_of_Collects E e n' (run E (Collect e) w).1.2
  end.

(** The kind of an operation and of the event it leaves. *)
Inductive op : Type := OLock | OUnlock | OInc | ONow | OCall | OLog | OSend.

#[global] Instance op_eq_dec : EqDecision op.
Proof. solve_decision. Defined.

Definition op_of (ev : event) : op :=
  match ev with
  | EvLock => OLock
  | EvUnlock => OUnlock
  | EvInc => OInc
  | EvNow _ => ONow
  | EvCall _ _ => OCall
  | EvLog _ => OLog
  | EvSend _ => OSend
  end.

Definition count_op (o : op) (evs : list event) : nat :=
  length (base.filter (λ ev, op_of ev = o) evs).

Definition tick (o o' : op) (n : nat) (rest : nat → Prop) : Prop :=
  if decide (o' = o) then match n with S n' => rest n' | O => False end
  else rest n.

(** Whatever the outside answers, the program performs exactly [n] more
    operations of kind [o] before it ends. *)
Fixpoint ops_left {A : Type} (o : op) (p : prog A) (n : nat) : Prop :=
  match p with
  | Ret _ | Panic _ => n = 0%nat
  | Lock k => tick o OLock n (ops_left o k)
  | Unlock k => tick o OUnlock n (ops_left o k)
  | Inc k => tick o OInc n (ops_left o k)
  | Now k => tick o ONow n (λ n', ∀ t, ops_left o (k t) n')
  | GetCostAndUsage _ k => tick o OCall n (λ n', ∀ r, ops_left o (k r) n')
  | Errorf _ k => tick o OLog n (ops_left o k)
  | Send _ k => tick o OSend n (ops_left o k)
  end.

(** Every sample the program can send satisfies [P]. *)
Fixpoint sends_all {A : Type} (P : Metric → Prop) (p : prog A) : Prop :=
  match p with
  | Ret _ | Panic _ => True
  | Lock k | Unlock k | Inc k | Errorf _ k => sends_all P k
  | Now k => ∀ t, sends_all P (k t)
  | GetCostAndUsage _ k => ∀ r, sends_all P (k r)
  | Send m k => P m ∧ sends_all P k
  end.

(** A goroutine of a pool can take a step. *)
Definition can_step (O : outside) (ts : list (prog unit)) (s : shared)
    (i : nat) : Prop :=
  ∃ p p' s', ts !! i = Some p ∧ thread_step O i p s p' s'.

(** The outside lets every goroutine go on: the service answers every
    call and the reader takes every sample. *)
Definition obliging (O : outside) : Prop :=
  (∀ tr input, ∃ r, answers O tr input r) ∧ (∀ tr m, receives O tr m).

End Model.

Arguments Ret {RT A} a.
Arguments Panic {RT A} msg.
Arguments Lock {RT A} k.
Arguments Unlock {RT A} k.
Arguments Inc {RT A} k.
Arguments Now {RT A} k.
Arguments GetCostAndUsage {RT A} input k.
Arguments Errorf {RT A} msg k.
Arguments Send {RT A} m k.
Arguments Returned {A} a.
Arguments Panicked {A} msg.
Arguments Blocked {A}.

(** The world in which [scrape] calls the fetch closure: [Collect] has
    taken the mutex and [scrape] has counted the scrape. *)
Definition entered (w : world) : world :=
  {| counter := (counter w + 1)%N; locked := true;
     clock_reads := clock_reads w; client_calls := client_calls w |}.

(** The world once the mutex is taken, once it is given back, and once the
    fetch closure has read the clock twice and called the service once. *)
Definition acquired (w : world) : world :=
  {| counter := counter w; locked := true;
     clock_reads := clock_reads w; client_calls := client_calls w |}.

Definition released (w : world) : world :=
  {| counter := counter w; locked := false;
     clock_reads := clock_reads w; client_calls := client_calls w |}.

Definition fetched (w : world) : world :=
  {| counter := counter w; locked := locked w;
     clock_reads := S (S (clock_reads w)); client_calls := S (client_calls w) |}.

(** What the inner loop of [scrape] does for the enabled metric [km] =
    (id, descriptor) on a bucket's totals: it sends one sample, or none,
    or it panics ([Err] with the text of the panic). *)
Definition cost_sample `{RT : Runtime}
    (totals : gmap string (option MetricValue)) (km : Z * Desc) :
    result (option Metric) :=
  match totals !! AWSMetrics_at km.1 with
  | None => Ok None
  | Some None => Err nil_dereference
  | Some (Some cost) =>
      match Amount cost with
      | None => Err nil_dereference
      | Some amount =>
          match ParseFloat amount 64 with
          | None => Ok None
          | Some f =>
              match Unit cost with
              | None => Err nil_dereference
              | Some u =>
                  m ← NewConstMetric km.2 GaugeValue f [AWSMetrics_at km.1; u];
                  Ok (Some m)
              end
          end
      end
  end.

(** [response.ResultsByTime[0].Total], or the text of its panic. *)
Definition first_totals (response : GetCostAndUsageOutput) :
    result (gmap string (option MetricValue)) :=
  match ResultsByTime response with
  | [] => Err "runtime error: index out of range [0] with length 0"
  | None :: _ => Err nil_dereference
  | Some bucket :: _ => Ok (Total bucket)
  end.

(** What the loops of [scrape] send for the enabled metrics [l], visited
    in this order, and the panic that stops them, if any. *)
Fixpoint cost_samples `{RT : Runtime}
    (totals : result (gmap string (option MetricValue)))
    (l : list (Z * Desc)) : list Metric * option string :=
  match l with
  | [] => ([], None)
  | km :: l' =>
      match totals ≫= λ t, cost_sample t km with
      | Err msg => ([], Some msg)
      | Ok m =>
          (option_list m ++ (cost_samples totals l').1,
           (cost_samples totals l').2)
      end
  end.

(** The sample of the enabled metric [km], when the inner loop sends
    one. *)
Definition priced `{RT : Runtime} (totals : gmap string (option MetricValue))
    (km : Z * Desc) : option Metric :=
  match cost_sample totals km with
  | Ok m => m
  | Err _ => None
  end.

(** The run of a loop that sends [ms] and then ends, or panics. *)
Definition loop_run `{RT : Runtime} (ms : list Metric) (panic : option string)
    (w : world) : list event * world * outcome unit :=
  (EvSend <$> ms, w,
   match panic with None => Returned tt | Some msg => Panicked msg end).

(** A cost item [scrape] can use: it is there, it has an amount and, when
    the amount parses, a unit that is valid UTF-8. *)
Definition usable `{RT : Runtime} (item : option MetricValue) : Prop :=
  ∃ cost amount, item = Some cost ∧ Amount cost = Some amount ∧
    ∀ f, ParseFloat amount 64 = Some f →
      ∃ u, Unit cost = Some u ∧ ValidString u = true.

(** ** A concrete runtime and outside world

    Times are day numbers printed in decimal, [ParseFloat] knows a few
    literals, and maps are visited in [map_to_list] order. *)
Definition sample_ParseFloat (s : string) (bitSize : Z) : option float64 :=
  if decide (s = "12.34") then Some (SFdiv 53 1024 (S754_finite false 617 1) (S754_finite false 100 0))
  else if decide (s = "1") then Some float64_1
  else if decide (s = "0") then Some float64_0
  else None.

Definition sample_Error (err : LibraryError) : string :=
  match err with
  | ErrMetricName _ => "not a valid metric name"
  | ErrLabelName _ _ => "not a valid label name"
  | ErrLabelValueUTF8 _ => "label value is not valid UTF-8"
  | ErrDuplicateLabelNames => "duplicate label names"
  | ErrLabelCardinality _ _ => "inconsistent label cardinality"
  end.

Definition sample_runtime : Runtime := {|
  Time := Z;
  AddDate t years months days := t + days;
  Format t layout := pretty t;
  Day t := t;
  Day_AddDate t days := eq_refl;
  Format_Day t t' :=
    conj (pretty_Z_inj t t') (f_equal (pretty : Z → string) (x := t) (y := t'));
  ParseFloat := sample_ParseFloat;
  Error := sample_Error;
  range K _ _ A := map_to_list;
  range_perm K _ _ A m := reflexivity (map_to_list m)
|}.

Definition sample_world : world :=
  {| counter := 41; locked := false; clock_reads := 0; client_calls := 0 |}.

(** The clock stands at day 18000; the service answers every call with [r]. *)
Definition sample_env (r : result GetCostAndUsageOutput) : @env sample_runtime :=
  @Build_env sample_runtime (λ _, 18000 : Z) (λ _ _, r).


Definition blended_cost : MetricValue :=
  {| Amount := Some "12.34"; Unit := Some "USD" |}.

Definition blended_response : GetCostAndUsageOutput :=
  {| ResultsByTime := [
       Some {| Total := {[ "BlendedCost" := Some blended_cost ]} |}
     ] |}.

Definition garbled_usage : MetricValue :=
  {| Amount := Some "n/a"; Unit := Some "GB" |}.

Definition garbled_response : GetCostAndUsageOutput :=
  {| ResultsByTime := [
       Some {| Total :=
                 <[ "BlendedCost" := Some blended_cost ]>
                   {[ "UsageQuantity" := Some garbled_usage ]} |}
     ] |}.

(** BlendedCost as the specification has it, next to a UsageQuantity item
    that came without its amount. *)
Definition no_amount_response : GetCostAndUsageOutput :=
  {| ResultsByTime := [
       Some {| Total :=
                 <[ "BlendedCost" := Some blended_cost ]>
                   {[ "UsageQuantity" :=
                        Some {| Amount := None; Unit := Some "GB" |} ]} |}
     ] |}.

(** A UsageQuantity item whose amount does not parse, next to a
    BlendedCost item that came without its unit. *)
Definition no_unit_response : GetCostAndUsageOutput :=
  {| ResultsByTime := [
       Some {| Total :=
                 <[ "BlendedCost" :=
                      Some {| Amount := Some "12.34"; Unit := None |} ]>
                   {[ "UsageQuantity" := Some garbled_usage ]} |}
     ] |}.

(** The service answers every call with [r] and the reader of the channel
    takes every sample; the service never answers. *)
Definition obliging_outside (r : result GetCostAndUsageOutput) :
    @outside sample_runtime :=
  {| answers tr input r' := r' = r; receives tr m := True |}.

Definition hung_outside : @outside sample_runtime :=
  {| answers tr input r' := False; receives tr m := True |}.

Definition no_bucket_response : GetCostAndUsageOutput :=
  {| ResultsByTime := [] |}.

(** The descriptors and the exporter [main] builds from the flag value
    2,7 on this runtime. *)
Definition sample_metrics : gmap Z Desc :=
  <[2 := newAwsBillingMetric "blended_cost" "This cost metric reflects the average cost of usage across the consolidated billing family." []]>
    {[7 := newAwsBillingMetric "usage_quantity" "Usage of quantity like data in GB." []]}.

Definition sample_exporter : @Exporter sample_runtime := {|
  Exporter_fetch := fetchHTTP ["BlendedCost"; "UsageQuantity"];
  Exporter_up :=
    NewGauge namespace "up"
      "Was the last scrape of aws cost and usage API successful.";
  Exporter_totalScrapes :=
    NewCounter namespace "exporter_total_scrapes"
      "Current total aws cost and usage API scrapes.";
  Exporter_prometheusMetrics := sample_metrics
|}.

(** The 64-bit float nearest to 12.34. *)
Definition float64_12_34 : float64 :=
  S754_finite false 6946802425218990 (-49).

(** * Verification *)

Section Proofs.
Context `{RT : Runtime}.

(** ** The library functions on examples *)

Example Split_examples :
  Split "1,2,,x" "," = ["1"; "2"; ""; "x"] ∧
  Split "7" "," = ["7"] ∧
  Split "" "," = [""] ∧
  Split "2," "," = ["2"; ""].
Proof. by vm_compute. Qed.

Example Atoi_examples :
  Atoi "12" = Some 12 ∧ Atoi "-3" = Some (-3) ∧ Atoi "+07" = Some 7 ∧
  Atoi "" = None ∧ Atoi "+" = None ∧ Atoi " 1" = None ∧ Atoi "1x" = None ∧
  Atoi "2.0" = None ∧
  Atoi "9223372036854775807" = Some maxInt ∧
  Atoi "9223372036854775808" = None ∧
  Atoi "-9223372036854775808" = Some minInt.
Proof. by vm_compute. Qed.

Lemma Atoi_range (s : string) (i : Z) : Atoi s = Some i → minInt ≤ i ≤ maxInt.
Proof.
  unfold Atoi.
  destruct (match s with
            | String "-" r => (true, r)
            | String "+" r => (false, r)
            | _ => (false, s)
            end) as [neg body].
  destruct body as [|c body]; [done|].
  destruct (digits (String c body) 0) as [n|]; simpl; [|done].
  case_match eqn:Hrange; [|done].
  intros [= <-]. apply andb_true_iff in Hrange as [?%Z.leb_le ?%Z.leb_le]. done.
Qed.

Example BuildFQName_examples :
  BuildFQName "aws_billing" "server" "blended_cost"
    = "aws_billing_server_blended_cost" ∧
  BuildFQName "aws_billing" "" "up" = "aws_billing_up" ∧
  BuildFQName "aws_billing" "server" "" = "".
Proof. by vm_compute. Qed.

(** ** Visiting a map *)

Lemma elem_of_range `{Countable K} {A : Type} (m : gmap K A) (k : K) (a : A) :
  (k, a) ∈ range m ↔ m !! k = Some a.
Proof. rewrite (range_perm m). apply elem_of_map_to_list. Qed.

Lemma NoDup_fst_range `{Countable K} {A : Type} (m : gmap K A) :
  NoDup (range m).*1.
Proof. rewrite (range_perm m). apply NoDup_fst_map_to_list. Qed.

Lemma range_nil `{Countable K} {A : Type} (m : gmap K A) :
  range m = [] ↔ m = ∅.
Proof.
  split; intros Hm.
  - apply map_to_list_empty_iff, Permutation_nil_r.
    rewrite <- Hm. symmetry. apply range_perm.
  - apply Permutation_nil_r. rewrite (range_perm m), Hm.
    by rewrite map_to_list_empty.
Qed.

(** ** Runs of composed programs *)

Lemma run_bind {A B : Type} (E : env) (p : prog A) (f : A → prog B) (w : world) :
  run E (p ≫= f) w = and_then (run E p w) (λ a w', run E (f a) w').
Proof.
  unfold mbind, prog_mbind. revert w.
  induction p as [a|msg|k IH|k IH|k IH|k IH|input k IH|msg k IH|m k IH];
    intros w; simpl.
  - unfold and_then; simpl. by destruct (run E (f a) w) as [[??]?].
  - done.
  - destruct (locked w); [done|]. rewrite IH.
    unfold and_then, emit; simpl. by destruct (run E k _) as [[??][]].
  - destruct (locked w); [|done]. rewrite IH.
    unfold and_then, emit; simpl. by destruct (run E k _) as [[??][]].
  - rewrite IH. unfold and_then, emit; simpl. by destruct (run E k _) as [[??][]].
  - rewrite IH. unfold and_then, emit; simpl. by destruct (run E (k _) _) as [[??][]].
  - rewrite IH. unfold and_then, emit; simpl. by destruct (run E (k _) _) as [[??][]].
  - rewrite IH. unfold and_then, emit; simpl. by destruct (run E k _) as [[??][]].
  - rewrite IH. unfold and_then, emit; simpl. by destruct (run E k _) as [[??][]].
Qed.

(** A program that stays away from the mutex is never blocked, leaves the
    mutex as it is, and counts exactly the scrapes it has left. *)
Lemma run_lockfree {A : Type} (E : env) (p : prog A) (n : nat) (w : world) :
  lockfree p → incs_left p n →
  counter (run E p w).1.2 = (counter w + N.of_nat n)%N ∧
  locked (run E p w).1.2 = locked w ∧
  (run E p w).2 ≠ Blocked ∧
  length (base.filter (λ ev, is_inc ev = true) (run E p w).1.1) = n.
Proof.
  revert n w.
  induction p as [a|msg|k IH|k IH|k IH|k IH|input k IH|msg k IH|m k IH];
    intros n w Hl Hi; simpl in *; try done.
  - subst n. repeat split; [lia|done].
  - subst n. repeat split; [lia|done].
  - destruct n as [|n]; [done|].
    match goal with |- context [run E k ?w'] =>
      destruct (IH n w' Hl Hi) as (Hc&?&?&?) end.
    simpl in Hc. repeat split; try done; [lia|by f_equal].
  - match goal with |- context [run E (k ?t) ?w'] =>
      destruct (IH t n w' (Hl t) (Hi t)) as (?&?&?&?) end.
    by repeat split.
  - match goal with |- context [run E (k ?r) ?w'] =>
      destruct (IH r n w' (Hl r) (Hi r)) as (?&?&?&?) end.
    by repeat split.
  - destruct (IH n w Hl Hi) as (?&?&?&?).
    by repeat split.
  - destruct (IH n w Hl Hi) as (?&?&?&?).
    by repeat split.
Qed.

Lemma and_then_events {A B : Type} (r : list event * world * outcome A)
    (f : A → world → list event * world * outcome B) :
  ∃ more, (and_then r f).1.1 = r.1.1 ++ more.
Proof.
  unfold and_then. destruct r.2; simpl; eauto using app_nil_r.
Qed.

(** The deferred [Unlock] runs after a body that leaves the mutex alone,
    whether the body returns or panics. *)
Lemma run_defer_Unlock {A : Type} (E : env) (p : prog A) (w : world) :
  lockfree p → locked w = true →
  run E (defer mutex_Unlock p) w =
    ((run E p w).1.1 ++ [EvUnlock],
     {| counter := counter (run E p w).1.2; locked := false;
        clock_reads := clock_reads (run E p w).1.2;
        client_calls := client_calls (run E p w).1.2 |},
     (run E p w).2).
Proof.
  revert w.
  induction p as [a|msg|k IH|k IH|k IH|k IH|input k IH|msg k IH|m k IH];
    intros w Hl Hw; simpl in *; try done.
  - by rewrite Hw.
  - by rewrite Hw.
  - rewrite IH by done. done.
  - rewrite IH by done. done.
  - rewrite IH by done. done.
  - rewrite IH by done. done.
  - rewrite IH by done. done.
Qed.

(** ** Which programs touch the mutex and the counter *)

Lemma lockfree_bind {A B : Type} (p : prog A) (f : A → prog B) :
  lockfree p → (∀ a, lockfree (f a)) → lockfree (p ≫= f).
Proof.
  unfold mbind, prog_mbind. intros Hp Hf.
  induction p; simpl in *; auto.
Qed.

Lemma incs_left_bind {A B : Type} (p : prog A) (f : A → prog B) (n : nat) :
  incs_left p n → (∀ a, incs_left (f a) 0) → incs_left (p ≫= f) n.
Proof.
  unfold mbind, prog_mbind. intros Hp Hf. revert n Hp.
  induction p as [a|msg|k IH|k IH|k IH|k IH|input k IH|msg k IH|s k IH];
    intros n Hp; simpl in *; subst; auto.
  destruct n as [|n]; [done|]. auto.
Qed.

Lemma lockfree_for_each {X : Type} (l : list X) (body : X → prog unit) :
  (∀ x, lockfree (body x)) → lockfree (for_each l body).
Proof.
  intros Hb. induction l as [|x l IH]; simpl; [done|].
  apply lockfree_bind; auto.
Qed.

Lemma incs_left_for_each {X : Type} (l : list X) (body : X → prog unit) :
  (∀ x, incs_left (body x) 0) → incs_left (for_each l body) 0.
Proof.
  intros Hb. induction l as [|x l IH]; simpl; [done|].
  apply (incs_left_bind _ _ 0); auto.
Qed.

Lemma lockfree_MustNewConstMetric d vt v lvs :
  lockfree (MustNewConstMetric d vt v lvs).
Proof. unfold MustNewConstMetric. by destruct (NewConstMetric _ _ _ _). Qed.

Lemma incs_left_MustNewConstMetric d vt v lvs :
  incs_left (MustNewConstMetric d vt v lvs) 0.
Proof. unfold MustNewConstMetric. by destruct (NewConstMetric _ _ _ _). Qed.

Lemma lockfree_deref {X : Type} (p : option X) : lockfree (deref p).
Proof. by destruct p. Qed.

Lemma incs_left_deref {X : Type} (p : option X) : incs_left (deref p) 0.
Proof. by destruct p. Qed.

Lemma lockfree_index0 {X : Type} (l : list X) : lockfree (index0 l).
Proof. by destruct l. Qed.

Lemma incs_left_index0 {X : Type} (l : list X) : incs_left (index0 l) 0.
Proof. by destruct l. Qed.

Lemma lockfree_fetchHTTP (metrics : list string) : lockfree (fetchHTTP metrics).
Proof. intros t1 t2 [resp|err]; done. Qed.

Lemma incs_left_fetchHTTP (metrics : list string) :
  incs_left (fetchHTTP metrics) 0.
Proof. intros t1 t2 [resp|err]; done. Qed.

(** The loops of [scrape] over the enabled metrics and the bucket. *)
Lemma scrape_unfold (e : Exporter) :
  scrape e = Inc (Exporter_fetch e ≫= scrape_after_fetch e).
Proof. reflexivity. Qed.

Lemma scrape_after_fetch_Ok (e : Exporter) (response : GetCostAndUsageOutput) :
  scrape_after_fetch e (Ok response) =
    (for_each (range (Exporter_prometheusMetrics e)) (metric_body response);;
     Ret float64_1).
Proof. reflexivity. Qed.

Lemma lockfree_item_body (km : Z * Desc) (kc : string * option MetricValue) :
  lockfree (item_body km kc).
Proof.
  unfold item_body. case_decide; [|done].
  apply lockfree_bind; [apply lockfree_deref|]. intros cost.
  apply lockfree_bind; [apply lockfree_deref|]. intros amount.
  destruct (ParseFloat _ _); [|done].
  apply lockfree_bind; [apply lockfree_deref|]. intros u.
  apply lockfree_bind; [apply lockfree_MustNewConstMetric|done].
Qed.

Lemma incs_left_item_body (km : Z * Desc) (kc : string * option MetricValue) :
  incs_left (item_body km kc) 0.
Proof.
  unfold item_body. case_decide; [|done].
  apply (incs_left_bind _ _ 0); [apply incs_left_deref|]. intros cost.
  apply (incs_left_bind _ _ 0); [apply incs_left_deref|]. intros amount.
  destruct (ParseFloat _ _); [|done].
  apply (incs_left_bind _ _ 0); [apply incs_left_deref|]. intros u.
  apply (incs_left_bind _ _ 0); [apply incs_left_MustNewConstMetric|done].
Qed.

Lemma lockfree_metric_body (response : GetCostAndUsageOutput) (km : Z * Desc) :
  lockfree (metric_body response km).
Proof.
  unfold metric_body.
  apply lockfree_bind; [apply lockfree_index0|]. intros bucket.
  apply lockfree_bind; [apply lockfree_deref|]. intros b.
  apply lockfree_for_each, lockfree_item_body.
Qed.

Lemma incs_left_metric_body (response : GetCostAndUsageOutput)
    (km : Z * Desc) :
  incs_left (metric_body response km) 0.
Proof.
  unfold metric_body.
  apply (incs_left_bind _ _ 0); [apply incs_left_index0|]. intros bucket.
  apply (incs_left_bind _ _ 0); [apply incs_left_deref|]. intros b.
  apply incs_left_for_each, incs_left_item_body.
Qed.

Lemma lockfree_scrape_after_fetch (e : Exporter)
    (r : result GetCostAndUsageOutput) :
  lockfree (scrape_after_fetch e r).
Proof.
  destruct r as [response|err]; [|done]. rewrite scrape_after_fetch_Ok.
  apply lockfree_bind; [|done].
  apply lockfree_for_each, lockfree_metric_body.
Qed.

Lemma incs_left_scrape_after_fetch (e : Exporter)
    (r : result GetCostAndUsageOutput) :
  incs_left (scrape_after_fetch e r) 0.
Proof.
  destruct r as [response|err]; [|done]. rewrite scrape_after_fetch_Ok.
  apply (incs_left_bind _ _ 0); [|done].
  apply incs_left_for_each, incs_left_metric_body.
Qed.

Lemma lockfree_scrape (e : Exporter) :
  lockfree (Exporter_fetch e) → lockfree (scrape e).
Proof.
  intros Hf. rewrite scrape_unfold.
  change (lockfree (Exporter_fetch e ≫= scrape_after_fetch e)).
  apply lockfree_bind; [done|]. apply lockfree_scrape_after_fetch.
Qed.

Lemma incs_left_scrape (e : Exporter) :
  incs_left (Exporter_fetch e) 0 → incs_left (scrape e) 1.
Proof.
  intros Hf. rewrite scrape_unfold.
  change (incs_left (Exporter_fetch e ≫= scrape_after_fetch e) 0).
  apply (incs_left_bind _ _ 0); [done|]. apply incs_left_scrape_after_fetch.
Qed.

(** ** Construction *)

Lemma foldl_snoc {X Y : Type} (f : X → Y) (l : list X) (acc : list Y) :
  foldl (λ acc x, acc ++ [f x]) acc l = acc ++ (f <$> l).
Proof.
  revert acc. induction l as [|x l IH]; intros acc; csimpl.
  - by rewrite app_nil_r.
  - rewrite IH. by rewrite <- app_assoc.
Qed.

Lemma NewExporter_Ok (filter : string) (ms : gmap Z Desc) (e : Exporter) :
  NewExporter filter ms = Ok e →
  Exporter_prometheusMetrics e = ms ∧
  Exporter_totalScrapes e =
    NewCounter namespace "exporter_total_scrapes"
      "Current total aws cost and usage API scrapes." ∧
  ∃ selected, Exporter_fetch e = fetchHTTP selected ∧
    if decide (String.length filter = 0%nat)
    then selected ≡ₚ (map_to_list AWSMetrics).*2
    else selectFields (Split filter ",") [] = Ok selected.
Proof.
  unfold NewExporter. intros He.
  destruct (decide (String.length filter = 0%nat)) as [Hlen|Hlen]; simpl in He.
  - injection He as <-. simpl. repeat split. eexists; split; [done|].
    rewrite <- (range_perm AWSMetrics). by rewrite (foldl_snoc snd).
  - destruct (selectFields (Split filter ",") []) as [selected|err] eqn:Hsel;
      simpl in He; [|done].
    injection He as <-. simpl. repeat split. by eexists.
Qed.

Lemma NewExporter_fetch_plain (filter : string) (ms : gmap Z Desc) (e : Exporter) :
  NewExporter filter ms = Ok e →
  lockfree (Exporter_fetch e) ∧ incs_left (Exporter_fetch e) 0.
Proof.
  intros He. destruct (NewExporter_Ok _ _ _ He) as (_ & _ & sel & -> & _).
  split; [apply lockfree_fetchHTTP|apply incs_left_fetchHTTP].
Qed.

(** ** The samples of a trace *)

Lemma sent_app (evs1 evs2 : list event) :
  sent (evs1 ++ evs2) = sent evs1 ++ sent evs2.
Proof. apply omap_app. Qed.

Lemma sent_EvSend (ms : list Metric) : sent (EvSend <$> ms) = ms.
Proof. induction ms as [|m ms IH]; simpl; [done|]. by f_equal. Qed.

(** ** The loops of [scrape] *)

Lemma Ret_bind {A B : Type} (a : A) (f : A → prog B) : Ret a ≫= f = f a.
Proof. reflexivity. Qed.

Lemma run_then_Ret (E : env) (p : prog unit) (w : world) :
  run E (p;; Ret tt) w = run E p w.
Proof.
  rewrite run_bind. unfold and_then.
  destruct (run E p w) as [[evs w'] [[]|msg|]]; simpl; [|done..].
  by rewrite app_nil_r.
Qed.

(** A loop over the entries of a map whose body does something for one
    key only. *)
Lemma for_each_key_absent {V : Type} (l : list (string * V)) (name : string)
    (body : string * V → prog unit) :
  (∀ kv, kv.1 ≠ name → body kv = Ret tt) → name ∉ l.*1 →
  for_each l body = Ret tt.
Proof.
  intros Hb. induction l as [|kv l IH]; csimpl; [done|].
  rewrite not_elem_of_cons. intros [Hne Hnot].
  rewrite Hb by done. by apply IH.
Qed.

Lemma for_each_key_present {V : Type} (l : list (string * V)) (name : string)
    (v : V) (body : string * V → prog unit) :
  (∀ kv, kv.1 ≠ name → body kv = Ret tt) → NoDup l.*1 → (name, v) ∈ l →
  for_each l body = (body (name, v);; Ret tt).
Proof.
  intros Hb. induction l as [|kv l IH]; csimpl.
  - intros _ Hin. by apply elem_of_nil in Hin.
  - rewrite NoDup_cons, elem_of_cons. intros [Hnot Hnd] [<-|Hin].
    + by rewrite (for_each_key_absent l name body).
    + assert (kv.1 ≠ name) as Hne.
      { intros Heq. apply Hnot. rewrite Heq.
        apply list_elem_of_fmap. by exists (name, v). }
      rewrite Hb by done. by apply IH.
Qed.

(** The inner loop finds the item named after the metric, if the bucket
    has one, and sends its sample, skips it or panics at it. *)
Lemma run_bucket_loop (E : env) (totals : gmap string (option MetricValue))
    (km : Z * Desc) (w : world) :
  run E (for_each (range totals) (item_body km)) w =
    match cost_sample totals km with
    | Ok m => loop_run (option_list m) None w
    | Err msg => loop_run [] (Some msg) w
    end.
Proof.
  assert (∀ kv : string * option MetricValue,
            kv.1 ≠ AWSMetrics_at km.1 → item_body km kv = Ret tt) as Hother
    by (intros kv Hne; unfold item_body; by rewrite decide_False).
  unfold cost_sample.
  destruct (totals !! AWSMetrics_at km.1) as [item|] eqn:Hitem.
  - rewrite (for_each_key_present _ (AWSMetrics_at km.1) item);
      [|done|apply NoDup_fst_range|by apply elem_of_range].
    rewrite run_then_Ret. unfold item_body. rewrite decide_True by done.
    cbn [snd fst].
    destruct item as [cost|]; [|reflexivity].
    cbn [deref]. rewrite Ret_bind.
    destruct (Amount cost) as [amount|]; [|reflexivity].
    cbn [deref]. rewrite Ret_bind.
    destruct (ParseFloat amount 64) as [f|]; [|reflexivity].
    destruct (Unit cost) as [u|]; [|reflexivity].
    cbn [deref]. rewrite Ret_bind.
    unfold MustNewConstMetric, mbind at 2, result_bind.
    by destruct (NewConstMetric km.2 GaugeValue f [AWSMetrics_at km.1; u]).
  - rewrite (for_each_key_absent _ (AWSMetrics_at km.1)); [done..|].
    intros Hin. apply list_elem_of_fmap in Hin as [[k v] [Hk Hin]].
    simpl in Hk. subst k. apply elem_of_range in Hin. congruence.
Qed.

Lemma run_metric_body (E : env) (response : GetCostAndUsageOutput)
    (km : Z * Desc) (w : world) :
  run E (metric_body response km) w =
    match first_totals response ≫= λ t, cost_sample t km with
    | Ok m => loop_run (option_list m) None w
    | Err msg => loop_run [] (Some msg) w
    end.
Proof.
  unfold metric_body, first_totals.
  destruct (ResultsByTime response) as [|[bucket|] rest]; [done| |done].
  apply run_bucket_loop.
Qed.

(** The outer loop over the enabled metrics. *)
Lemma run_metric_loop (E : env) (response : GetCostAndUsageOutput)
    (l : list (Z * Desc)) (w : world) :
  run E (for_each l (metric_body response)) w =
    loop_run (cost_samples (first_totals response) l).1
             (cost_samples (first_totals response) l).2 w.
Proof.
  induction l as [|km l IH]; [done|].
  change (for_each (km :: l) (metric_body response))
    with (metric_body response km;; for_each l (metric_body response)).
  rewrite run_bind, run_metric_body. cbn [cost_samples].
  destruct (first_totals response ≫= λ t, cost_sample t km) as [m|msg];
    [|done].
  unfold and_then, loop_run. cbn [fst snd]. rewrite IH. unfold loop_run.
  cbn [fst snd]. by rewrite fmap_app.
Qed.

(** ** The fetch closure *)

Lemma run_fetchHTTP (metrics : list string) (E : env) (w : world) :
  let t1 := env_now E (clock_reads w) in
  let t2 := env_now E (S (clock_reads w)) in
  let input := {|
    Metrics := metrics;
    Granularity := "DAILY";
    TimePeriod := {|
      Start := Format (AddDate t1 0 0 (-1)) "2006-01-02";
      End_ := Format t2 "2006-01-02"
    |}
  |} in
  let r := env_client E (client_calls w) input in
  run E (fetchHTTP metrics) w =
    ([EvNow t1; EvNow t2; EvCall input r], fetched w, Returned r).
Proof.
  intros t1 t2 input r. unfold fetchHTTP. simpl.
  fold t1 t2. fold input. fold r. unfold emit, fetched; simpl.
  by destruct r.
Qed.

(** The trace of a fetch holds no sample and the world moves on by two
    clock readings and one call. *)
Lemma run_fetch_NewExporter (filter : string) (ms : gmap Z Desc) (e : Exporter)
    (E : env) (w : world) :
  NewExporter filter ms = Ok e →
  ∃ t1 t2 input,
    run E (Exporter_fetch e) w =
      ([EvNow t1; EvNow t2; EvCall input (env_client E (client_calls w) input)],
       fetched w, Returned (env_client E (client_calls w) input)).
Proof.
  intros He. destruct (NewExporter_Ok _ _ _ He) as (_ & _ & sel & -> & _).
  do 3 eexists. apply run_fetchHTTP.
Qed.

(** ** [scrape] and [Collect], run *)

Lemma run_scrape_Err (e : Exporter) (E : env) (w w1 : world)
    (evs : list event) (err : string) :
  run E (Exporter_fetch e) (entered w) = (evs, w1, Returned (Err err)) →
  run E (scrape e) (acquired w) =
    (EvInc :: evs ++ [EvLog ("Can't scrape AWS Billing data: " +:+ err)],
     w1, Returned float64_0).
Proof.
  intros Hf. unfold scrape. simpl. rewrite run_bind.
  change {| counter := (counter w + 1)%N; locked := true;
            clock_reads := clock_reads w; client_calls := client_calls w |}
    with (entered w).
  rewrite Hf. done.
Qed.

(** After a successful fetch [scrape] sends what its loops send and
    returns 1, unless the loops panic. *)
Lemma run_scrape_Ok (e : Exporter) (E : env) (w w1 : world)
    (evs : list event) (response : GetCostAndUsageOutput) :
  run E (Exporter_fetch e) (entered w) = (evs, w1, Returned (Ok response)) →
  run E (scrape e) (acquired w) =
    (EvInc :: evs ++
       (EvSend <$> (cost_samples (first_totals response)
                      (range (Exporter_prometheusMetrics e))).1),
     w1,
     match (cost_samples (first_totals response)
              (range (Exporter_prometheusMetrics e))).2 with
     | None => Returned float64_1
     | Some msg => Panicked msg
     end).
Proof.
  intros Hf. rewrite scrape_unfold.
  change (run E (Inc ?k) (acquired w)) with (emit EvInc (run E k (entered w))).
  rewrite run_bind, Hf. unfold and_then at 1. cbn [fst snd].
  rewrite scrape_after_fetch_Ok, run_bind, run_metric_loop.
  unfold loop_run, and_then, emit. cbn [fst snd].
  destruct (cost_samples _ _).2; cbn [run fst snd]; by rewrite ?app_nil_r.
Qed.

Lemma cost_samples_nil (totals : result (gmap string (option MetricValue))) :
  cost_samples totals [] = ([], None).
Proof. reflexivity. Qed.

(** The first enabled metric the loop visits panics when the first
    bucket cannot be read. *)
Lemma cost_samples_no_totals (msg : string) (l : list (Z * Desc)) :
  l ≠ [] → cost_samples (Err msg) l = ([], Some msg).
Proof. by destruct l. Qed.

Lemma MustNewConstMetric_up (up : float64) :
  MustNewConstMetric awsBillingUp GaugeValue up [] =
    Ret (constMetric awsBillingUp GaugeValue up []).
Proof.
  unfold MustNewConstMetric, NewConstMetric.
  assert (Desc_err awsBillingUp = None) as -> by (by vm_compute).
  done.
Qed.

Lemma Collect_unfold (e : Exporter) :
  Collect e =
    Lock (defer mutex_Unlock (
      up ← scrape e;
      m ← MustNewConstMetric awsBillingUp GaugeValue up [];
      send m;;
      send (counterMetric (Exporter_totalScrapes e)))).
Proof. reflexivity. Qed.

Lemma run_Lock_free {A : Type} (E : env) (k : prog A) (w : world) :
  locked w = false → run E (Lock k) w = emit EvLock (run E k (acquired w)).
Proof. intros Hw. simpl. by rewrite Hw. Qed.

Lemma lockfree_Collect_body (e : Exporter) :
  lockfree (Exporter_fetch e) →
  lockfree (up ← scrape e;
            m ← MustNewConstMetric awsBillingUp GaugeValue up [];
            send m;;
            send (counterMetric (Exporter_totalScrapes e))).
Proof. intros Hlf. apply lockfree_bind; [by apply lockfree_scrape|done]. Qed.

Lemma run_Collect_returned (e : Exporter) (E : env) (w w1 : world)
    (evs : list event) (up : float64) :
  lockfree (Exporter_fetch e) → locked w = false →
  run E (scrape e) (acquired w) = (evs, w1, Returned up) →
  run E (Collect e) w =
    (EvLock :: evs ++
       [EvSend (constMetric awsBillingUp GaugeValue up []);
        EvSend (counterMetric (Exporter_totalScrapes e)); EvUnlock],
     released w1, Returned tt).
Proof.
  intros Hlf Hw Hs. rewrite Collect_unfold, run_Lock_free by done.
  rewrite run_defer_Unlock; [|by apply lockfree_Collect_body|done].
  rewrite run_bind, Hs. unfold and_then at 1. cbn [fst snd].
  rewrite MustNewConstMetric_up.
  unfold emit, released; simpl. by rewrite <- app_assoc.
Qed.

Lemma run_Collect_panicked (e : Exporter) (E : env) (w w1 : world)
    (evs : list event) (msg : string) :
  lockfree (Exporter_fetch e) → locked w = false →
  run E (scrape e) (acquired w) = (evs, w1, Panicked msg) →
  run E (Collect e) w = (EvLock :: evs ++ [EvUnlock], released w1, Panicked msg).
Proof.
  intros Hlf Hw Hs. rewrite Collect_unfold, run_Lock_free by done.
  rewrite run_defer_Unlock; [|by apply lockfree_Collect_body|done].
  by rewrite run_bind, Hs.
Qed.

(** ** The catalog *)

Lemma catalog_Forall (P : Z * Desc → Prop) (k : Z) (d : Desc) :
  Forall P (map_to_list prometheusMetrics) →
  prometheusMetrics !! k = Some d → P (k, d).
Proof.
  intros HP Hk. rewrite Forall_forall in HP.
  by apply HP, elem_of_map_to_list.
Qed.

Lemma catalog_arity (k : Z) (d : Desc) :
  prometheusMetrics !! k = Some d → variableLabels d = ["type"; "unit"].
Proof.
  apply (catalog_Forall (λ kd, variableLabels kd.2 = ["type"; "unit"])).
  apply (bool_decide_unpack _). by vm_compute.
Qed.

Lemma catalog_ids (k : Z) (d : Desc) :
  prometheusMetrics !! k = Some d → 1 ≤ k ≤ 7.
Proof.
  apply (catalog_Forall (λ kd, 1 ≤ kd.1 ≤ 7)).
  apply (bool_decide_unpack _). by vm_compute.
Qed.

Lemma catalog_inj (k1 k2 : Z) (d : Desc) :
  prometheusMetrics !! k1 = Some d → prometheusMetrics !! k2 = Some d → k1 = k2.
Proof.
  intros H1 H2.
  assert (Forall (λ p : Z * Desc,
            Forall (λ q : Z * Desc, p.2 = q.2 → p.1 = q.1)
              (map_to_list prometheusMetrics))
            (map_to_list prometheusMetrics)) as Hall.
  { apply (bool_decide_unpack _). by vm_compute. }
  pose proof (catalog_Forall _ k1 d Hall H1) as Hk1. simpl in Hk1.
  pose proof (catalog_Forall _ k2 d Hk1 H2) as Hk2. simpl in Hk2. auto.
Qed.

(** No catalog descriptor is the descriptor of the up gauge or of the
    scrape counter. *)
Lemma catalog_not_up_nor_counter (k : Z) (d : Desc) :
  prometheusMetrics !! k = Some d →
  d ≠ awsBillingUp ∧
  d ≠ NewCounter namespace "exporter_total_scrapes"
        "Current total aws cost and usage API scrapes.".
Proof.
  apply (catalog_Forall (λ kd,
    kd.2 ≠ awsBillingUp ∧
    kd.2 ≠ NewCounter namespace "exporter_total_scrapes"
             "Current total aws cost and usage API scrapes.")).
  apply (bool_decide_unpack _). by vm_compute.
Qed.

(** ** Parsing the filter *)

Lemma parseFields_Ok (fields : list string) (acc selected : gset Z) :
  parseFields fields acc = Ok selected →
  Forall (λ f, is_Some (Atoi f)) fields ∧
  ∀ k, k ∈ selected ↔ k ∈ acc ∨ ∃ f, f ∈ fields ∧ Atoi f = Some k.
Proof.
  revert acc. induction fields as [|f fields IH]; intros acc; simpl.
  - intros [= <-]. split; [constructor|]. intros k. split; [auto|].
    intros [?|(f & Hf & _)]; [done|]. by apply elem_of_nil in Hf.
  - destruct (Atoi f) as [field|] eqn:Hf; [|done].
    intros Hp. destruct (IH _ Hp) as [Hall Hsel]. split.
    + constructor; [by rewrite Hf|done].
    + intros k. rewrite Hsel. set_unfold. split.
      * intros [[->|?]|(f' & Hin & Hk)]; eauto.
      * intros [?|(f' & [->|Hin] & Hk)]; eauto.
        left. left. congruence.
Qed.

Lemma parseFields_valid (fields : list string) (acc : gset Z) :
  Forall (λ f, is_Some (Atoi f)) fields →
  ∃ selected, parseFields fields acc = Ok selected.
Proof.
  revert acc. induction fields as [|f fields IH]; intros acc Hall; simpl.
  - by eexists.
  - apply Forall_cons in Hall as [[field ->] Hall]. by apply IH.
Qed.

Lemma selectFields_valid (fields : list string) (acc : list string) :
  Forall (λ f, is_Some (Atoi f)) fields →
  selectFields fields acc =
    Ok (acc ++ ((λ f, AWSMetrics_at (default 0 (Atoi f))) <$> fields)).
Proof.
  revert acc. induction fields as [|f fields IH]; intros acc Hall; simpl.
  - by rewrite app_nil_r.
  - apply Forall_cons in Hall as [[field Hf] Hall]. rewrite Hf; simpl.
    rewrite IH by done. by rewrite <- app_assoc.
Qed.

(** Both loops stop at the first field that is not an integer, with the
    same error. *)
Lemma fields_invalid (fields : list string) (acc : gset Z) (acc' : list string) :
  Exists (λ f, Atoi f = None) fields →
  ∃ f, f ∈ fields ∧ Atoi f = None ∧
    parseFields fields acc = Err (invalid_field f) ∧
    selectFields fields acc' = Err (invalid_field f).
Proof.
  revert acc acc'. induction fields as [|f fields IH]; intros acc acc' Hex.
  - by apply Exists_nil in Hex.
  - simpl. destruct (Atoi f) as [field|] eqn:Hf.
    + apply Exists_cons in Hex as [Hex|Hex]; [congruence|].
      destruct (IH ({[field]} ∪ acc) (acc' ++ [AWSMetrics_at field]) Hex)
        as (f' & Hin & Hnone & Hp & Hs).
      exists f'. repeat split; [by right|done..].
    + exists f. repeat split; [by left|done].
Qed.

Lemma foldl_filter_insert (selected : gset Z) (l : list (Z * Desc))
    (acc : gmap Z Desc) :
  NoDup l.*1 →
  foldl (λ (metrics : gmap Z Desc) kv,
           if decide (kv.1 ∈ selected) then <[kv.1 := kv.2]> metrics
           else metrics) acc l
  = filter (λ kv, kv.1 ∈ selected) (list_to_map l : gmap Z Desc) ∪ acc.
Proof.
  revert acc. induction l as [|[k d] l IH]; intros acc Hnd; csimpl.
  - by rewrite map_filter_empty, (left_id_L ∅ (∪)).
  - apply NoDup_cons in Hnd as [Hk Hnd]. rewrite IH by done.
    assert ((list_to_map l : gmap Z Desc) !! k = None) as Hnone
      by (by apply not_elem_of_list_to_map_1).
    case_decide as Hsel.
    + rewrite map_filter_insert_True by done.
      rewrite <- insert_union_l. symmetry. apply insert_union_r.
      by apply map_lookup_filter_None_2; left.
    + by rewrite map_filter_insert_not by done.
Qed.

Lemma filterServerMetrics_Ok (filter : string) (ms : gmap Z Desc) :
  filterServerMetrics filter = Ok ms →
  if decide (String.length filter = 0%nat) then ms = ∅
  else ∃ selected,
    parseFields (Split filter ",") ∅ = Ok selected ∧
    ms = base.filter (λ kv, kv.1 ∈ selected) prometheusMetrics.
Proof.
  unfold filterServerMetrics. case_decide as Hlen; [by intros [= <-]|].
  destruct (parseFields (Split filter ",") ∅) as [selected|err] eqn:Hp;
    simpl; [|done].
  intros [= <-]. exists selected. split; [done|].
  rewrite foldl_filter_insert by apply NoDup_fst_range.
  rewrite (right_id_L ∅ (∪)). f_equal.
  rewrite (list_to_map_proper _ (map_to_list prometheusMetrics)).
  - apply list_to_map_to_list.
  - apply NoDup_fst_range.
  - apply range_perm.
Qed.

Lemma filterServerMetrics_subseteq (filter : string) (ms : gmap Z Desc) :
  filterServerMetrics filter = Ok ms → ms ⊆ prometheusMetrics.
Proof.
  intros Hms. apply filterServerMetrics_Ok in Hms.
  case_decide; [subst; apply map_empty_subseteq|].
  destruct Hms as (selected & _ & ->). apply map_filter_subseteq.
Qed.

Lemma incs_left_Collect_body (e : Exporter) :
  incs_left (Exporter_fetch e) 0 →
  incs_left (up ← scrape e;
             m ← MustNewConstMetric awsBillingUp GaugeValue up [];
             send m;;
             send (counterMetric (Exporter_totalScrapes e))) 1.
Proof.
  intros Hf. apply incs_left_bind; [by apply incs_left_scrape|done].
Qed.

Lemma no_inc_events (evs : list event) :
  length (base.filter (λ ev, is_inc ev = true) evs) = 0%nat → EvInc ∉ evs.
Proof.
  intros Hlen Hin. apply length_zero_iff_nil in Hlen.
  assert (EvInc ∈ base.filter (λ ev, is_inc ev = true) evs) as Hf
    by (by apply list_elem_of_filter).
  rewrite Hlen in Hf. by apply elem_of_nil in Hf.
Qed.

Lemma scrape_events_prefix (e : Exporter) (E : env) (w w1 : world)
    (evs : list event) (r : result GetCostAndUsageOutput) :
  run E (Exporter_fetch e) (entered w) = (evs, w1, Returned r) →
  ∃ more, (run E (scrape e) (acquired w)).1.1 = EvInc :: evs ++ more.
Proof.
  intros Hf. unfold scrape. simpl. rewrite run_bind.
  change {| counter := (counter w + 1)%N; locked := true;
            clock_reads := clock_reads w; client_calls := client_calls w |}
    with (entered w).
  match goal with |- context [and_then ?r ?f] =>
    destruct (and_then_events r f) as [more Hmore] end.
  exists more. unfold emit. simpl. by rewrite Hmore, Hf.
Qed.

Lemma Collect_body_events_prefix (e : Exporter) (E : env) (w w1 : world)
    (evs : list event) (r : result GetCostAndUsageOutput) :
  run E (Exporter_fetch e) (entered w) = (evs, w1, Returned r) →
  ∃ more,
    (run E (up ← scrape e;
            m ← MustNewConstMetric awsBillingUp GaugeValue up [];
            send m;;
            send (counterMetric (Exporter_totalScrapes e))) (acquired w)).1.1
    = EvInc :: evs ++ more.
Proof.
  intros Hf. rewrite run_bind.
  match goal with |- context [and_then ?r ?f] =>
    destruct (and_then_events r f) as [more1 ->] end.
  destruct (scrape_events_prefix e E w w1 evs r Hf) as [more2 ->].
  exists (more2 ++ more1). simpl. by rewrite <- app_assoc.
Qed.

(** ** The samples of a successful scrape *)

Lemma run_Collect_Ok (filter : string) (ms : gmap Z Desc) (e : Exporter)
    (E : env) (w : world) (response : GetCostAndUsageOutput) :
  NewExporter filter ms = Ok e →
  locked w = false →
  (run E (Exporter_fetch e) (entered w)).2 = Returned (Ok response) →
  (run E (Collect e) w).2 =
    match (cost_samples (first_totals response) (range ms)).2 with
    | None => Returned tt
    | Some msg => Panicked msg
    end ∧
  sent (run E (Collect e) w).1.1 =
    (cost_samples (first_totals response) (range ms)).1 ++
    match (cost_samples (first_totals response) (range ms)).2 with
    | None => [constMetric awsBillingUp GaugeValue float64_1 [];
               counterMetric (Exporter_totalScrapes e)]
    | Some _ => []
    end ∧
  counter (run E (Collect e) w).1.2 = (counter w + 1)%N ∧
  locked (run E (Collect e) w).1.2 = false.
Proof.
  intros He Hw Hr.
  destruct (NewExporter_fetch_plain _ _ _ He) as [Hlf _].
  destruct (NewExporter_Ok _ _ _ He) as (Hms & _ & _).
  destruct (run_fetch_NewExporter _ _ _ E (entered w) He)
    as (t1 & t2 & input & Hf).
  rewrite Hf in Hr. cbn [snd] in Hr.
  assert (env_client E (client_calls (entered w)) input = Ok response) as Hr'
    by congruence.
  rewrite Hr' in Hf.
  pose proof (run_scrape_Ok e E w _ _ _ Hf) as Hs. rewrite Hms in Hs.
  destruct (cost_samples (first_totals response) (range ms)) as [cs [msg|]];
    cbn [fst snd] in *.
  - rewrite (run_Collect_panicked e E w _ _ _ Hlf Hw Hs). simpl.
    split; [done|]. split; [|split; [lia|done]].
    rewrite (sent_app (EvSend <$> _)), sent_EvSend. done.
  - rewrite (run_Collect_returned e E w _ _ _ Hlf Hw Hs). simpl.
    split; [done|]. split; [|split; [lia|done]].
    rewrite (sent_app (EvSend <$> _)), sent_EvSend. done.
Qed.

(** ** Usable items and catalog descriptors *)

Lemma catalog_valid (k : Z) (d : Desc) :
  prometheusMetrics !! k = Some d →
  Desc_err d = None ∧ length (variableLabels d) = 2%nat.
Proof.
  apply (catalog_Forall
           (λ kd, Desc_err kd.2 = None ∧ length (variableLabels kd.2) = 2%nat)).
  apply (bool_decide_unpack _). by vm_compute.
Qed.

Lemma AWSMetrics_at_valid (k : Z) : ValidString (AWSMetrics_at k) = true.
Proof.
  unfold AWSMetrics_at. destruct (AWSMetrics !! k) as [name|] eqn:Hname; [|done].
  assert (Forall (λ kn : Z * string, ValidString kn.2 = true)
            (map_to_list AWSMetrics)) as Hall
    by (apply (bool_decide_unpack _); by vm_compute).
  rewrite Forall_forall in Hall.
  by apply (Hall (k, name)), elem_of_map_to_list.
Qed.

(** [NewConstMetric] on a catalog descriptor, the AWS name of an id and a
    unit. *)
Lemma NewConstMetric_catalog (k k' : Z) (d : Desc) (f : float64) (u : string) :
  prometheusMetrics !! k = Some d →
  NewConstMetric d GaugeValue f [AWSMetrics_at k'; u] =
    if ValidString u
    then Ok (constMetric d GaugeValue f [AWSMetrics_at k'; u])
    else Err (Error (ErrLabelValueUTF8 u)).
Proof.
  intros [Herr Harity]%catalog_valid.
  unfold NewConstMetric, validateLabelValues. rewrite Herr, Harity.
  rewrite decide_True by done.
  cbn [list_find]. rewrite decide_False by (by rewrite AWSMetrics_at_valid).
  destruct (ValidString u) eqn:Hu.
  - by rewrite decide_False.
  - by rewrite decide_True.
Qed.

(** On a catalog descriptor the inner loop panics exactly at an item that
    is not usable. *)
Lemma cost_sample_usable (totals : gmap string (option MetricValue))
    (k : Z) (d : Desc) :
  prometheusMetrics !! k = Some d →
  (∀ item, totals !! AWSMetrics_at k = Some item → usable item) →
  cost_sample totals (k, d) = Ok (priced totals (k, d)).
Proof.
  intros Hd Hok. unfold priced.
  destruct (cost_sample totals (k, d)) as [m|msg] eqn:Hs; [done|].
  exfalso. revert Hs. unfold cost_sample. cbn [fst snd].
  destruct (totals !! AWSMetrics_at k) as [item|]; [|done].
  destruct (Hok item eq_refl) as (cost & amount & -> & -> & Hunit).
  destruct (ParseFloat amount 64) as [f|]; [|done].
  destruct (Hunit f eq_refl) as (u & -> & Hu).
  by rewrite (NewConstMetric_catalog k k d f u Hd), Hu.
Qed.

Lemma cost_sample_Ok_usable (totals : gmap string (option MetricValue))
    (k : Z) (d : Desc) (item : option MetricValue) (m : option Metric) :
  prometheusMetrics !! k = Some d →
  totals !! AWSMetrics_at k = Some item →
  cost_sample totals (k, d) = Ok m → usable item.
Proof.
  intros Hd Hitem. unfold cost_sample. cbn [fst snd]. rewrite Hitem.
  destruct item as [cost|]; [|done].
  destruct (Amount cost) as [amount|] eqn:Ha; [|done].
  destruct (ParseFloat amount 64) as [f|] eqn:Hf.
  - destruct (Unit cost) as [u|] eqn:Hu; [|done].
    rewrite (NewConstMetric_catalog k k d f u Hd).
    destruct (ValidString u) eqn:Hv; [|done].
    intros _. exists cost, amount. split; [done|]. split; [done|].
    intros f' Hf'. by exists u.
  - intros _. exists cost, amount. split; [done|]. split; [done|].
    intros f' Hf'. congruence.
Qed.

(** The sample of a priced item. *)
Lemma priced_item (totals : gmap string (option MetricValue))
    (k : Z) (d : Desc) (cost : MetricValue) (amount u : string) (f : float64) :
  prometheusMetrics !! k = Some d →
  totals !! AWSMetrics_at k = Some (Some cost) →
  Amount cost = Some amount → ParseFloat amount 64 = Some f →
  Unit cost = Some u → ValidString u = true →
  priced totals (k, d) =
    Some (constMetric d GaugeValue f [AWSMetrics_at k; u]).
Proof.
  intros Hd Hitem Ha Hf Hu Hv. unfold priced, cost_sample. cbn [fst snd].
  rewrite Hitem, Ha, Hf, Hu, (NewConstMetric_catalog k k d f u Hd), Hv. done.
Qed.

Lemma priced_Some (totals : gmap string (option MetricValue))
    (km : Z * Desc) (m : Metric) :
  priced totals km = Some m →
  ∃ cost amount f u,
    totals !! AWSMetrics_at km.1 = Some (Some cost) ∧
    Amount cost = Some amount ∧ ParseFloat amount 64 = Some f ∧
    Unit cost = Some u ∧
    m = constMetric km.2 GaugeValue f [AWSMetrics_at km.1; u].
Proof.
  unfold priced, cost_sample.
  destruct (totals !! AWSMetrics_at km.1) as [[cost|]|]; [|done..].
  destruct (Amount cost) as [amount|] eqn:Ha; [|done].
  destruct (ParseFloat amount 64) as [f|] eqn:Hf; [|done].
  destruct (Unit cost) as [u|] eqn:Hu; [|done].
  unfold NewConstMetric.
  destruct (Desc_err km.2); [done|].
  destruct (validateLabelValues _ _); [done|]. cbn.
  intros [= <-]. by exists cost, amount, f, u.
Qed.

Lemma cost_sample_desc (totals : gmap string (option MetricValue))
    (km : Z * Desc) (m : Metric) :
  priced totals km = Some m → Metric_desc m = km.2.
Proof. by intros (cost & amount & f & u & _ & _ & _ & _ & ->)%priced_Some. Qed.

(** With usable items the loops run to their end and send the priced
    samples. *)
Lemma cost_samples_usable (totals : gmap string (option MetricValue))
    (l : list (Z * Desc)) :
  (∀ km, km ∈ l → cost_sample totals km = Ok (priced totals km)) →
  cost_samples (Ok totals) l = (omap (priced totals) l, None).
Proof.
  induction l as [|km l IH]; intros Hl; [done|].
  cbn [cost_samples]. change (Ok totals ≫= λ t, cost_sample t km)
    with (cost_sample totals km).
  rewrite (Hl km) by left. rewrite IH by (intros; apply Hl; by right).
  cbn [omap list_omap fst snd]. by destruct (priced totals km).
Qed.

(** An item that is not usable stops them. *)
Lemma cost_samples_panic (totals : result (gmap string (option MetricValue)))
    (l : list (Z * Desc)) (km : Z * Desc) (msg : string) :
  km ∈ l → (totals ≫= λ t, cost_sample t km) = Err msg →
  ∃ msg', (cost_samples totals l).2 = Some msg'.
Proof.
  intros Hin Hkm. induction l as [|km' l IH]; [by apply elem_of_nil in Hin|].
  cbn [cost_samples].
  destruct (totals ≫= λ t, cost_sample t km') as [m|msg'] eqn:Hkm';
    [|by eexists].
  cbn [snd]. apply IH. apply elem_of_cons in Hin as [->|Hin]; [|done].
  congruence.
Qed.

Lemma cost_samples_priced (totals : gmap string (option MetricValue))
    (l : list (Z * Desc)) (m : Metric) :
  m ∈ (cost_samples (Ok totals) l).1 →
  ∃ km, km ∈ l ∧ priced totals km = Some m.
Proof.
  induction l as [|km l IH]; cbn [cost_samples].
  - intros Hin. by apply elem_of_nil in Hin.
  - change (Ok totals ≫= λ t, cost_sample t km) with (cost_sample totals km).
    destruct (cost_sample totals km) as [om|msg] eqn:Hm; cbn [fst].
    + rewrite elem_of_app. intros [Hin|Hin].
      * exists km. split; [left|]. unfold priced. rewrite Hm.
        destruct om as [m'|]; [|by apply elem_of_nil in Hin].
        by apply list_elem_of_singleton in Hin as ->.
      * destruct (IH Hin) as (km' & Hkm' & Hp). exists km'.
        split; [by right|done].
    + intros Hin. by apply elem_of_nil in Hin.
Qed.

Lemma cost_samples_None (totals : gmap string (option MetricValue))
    (l : list (Z * Desc)) (km : Z * Desc) :
  (cost_samples (Ok totals) l).2 = None → km ∈ l →
  ∃ m, cost_sample totals km = Ok m.
Proof.
  intros Hnone Hin.
  destruct (cost_sample totals km) as [m|msg] eqn:Hkm; [by eexists|].
  destruct (cost_samples_panic (Ok totals) l km msg Hin Hkm) as [msg' Hsome].
  congruence.
Qed.

Lemma cost_samples_Err (msg : string) (l : list (Z * Desc)) :
  (cost_samples (Err msg) l).1 = [].
Proof. by destruct l. Qed.

(** Whatever stops them, the samples sent are priced samples of enabled
    metrics, in the order of the visit. *)
Lemma cost_samples_sublist (totals : result (gmap string (option MetricValue)))
    (l : list (Z * Desc)) :
  Metric_desc <$> (cost_samples totals l).1 `sublist_of` l.*2.
Proof.
  induction l as [|km l IH]; [done|]. cbn [cost_samples].
  destruct totals as [t|msg]; [|apply sublist_nil_l].
  change (Ok t ≫= λ t, cost_sample t km) with (cost_sample t km).
  destruct (cost_sample t km) as [[m|]|msg] eqn:Hm; cbn [fst];
    [| |apply sublist_nil_l].
  - assert (priced t km = Some m) as Hp by (unfold priced; by rewrite Hm).
    csimpl. rewrite (cost_sample_desc _ _ _ Hp). by constructor.
  - csimpl. by constructor.
Qed.

Lemma filter_cost_samples (totals : gmap string (option MetricValue))
    (l : list (Z * Desc)) (k : Z) (d : Desc) :
  NoDup l.*1 →
  (∀ k', (k', d) ∈ l → k' = k) →
  base.filter (λ m, Metric_desc m = d) (omap (priced totals) l) =
    if decide ((k, d) ∈ l) then option_list (priced totals (k, d)) else [].
Proof.
  induction l as [|[k0 d0] l IH]; csimpl.
  - done.
  - rewrite NoDup_cons. intros [Hk0 Hnd] Hinj.
    specialize (IH Hnd (λ k' Hin, Hinj k' (list_elem_of_further _ _ _ Hin))).
    destruct (decide (d0 = d)) as [->|Hd].
    + assert (k0 = k) as -> by (apply Hinj; left).
      assert ((k, d) ∉ l) as Hnot.
      { intros Hin. apply Hk0. apply list_elem_of_fmap. by exists (k, d). }
      rewrite decide_False in IH by done.
      rewrite decide_True by left.
      destruct (priced totals (k, d)) as [m|] eqn:Hm; simpl; [|done].
      rewrite filter_cons_True by (by apply cost_sample_desc in Hm).
      by rewrite IH.
    + assert ((k, d) ∈ (k0, d0) :: l ↔ (k, d) ∈ l) as Hiff.
      { rewrite elem_of_cons. split; [|by right]. intros [[=]|?]; [|done].
        congruence. }
      rewrite (decide_ext _ _ _ _ Hiff).
      destruct (priced totals (k0, d0)) as [m|] eqn:Hm; simpl; [|done].
      rewrite filter_cons_False; [done|].
      apply cost_sample_desc in Hm. simpl in Hm. congruence.
Qed.

(** Among the cost samples of a scrape, those of an enabled catalog metric
    are the one built from its item, if that item is there and parses. *)
Lemma cost_samples_of_metric (totals : gmap string (option MetricValue))
    (ms : gmap Z Desc) (k : Z) (d : Desc) :
  ms ⊆ prometheusMetrics → ms !! k = Some d →
  base.filter (λ m, Metric_desc m = d) (omap (priced totals) (range ms))
    = option_list (priced totals (k, d)).
Proof.
  intros Hsub Hd.
  rewrite (filter_cost_samples totals _ k d).
  - rewrite decide_True; [done|]. by apply elem_of_range.
  - apply NoDup_fst_range.
  - intros k' Hin. apply elem_of_range in Hin.
    apply (catalog_inj k' k d); by eapply lookup_weaken.
Qed.

(** No cost sample is described as the up gauge or the scrape counter. *)
Lemma cost_samples_not_up_nor_counter
    (totals : gmap string (option MetricValue)) (ms : gmap Z Desc)
    (m : Metric) :
  ms ⊆ prometheusMetrics →
  m ∈ omap (priced totals) (range ms) →
  Metric_desc m ≠ awsBillingUp ∧
  Metric_desc m ≠ NewCounter namespace "exporter_total_scrapes"
                    "Current total aws cost and usage API scrapes.".
Proof.
  intros Hsub Hin. apply list_elem_of_omap in Hin as ([k d] & Hkd & Hm).
  apply cost_sample_desc in Hm. rewrite Hm. simpl.
  apply elem_of_range in Hkd.
  apply (catalog_not_up_nor_counter k). by eapply lookup_weaken.
Qed.

(** A successful fetch whose first bucket is there and whose items named
    after enabled catalog metrics are usable. *)
Lemma run_Collect_usable (filter : string) (ms : gmap Z Desc) (e : Exporter)
    (E : env) (w : world) (response : GetCostAndUsageOutput)
    (bucket : ResultByTime) (rest : list (option ResultByTime)) :
  NewExporter filter ms = Ok e →
  ms ⊆ prometheusMetrics →
  locked w = false →
  (run E (Exporter_fetch e) (entered w)).2 = Returned (Ok response) →
  ResultsByTime response = Some bucket :: rest →
  (∀ k d item, ms !! k = Some d →
     Total bucket !! AWSMetrics_at k = Some item → usable item) →
  (run E (Collect e) w).2 = Returned tt ∧
  sent (run E (Collect e) w).1.1 =
    omap (priced (Total bucket)) (range ms) ++
    [constMetric awsBillingUp GaugeValue float64_1 [];
     counterMetric (Exporter_totalScrapes e)] ∧
  counter (run E (Collect e) w).1.2 = (counter w + 1)%N ∧
  locked (run E (Collect e) w).1.2 = false.
Proof.
  intros He Hsub Hw Hr Hb Hok.
  destruct (run_Collect_Ok _ _ _ E w response He Hw Hr)
    as (Hret & Hsent & Hc & Hl).
  assert (first_totals response = Ok (Total bucket)) as Ht
    by (unfold first_totals; by rewrite Hb).
  rewrite Ht in Hret, Hsent.
  rewrite cost_samples_usable in Hret, Hsent; [done|..].
  all: intros [k d] Hkd%elem_of_range;
    apply cost_sample_usable; [by eapply lookup_weaken|]; eauto.
Qed.

Lemma filter_nil_not {X : Type} (P : X → Prop) `{∀ x, Decision (P x)}
    (l : list X) :
  (∀ x, x ∈ l → ¬ P x) → base.filter P l = [].
Proof.
  intros Hl. induction l as [|x l IH]; [done|].
  rewrite filter_cons_False by (apply Hl; left).
  apply IH. intros y Hy. apply Hl. by right.
Qed.

(** ** Goroutines sharing the exporter *)

Lemma no_interleave_snoc_fresh (tids : list nat) (i : nat) :
  no_interleave tids → i ∉ tids → no_interleave (tids ++ [i]).
Proof.
  intros Hni Hfresh a b l1 l2 l3 l4 Heq.
  destruct l4 as [|x l4 _] using rev_ind.
  - rewrite !app_comm_cons, !app_assoc in Heq.
    apply app_inj_tail in Heq as [Heq ->].
    exfalso. apply Hfresh. rewrite Heq. set_solver.
  - assert (tids ++ [i] = (l1 ++ a :: l2 ++ b :: l3 ++ a :: l4) ++ [x]) as Heq'
      by (rewrite Heq; by simplify_list_eq).
    apply app_inj_tail in Heq' as [Heq' _]. by eapply Hni.
Qed.

Lemma no_interleave_snoc_last (tids : list nat) (i : nat) :
  no_interleave tids → last tids = Some i → no_interleave (tids ++ [i]).
Proof.
  intros Hni Hlast a b l1 l2 l3 l4 Heq.
  destruct l4 as [|x l4 _] using rev_ind.
  - assert (tids ++ [i] = (l1 ++ a :: l2 ++ b :: l3) ++ [a]) as Heq'
      by (rewrite Heq; by simplify_list_eq).
    apply app_inj_tail in Heq' as [Heq' <-].
    destruct l3 as [|y l3 _] using rev_ind.
    + rewrite Heq' in Hlast.
      rewrite !app_comm_cons, app_assoc, last_snoc in Hlast. congruence.
    + assert (tids = (l1 ++ i :: l2 ++ b :: l3) ++ [y]) as Heq''
        by (rewrite Heq'; by simplify_list_eq).
      rewrite Heq'', last_snoc in Hlast. injection Hlast as ->.
      apply (Hni i b l1 l2 l3 []). rewrite Heq''. by simplify_list_eq.
  - assert (tids ++ [i] = (l1 ++ a :: l2 ++ b :: l3 ++ a :: l4) ++ [x]) as Heq'
      by (rewrite Heq; by simplify_list_eq).
    apply app_inj_tail in Heq' as [Heq' _]. by eapply Hni.
Qed.

Lemma no_interleave_sublist (l k : list nat) :
  l `sublist_of` k → no_interleave k → no_interleave l.
Proof.
  intros Hsub Hni a b l1 l2 l3 l4 ->.
  apply sublist_app_l in Hsub as (kA & kB & -> & _ & Hsub).
  apply sublist_cons_l in Hsub as (kB1 & kB2 & -> & Hsub).
  apply sublist_app_l in Hsub as (kC & kD & -> & _ & Hsub).
  apply sublist_cons_l in Hsub as (kD1 & kD2 & -> & Hsub).
  apply sublist_app_l in Hsub as (kE & kF & -> & _ & Hsub).
  apply sublist_cons_l in Hsub as (kF1 & kF2 & -> & _).
  apply (Hni a b (kA ++ kB1) (kC ++ kD1) (kE ++ kF1) kF2).
  by simplify_list_eq.
Qed.

Lemma sum_list_insert (l : list nat) (i m m' : nat) :
  l !! i = Some m → (sum_list (<[i:=m']> l) + m = sum_list l + m')%nat.
Proof.
  revert i. induction l as [|x l IH]; intros [|i] Hi; simpl in *; try done.
  - injection Hi as ->. lia.
  - specialize (IH i Hi). lia.
Qed.

Lemma incs_left_defer_Unlock {A : Type} (p : prog A) (n : nat) :
  incs_left p n → incs_left (defer mutex_Unlock p) n.
Proof.
  revert n. induction p; intros n Hp; simpl in *; auto.
  destruct n; [done|]. auto.
Qed.

Lemma incs_left_Collect (e : Exporter) :
  incs_left (Exporter_fetch e) 0 → incs_left (Collect e) 1.
Proof.
  intros Hf. rewrite Collect_unfold. simpl.
  by apply incs_left_defer_Unlock, incs_left_Collect_body.
Qed.

Lemma inside_not_waiting (e : Exporter) (p : prog unit) :
  inside p → ¬ waiting e p.
Proof.
  intros (q & -> & Hq). unfold waiting. rewrite Collect_unfold.
  by destruct q.
Qed.

Lemma inside_not_done (p : prog unit) : inside p → ¬ done_prog p.
Proof. intros (q & -> & Hq) Hd. by destruct q. Qed.

Lemma done_not_waiting (e : Exporter) (p : prog unit) :
  done_prog p → ¬ waiting e p.
Proof. unfold waiting. rewrite Collect_unfold. intros Hd ->. done. Qed.

(** Every step writes one event; it moves the counter exactly when the
    event is an increment, which is then one less to come. *)
Lemma thread_step_effect (O : outside) (i : nat) (p p' : prog unit)
    (s s' : shared) :
  thread_step O i p s p' s' →
  ∃ ev, sh_trace s' = sh_trace s ++ [(i, ev)] ∧
    sh_counter s' = (sh_counter s + (if is_inc ev then 1 else 0))%N ∧
    ∀ m, incs_left p m →
      ∃ m', incs_left p' m' ∧ m = (m' + (if is_inc ev then 1 else 0))%nat.
Proof.
  destruct 1; eexists; (split; [done|]); simpl;
    (split; [by rewrite ?N.add_0_r|]); intros n Hn; simpl in Hn;
    try (exists n; split; [done|lia]).
  destruct n as [|n]; [done|]. exists n. split; [done|lia].
Qed.

(** A waiting goroutine can only take the mutex, and only when it is
    free; it is inside afterwards. *)
Lemma waiting_step (O : outside) (i : nat) (e : Exporter) (p' : prog unit)
    (s s' : shared) :
  lockfree (Exporter_fetch e) →
  thread_step O i (Collect e) s p' s' →
  sh_locked s = false ∧ sh_locked s' = true ∧ inside p'.
Proof.
  intros Hlf Hstep. rewrite Collect_unfold in Hstep. revert Hstep.
  generalize (lockfree_Collect_body e Hlf).
  generalize (up ← scrape e;
              m ← MustNewConstMetric awsBillingUp GaugeValue up [];
              send m;;
              send (counterMetric (Exporter_totalScrapes e))).
  intros q Hq Hstep. inversion Hstep; subst. repeat split; [done|].
  by exists q.
Qed.

(** A goroutine inside stays inside without touching the mutex, or gives
    the mutex back and is done. *)
Lemma inside_step (O : outside) (i : nat) (p p' : prog unit)
    (s s' : shared) :
  inside p →
  thread_step O i p s p' s' →
  (inside p' ∧ sh_locked s' = sh_locked s) ∨
  (done_prog p' ∧ sh_locked s' = false).
Proof.
  intros (q & -> & Hq) Hstep.
  destruct q; simpl in *; inversion Hstep; subst; simpl;
    try (by right); try done; left; (split; [|done]);
    eexists; (split; [done|]); auto.
Qed.

Lemma done_no_step (O : outside) (i : nat) (p p' : prog unit)
    (s s' : shared) :
  done_prog p → ¬ thread_step O i p s p' s'.
Proof. intros Hd Hstep. by destruct Hstep. Qed.

Lemma pool_inv_init (e : Exporter) (c : N) (n : nat) :
  incs_left (Exporter_fetch e) 0 →
  pool_inv e c (replicate n (Collect e),
                {| sh_counter := c; sh_locked := false; sh_trace := [] |}).
Proof.
  intros Hif. unfold pool_inv; simpl.
  split; [apply Forall_replicate; by left|].
  split.
  { intros i p [-> _]%lookup_replicate Hin.
    by apply (inside_not_waiting e) in Hin. }
  split; [done|].
  split; [intros i p _ _; apply not_elem_of_nil|].
  split; [intros a b l1 l2 l3 l4 Heq; by destruct l1|].
  split; [|lia].
  exists (replicate n 1%nat). split.
  - apply Forall2_replicate. by apply incs_left_Collect.
  - rewrite length_replicate.
    assert (sum_list (replicate n 1%nat) = n) as ->
      by (induction n; simpl; lia).
    done.
Qed.

Lemma pool_inv_step (O : outside) (e : Exporter) (c : N)
    (st st' : list (prog unit) * shared) :
  lockfree (Exporter_fetch e) →
  pool_inv e c st → pool_step O st st' → pool_inv e c st'.
Proof.
  intros Hlf (Hok & Hin & Hlk & Hwait & Hni & (lefts & Hlefts & Hsum) & Hcnt)
    Hstep.
  destruct Hstep as [ts s i p p' s' Hi Hstep]. simpl in *.
  destruct (thread_step_effect _ _ _ _ _ _ Hstep) as (ev & Htr & Hctr & Hleft).
  pose proof (lookup_lt_Some _ _ _ Hi) as Hlt.
  assert (((inside p' ∧ sh_locked s' = true) ∨
           (done_prog p' ∧ sh_locked s' = false)) ∧
          (∀ j q, j ≠ i → ts !! j = Some q → ¬ inside q) ∧
          no_interleave ((sh_trace s).*1 ++ [i])) as (Hp' & Hothers & Hni').
  { rewrite Forall_lookup in Hok.
    destruct (Hok i p Hi) as [Hw|[Hinside|Hdone]].
    - rewrite Hw in Hstep.
      destruct (waiting_step _ _ _ _ _ _ Hlf Hstep) as (Hfree & Hheld & Hp').
      split; [by left|]. split.
      + intros j q _ Hj Hq. destruct (Hin j q Hj Hq) as [Hl _]. congruence.
      + apply no_interleave_snoc_fresh; [done|]. by apply (Hwait i p).
    - destruct (Hin i p Hi Hinside) as [Hheld Hlast].
      split; [|split].
      + destruct (inside_step _ _ _ _ _ _ Hinside Hstep) as [[? Hl]|[? Hl]];
          [left|right]; split; congruence.
      + intros j q Hne Hj Hq. destruct (Hin j q Hj Hq) as [_ Hlast'].
        congruence.
      + by apply no_interleave_snoc_last.
    - by apply done_no_step in Hstep. }
  assert ((sh_trace s').*1 = (sh_trace s).*1 ++ [i]) as Htids
    by (by rewrite Htr, fmap_app).
  unfold pool_inv; simpl. rewrite Htids.
  split; [|split; [|split; [|split; [|split; [done|split]]]]].
  - apply Forall_insert; [done|].
    destruct Hp' as [[? _]|[? _]]; [by right; left|by right; right].
  - intros j q Hj Hq. destruct (decide (j = i)) as [->|Hne].
    + rewrite list_lookup_insert_eq in Hj by done. injection Hj as <-.
      rewrite last_snoc. split; [|done].
      destruct Hp' as [[_ ?]|[Hd _]]; [done|].
      by apply inside_not_done in Hq.
    + rewrite list_lookup_insert_ne in Hj by done.
      by apply Hothers in Hj.
  - intros Hheld. exists i, p'.
    rewrite list_lookup_insert_eq by done. split; [done|].
    destruct Hp' as [[? _]|[_ ?]]; [done|congruence].
  - intros j q Hj Hq. destruct (decide (j = i)) as [->|Hne].
    + rewrite list_lookup_insert_eq in Hj by done. injection Hj as <-.
      destruct Hp' as [[Hp' _]|[Hp' _]].
      * by apply (inside_not_waiting e) in Hp'.
      * by apply (done_not_waiting e) in Hp'.
    + rewrite list_lookup_insert_ne in Hj by done.
      rewrite not_elem_of_app. split; [by apply (Hwait j q)|].
      by intros ->%list_elem_of_singleton.
  - destruct (Forall2_lookup_l _ _ _ _ _ Hlefts Hi) as (m & Hm & Hpm).
    destruct (Hleft m Hpm) as (m' & Hpm' & Hmm').
    exists (<[i:=m']> lefts). split; [by apply Forall2_insert|].
    pose proof (sum_list_insert lefts i m m' Hm) as Hs.
    rewrite length_insert, Hctr. destruct (is_inc ev); lia.
  - rewrite Htr, filter_app, length_app, Hctr, Hcnt.
    destruct (is_inc ev) eqn:Hev.
    + rewrite filter_cons_True by done. simpl. lia.
    + rewrite filter_cons_False by (simpl; congruence). simpl. lia.
Qed.

Lemma pool_inv_rtc (O : outside) (e : Exporter) (c : N)
    (st st' : list (prog unit) * shared) :
  lockfree (Exporter_fetch e) →
  pool_inv e c st → rtc (pool_step O) st st' → pool_inv e c st'.
Proof.
  intros Hlf Hinv Hsteps. induction Hsteps as [|st1 st2 st3 Hstep _ IH];
    [done|].
  apply IH. by eapply pool_inv_step.
Qed.

Lemma main_exporter_Ok (filter : string) (e : Exporter) :
  main_exporter filter = Ok e →
  NewExporter filter (Exporter_prometheusMetrics e) = Ok e ∧
  Exporter_prometheusMetrics e ⊆ prometheusMetrics.
Proof.
  unfold main_exporter. intros He.
  destruct (filterServerMetrics filter) as [ms|err] eqn:Hms; simpl in He;
    [|done].
  destruct (NewExporter_Ok _ _ _ He) as (-> & _).
  split; [done|]. by apply (filterServerMetrics_subseteq filter).
Qed.

(** ** The default value of the flag *)

Lemma default_flag_value : metrics_String prometheusMetrics = "1,2,3,4,5,6,7".
Proof.
  unfold metrics_String. rewrite (foldl_snoc fst). simpl app.
  assert (merge_sort Z.le (range prometheusMetrics).*1 = [1; 2; 3; 4; 5; 6; 7])
    as ->; [|by vm_compute].
  apply (Sorted_unique Z.le).
  - apply Sorted_merge_sort. apply _.
  - repeat constructor; lia.
  - rewrite merge_sort_Permutation, (range_perm prometheusMetrics).
    apply NoDup_Permutation.
    + apply NoDup_fst_map_to_list.
    + apply (bool_decide_unpack _). by vm_compute.
    + assert (list_to_set (C := gset Z) (map_to_list prometheusMetrics).*1
              = list_to_set [1; 2; 3; 4; 5; 6; 7]) as Hset by (by vm_compute).
      intros k. rewrite <- !(elem_of_list_to_set (C := gset Z)).
      by rewrite Hset.
Qed.

(** Left at its default, the flag enables the whole catalog. *)
Lemma default_flag_enables_catalog :
  ∃ e, main_exporter (metrics_String prometheusMetrics) = Ok e ∧
    Exporter_prometheusMetrics e = prometheusMetrics ∧
    Exporter_fetch e =
      fetchHTTP ["AmortizedCost"; "BlendedCost"; "NetAmortizedCost";
                 "NetUnblendedCost"; "NormalizedUsageAmount";
                 "UnblendedCost"; "UsageQuantity"].
Proof.
  rewrite default_flag_value.
  destruct (filterServerMetrics "1,2,3,4,5,6,7") as [ms|err] eqn:Hms.
  - pose proof (filterServerMetrics_Ok _ _ Hms) as Hok. simpl in Hok.
    destruct Hok as (selected & Hsel & ->).
    injection Hsel as <-.
    unfold main_exporter. rewrite Hms. eexists. split; [done|].
    split; [by vm_compute|done].
  - unfold filterServerMetrics in Hms. simpl in Hms. done.
Qed.

(** * The claims *)

(** C2. Every [Collect] on an exporter built by [NewExporter], entered
    with the mutex free, counts the scrape exactly once, whatever the
    billing service answers and whether or not the scrape panics: the
    counter ends one higher, the increment is the first thing done under
    the lock, the clock readings and the call to the service come after
    it, and nothing later in the run counts again. *)
Theorem Collect_counts_once_before_fetch (filter : string) (ms : gmap Z Desc)
    (e : Exporter) (E : env) (w : world) :
  NewExporter filter ms = Ok e →
  locked w = false →
  ∃ t1 t2 input r rest,
    (run E (Collect e) w).1.1 =
      (EvLock :: EvInc :: EvNow t1 :: EvNow t2 :: EvCall input r :: rest) ∧
    (EvInc ∉ rest) ∧
    counter (run E (Collect e) w).1.2 = (counter w + 1)%N ∧
    (run E (Collect e) w).2 ≠ Blocked.
Proof.
  intros He Hw.
  destruct (NewExporter_fetch_plain _ _ _ He) as [Hlf Hif].
  destruct (run_fetch_NewExporter _ _ _ E (entered w) He)
    as (t1 & t2 & input & Hf).
  pose proof (lockfree_Collect_body e Hlf) as Hlb.
  pose proof (incs_left_Collect_body e Hif) as Hib.
  destruct (Collect_body_events_prefix e E w _ _ _ Hf) as [more Hmore].
  destruct (run_lockfree E _ 1 (acquired w) Hlb Hib) as (Hc & _ & Hnb & Hn).
  rewrite Collect_unfold, run_Lock_free by done.
  rewrite run_defer_Unlock; [|done..].
  revert Hmore Hc Hnb Hn.
  generalize (run E (up ← scrape e;
                     m ← MustNewConstMetric awsBillingUp GaugeValue up [];
                     send m;;
                     send (counterMetric (Exporter_totalScrapes e)))
                (acquired w)).
  intros [[evs w'] o]; simpl. intros -> Hc Hnb Hn.
  exists t1, t2, input, (env_client E (client_calls (entered w)) input),
    (more ++ [EvUnlock]).
  repeat split; [|done..].
  injection Hn as Hn. rewrite not_elem_of_app. split.
  - by apply no_inc_events.
  - by intros [=]%list_elem_of_singleton.
Qed.

(** C3. When the fetch closure returns an error, [Collect] returns
    normally (the error goes to the log and no further), and the samples
    it sends are exactly the up gauge with value 0 followed by the scrape
    counter: no cost sample is sent. *)
Theorem Collect_on_fetch_error (filter : string) (ms : gmap Z Desc)
    (e : Exporter) (E : env) (w : world) (err : string) :
  NewExporter filter ms = Ok e →
  locked w = false →
  (run E (Exporter_fetch e) (entered w)).2 = Returned (Err err) →
  (run E (Collect e) w).2 = Returned tt ∧
  sent (run E (Collect e) w).1.1 =
    [constMetric awsBillingUp GaugeValue float64_0 [];
     counterMetric (Exporter_totalScrapes e)] ∧
  EvLog ("Can't scrape AWS Billing data: " +:+ err) ∈ (run E (Collect e) w).1.1 ∧
  counter (run E (Collect e) w).1.2 = (counter w + 1)%N ∧
  locked (run E (Collect e) w).1.2 = false.
Proof.
  intros He Hw Hr.
  destruct (NewExporter_fetch_plain _ _ _ He) as [Hlf _].
  destruct (run_fetch_NewExporter _ _ _ E (entered w) He)
    as (t1 & t2 & input & Hf).
  rewrite Hf in Hr. cbn [snd] in Hr.
  assert (env_client E (client_calls (entered w)) input = Err err) as Hr'
    by congruence.
  rewrite Hr' in Hf.
  rewrite (run_Collect_returned e E w _ _ _ Hlf Hw (run_scrape_Err e E w _ _ _ Hf)).
  simpl. split; [done|]. split; [done|]. split; [set_solver|]. split; [lia|done].
Qed.

(** C5. A non-empty filter with a field that [strconv.Atoi] rejects makes
    [filterServerMetrics] and [NewExporter] both return the error naming
    such a field (the one their loops stop at); neither returns a value
    next to it, so no exporter exists. *)
Theorem invalid_field_fails_construction (filter : string) :
  filter ≠ "" →
  Exists (λ f, Atoi f = None) (Split filter ",") →
  ∃ f, f ∈ Split filter "," ∧ Atoi f = None ∧
    filterServerMetrics filter = Err (invalid_field f) ∧
    (∀ ms, NewExporter filter ms = Err (invalid_field f)) ∧
    main_exporter filter = Err (invalid_field f).
Proof.
  intros Hne Hex.
  assert (String.length filter ≠ 0%nat) as Hlen by (by destruct filter).
  destruct (fields_invalid _ ∅ [] Hex) as (f & Hin & Hnone & Hp & Hs).
  exists f. split; [done|]. split; [done|].
  assert (filterServerMetrics filter = Err (invalid_field f)) as Hfilter.
  { unfold filterServerMetrics. rewrite decide_False by done. by rewrite Hp. }
  split; [done|]. split.
  - intros ms. unfold NewExporter. rewrite decide_False by done. by rewrite Hs.
  - unfold main_exporter. by rewrite Hfilter.
Qed.

(** C7, as the code has it. A non-empty filter whose fields are all
    integers is accepted whatever the integers are: construction returns
    an exporter, whose enabled metrics are the catalog entries whose id
    is among the fields.  A field outside 1..7 is no error: it enables
    nothing, and stands as an empty name in the request. *)
Theorem unknown_ids_are_skipped (filter : string) :
  filter ≠ "" →
  Forall (λ f, is_Some (Atoi f)) (Split filter ",") →
  ∃ e, main_exporter filter = Ok e ∧
    (∀ k d, Exporter_prometheusMetrics e !! k = Some d ↔
            prometheusMetrics !! k = Some d ∧
            ∃ f, f ∈ Split filter "," ∧ Atoi f = Some k) ∧
    Exporter_fetch e =
      fetchHTTP ((λ f, AWSMetrics_at (default 0 (Atoi f))) <$> Split filter ",") ∧
    (∀ k, ¬ (1 ≤ k ≤ 7) →
          Exporter_prometheusMetrics e !! k = None ∧ AWSMetrics_at k = "").
Proof.
  intros Hne Hall.
  assert (String.length filter ≠ 0%nat) as Hlen by (by destruct filter).
  destruct (parseFields_valid _ ∅ Hall) as [selected Hp].
  destruct (parseFields_Ok _ _ _ Hp) as [_ Hsel].
  unfold main_exporter, filterServerMetrics, NewExporter.
  rewrite !decide_False by done. rewrite Hp. simpl.
  rewrite (selectFields_valid _ [] Hall). simpl.
  eexists. split; [done|]. simpl.
  rewrite foldl_filter_insert by apply NoDup_fst_range.
  rewrite (right_id_L ∅ (∪)).
  rewrite (list_to_map_proper _ (map_to_list prometheusMetrics))
    by (apply NoDup_fst_range || apply range_perm).
  rewrite list_to_map_to_list.
  assert (∀ k d, base.filter (λ kv : Z * Desc, kv.1 ∈ selected) prometheusMetrics
                   !! k = Some d ↔
                 prometheusMetrics !! k = Some d ∧
                 ∃ f, f ∈ Split filter "," ∧ Atoi f = Some k) as Hlookup.
  { intros k d. rewrite map_lookup_filter_Some. simpl. rewrite Hsel. split.
    - intros [Hd [Hk|Hf]]; [by apply not_elem_of_empty in Hk|done].
    - intros [Hd Hf]; auto. }
  split; [done|]. split; [done|]. intros k Hk. split.
  - apply eq_None_not_Some. intros [d Hd]. apply Hlookup in Hd as [Hd _].
    by apply catalog_ids in Hd.
  - unfold AWSMetrics_at.
    destruct (AWSMetrics !! k) as [name|] eqn:Hname; [|done].
    exfalso. apply Hk. revert Hname.
    assert (Forall (λ kn : Z * string, 1 ≤ kn.1 ≤ 7) (map_to_list AWSMetrics))
      as Hforall by (apply (bool_decide_unpack _); by vm_compute).
    rewrite Forall_forall in Hforall. intros Hname.
    by apply (Hforall (k, name)), elem_of_map_to_list.
Qed.

(** C4, amended. After a successful fetch whose first bucket is there and
    in which every item named after an enabled metric is usable (it is not
    nil, it has an amount and, when the amount parses, a unit that is
    valid UTF-8), every enabled catalog metric whose item has a parsable
    amount gets exactly one sample: a gauge on the metric's descriptor,
    valued with the parsed amount and labelled with the AWS name and the
    item's unit.  The up gauge with value 1 and the scrape counter follow
    the cost samples, once each.  For id 2 the descriptor is
    aws_billing_server_blended_cost with labels type, unit, and the AWS
    name is BlendedCost. *)
Theorem Collect_one_sample_per_priced_metric (filter : string)
    (e : Exporter) (E : env) (w : world)
    (response : GetCostAndUsageOutput) (bucket : ResultByTime)
    (rest : list (option ResultByTime)) (k : Z) (d : Desc)
    (cost : MetricValue) (amount u : string) (f : float64) :
  main_exporter filter = Ok e →
  locked w = false →
  (run E (Exporter_fetch e) (entered w)).2 = Returned (Ok response) →
  ResultsByTime response = Some bucket :: rest →
  (∀ k' d' item, Exporter_prometheusMetrics e !! k' = Some d' →
     Total bucket !! AWSMetrics_at k' = Some item → usable item) →
  Exporter_prometheusMetrics e !! k = Some d →
  Total bucket !! AWSMetrics_at k = Some (Some cost) →
  Amount cost = Some amount →
  ParseFloat amount 64 = Some f →
  Unit cost = Some u →
  (run E (Collect e) w).2 = Returned tt ∧
  base.filter (λ m, Metric_desc m = d) (sent (run E (Collect e) w).1.1) =
    [constMetric d GaugeValue f [AWSMetrics_at k; u]] ∧
  (∃ costs, sent (run E (Collect e) w).1.1 =
     costs ++ [constMetric awsBillingUp GaugeValue float64_1 [];
               counterMetric (Exporter_totalScrapes e)] ∧
     Forall (λ m, Metric_desc m ≠ awsBillingUp ∧
                  Metric_desc m ≠ Exporter_totalScrapes e) costs) ∧
  (k = 2 →
   fqName d = "aws_billing_server_blended_cost" ∧
   variableLabels d = ["type"; "unit"] ∧
   AWSMetrics_at k = "BlendedCost").
Proof.
  intros [He Hsub]%main_exporter_Ok Hw Hr Hb Hok Hd Hcost Ha Hf Hu.
  destruct (run_Collect_usable _ _ _ E w _ _ _ He Hsub Hw Hr Hb Hok)
    as (Hret & Hsent & _ & _).
  destruct (NewExporter_Ok _ _ _ He) as (_ & Hts & _).
  pose proof (lookup_weaken _ _ _ _ Hd Hsub) as Hcat.
  destruct (catalog_not_up_nor_counter k d Hcat) as [Hup Hctr].
  assert (ValidString u = true) as Hv.
  { destruct (Hok k d _ Hd Hcost) as (cost' & amount' & [= <-] & Ha' & Hv).
    rewrite Ha in Ha'. injection Ha' as <-.
    destruct (Hv f Hf) as (u' & Hu' & Hv'). congruence. }
  split; [done|]. rewrite Hsent. split; [|split].
  - rewrite filter_app, (cost_samples_of_metric _ _ k d Hsub Hd).
    rewrite (priced_item _ k d cost amount u f Hcat Hcost Ha Hf Hu Hv).
    simpl.
    rewrite filter_cons_False by (simpl; congruence).
    rewrite filter_cons_False by (simpl; congruence). done.
  - eexists. split; [done|]. apply Forall_forall. intros m Hm. rewrite Hts.
    by apply (cost_samples_not_up_nor_counter (Total bucket)
                (Exporter_prometheusMetrics e)).
  - intros ->. split; [|split].
    + assert (Forall (λ kd : Z * Desc,
                kd.1 = 2 → fqName kd.2 = "aws_billing_server_blended_cost")
              (map_to_list prometheusMetrics)) as Hall
        by (apply (bool_decide_unpack _); by vm_compute).
      by apply (catalog_Forall _ 2 d Hall Hcat).
    + by apply (catalog_arity 2).
    + done.
Qed.

(** C6, amended. After a successful fetch whose response has a first
    bucket, an item of that bucket whose amount does not parse yields no
    sample: no sample carries its name as type label, in any run.  When
    the items named after enabled metrics are usable (as the unparsable
    one is), the scrape goes on all the same: it returns normally, every
    enabled catalog metric whose item parses still gets its one sample,
    and the up gauge with value 1 and the scrape counter close the
    sequence. *)
Theorem Collect_skips_unparsable_amount (filter : string)
    (e : Exporter) (E : env) (w : world)
    (response : GetCostAndUsageOutput) (bucket : ResultByTime)
    (rest : list (option ResultByTime)) (name : string) (cost : MetricValue)
    (amount : string) :
  main_exporter filter = Ok e →
  locked w = false →
  (run E (Exporter_fetch e) (entered w)).2 = Returned (Ok response) →
  ResultsByTime response = Some bucket :: rest →
  Total bucket !! name = Some (Some cost) →
  Amount cost = Some amount →
  ParseFloat amount 64 = None →
  usable (Some cost) ∧
  (∀ d vt v labels,
     constMetric d vt v (name :: labels) ∉ sent (run E (Collect e) w).1.1) ∧
  ((∀ k' d' item, Exporter_prometheusMetrics e !! k' = Some d' →
      Total bucket !! AWSMetrics_at k' = Some item → usable item) →
   (run E (Collect e) w).2 = Returned tt ∧
   (∀ k' d' cost' amount' f' u',
      Exporter_prometheusMetrics e !! k' = Some d' →
      Total bucket !! AWSMetrics_at k' = Some (Some cost') →
      Amount cost' = Some amount' →
      ParseFloat amount' 64 = Some f' →
      Unit cost' = Some u' →
      base.filter (λ m, Metric_desc m = d') (sent (run E (Collect e) w).1.1) =
        [constMetric d' GaugeValue f' [AWSMetrics_at k'; u']]) ∧
   (∃ costs, sent (run E (Collect e) w).1.1 =
      costs ++ [constMetric awsBillingUp GaugeValue float64_1 [];
                counterMetric (Exporter_totalScrapes e)])).
Proof.
  intros [He Hsub]%main_exporter_Ok Hw Hr Hb Hcost Ha Hf.
  destruct (NewExporter_Ok _ _ _ He) as (Hms & Hts & _).
  split; [|split].
  - exists cost, amount. split; [done|]. split; [done|]. intros f'. congruence.
  - destruct (run_Collect_Ok _ _ _ E w response He Hw Hr) as (_ & Hsent & _).
    assert (first_totals response = Ok (Total bucket)) as Ht
      by (unfold first_totals; by rewrite Hb).
    rewrite Ht in Hsent. rewrite Hsent.
    intros d vt v labels Hin. apply elem_of_app in Hin as [Hin|Hin].
    + apply cost_samples_priced in Hin as (km & _ & Hp).
      apply priced_Some in Hp
        as (cost' & amount' & f' & u' & Hc' & Ha' & Hf' & _ & Hm).
      injection Hm as _ _ _ Hname _. rewrite <- Hname in Hc'. congruence.
    + destruct (cost_samples _ _).2; [by apply elem_of_nil in Hin|].
      apply elem_of_cons in Hin as [[=]|Hin].
      by apply list_elem_of_singleton in Hin.
  - intros Hok.
    destruct (run_Collect_usable _ _ _ E w _ _ _ He Hsub Hw Hr Hb Hok)
      as (Hret & Hsent & _ & _).
    split; [done|]. rewrite Hsent. split; [|by eexists].
    intros k' d' cost' amount' f' u' Hd' Hcost' Ha' Hf' Hu'.
    pose proof (lookup_weaken _ _ _ _ Hd' Hsub) as Hcat.
    destruct (catalog_not_up_nor_counter k' d' Hcat) as [Hup Hctr].
    assert (ValidString u' = true) as Hv.
    { destruct (Hok k' d' _ Hd' Hcost') as (c & a & [= <-] & Hac & Hv).
      rewrite Ha' in Hac. injection Hac as <-.
      destruct (Hv f' Hf') as (u0 & Hu0 & Hv0). congruence. }
    rewrite filter_app, (cost_samples_of_metric _ _ k' d' Hsub Hd').
    rewrite (priced_item _ k' d' cost' amount' u' f' Hcat Hcost' Ha' Hf' Hu' Hv).
    simpl.
    rewrite filter_cons_False by (simpl; congruence).
    rewrite filter_cons_False by (simpl; congruence). done.
Qed.

(** C1, on the code. With the empty filter [NewExporter] asks the billing
    service for all seven AWS names, but [filterServerMetrics] returns no
    descriptor, so the exporter has no enabled metric: after a successful
    fetch [Collect] sends the up gauge and the scrape counter and no cost
    sample, whatever the response holds. *)
Theorem empty_filter_enables_no_metric (E : env) (w : world)
    (response : GetCostAndUsageOutput) :
  ∃ e selected,
    main_exporter "" = Ok e ∧
    Exporter_prometheusMetrics e = ∅ ∧
    Exporter_fetch e = fetchHTTP selected ∧
    selected ≡ₚ ["AmortizedCost"; "BlendedCost"; "NetAmortizedCost";
                 "NetUnblendedCost"; "NormalizedUsageAmount";
                 "UnblendedCost"; "UsageQuantity"] ∧
    (locked w = false →
     (run E (Exporter_fetch e) (entered w)).2 = Returned (Ok response) →
     (run E (Collect e) w).2 = Returned tt ∧
     sent (run E (Collect e) w).1.1 =
       [constMetric awsBillingUp GaugeValue float64_1 [];
        counterMetric (Exporter_totalScrapes e)]).
Proof.
  destruct (NewExporter "" ∅) as [e|err] eqn:He; [|done].
  destruct (NewExporter_Ok _ _ _ He) as (Hms & _ & selected & Hfetch & Hsel).
  simpl in Hsel. exists e, selected.
  split; [done|]. split; [done|]. split; [done|]. split.
  - rewrite Hsel. apply (bool_decide_unpack _). by vm_compute.
  - intros Hw Hr.
    destruct (NewExporter_fetch_plain _ _ _ He) as [Hlf _].
    destruct (run_fetch_NewExporter _ _ _ E (entered w) He)
      as (t1 & t2 & input & Hf).
    rewrite Hf in Hr. cbn [snd] in Hr.
    assert (env_client E (client_calls (entered w)) input = Ok response) as Hr'
      by congruence.
    rewrite Hr' in Hf.
    pose proof (run_scrape_Ok e E w _ _ _ Hf) as Hs.
    rewrite Hms in Hs.
    assert (range (∅ : gmap Z Desc) = []) as Hnil by (by apply range_nil).
    rewrite Hnil, cost_samples_nil in Hs. cbn [fst snd] in Hs.
    rewrite (run_Collect_returned e E w _ _ _ Hlf Hw Hs). done.
Qed.

(** C10, as the code has it. When the fetch succeeds, [scrape] reads the
    first bucket once per enabled metric, inside the loop over them.  With
    an empty bucket list [Collect] panics with an index error, before any
    sample is sent, exactly when some metric is enabled; with none enabled
    it never reads the bucket and returns with up = 1, whatever the
    response.  So [Collect] returns normally only if no metric is enabled
    or the response has a first bucket.  The deferred unlock runs in every
    case. *)
Theorem first_bucket_is_read_per_enabled_metric (filter : string)
    (e : Exporter) (E : env) (w : world)
    (response : GetCostAndUsageOutput) :
  main_exporter filter = Ok e →
  locked w = false →
  (run E (Exporter_fetch e) (entered w)).2 = Returned (Ok response) →
  (ResultsByTime response = [] → Exporter_prometheusMetrics e ≠ ∅ →
   (run E (Collect e) w).2 =
     Panicked "runtime error: index out of range [0] with length 0" ∧
   sent (run E (Collect e) w).1.1 = [] ∧
   locked (run E (Collect e) w).1.2 = false) ∧
  (Exporter_prometheusMetrics e = ∅ →
   (run E (Collect e) w).2 = Returned tt ∧
   sent (run E (Collect e) w).1.1 =
     [constMetric awsBillingUp GaugeValue float64_1 [];
      counterMetric (Exporter_totalScrapes e)] ∧
   locked (run E (Collect e) w).1.2 = false) ∧
  ((run E (Collect e) w).2 = Returned tt →
   Exporter_prometheusMetrics e = ∅ ∨
   ∃ bucket rest, ResultsByTime response = Some bucket :: rest) ∧
  locked (run E (Collect e) w).1.2 = false.
Proof.
  intros [He Hsub]%main_exporter_Ok Hw Hr.
  destruct (NewExporter_Ok _ _ _ He) as (Hms & _ & _).
  destruct (run_Collect_Ok _ _ _ E w response He Hw Hr)
    as (Hret & Hsent & _ & Hl).
  split; [|split; [|split; [|done]]].
  - intros Hb Hne.
    assert (first_totals response =
              Err "runtime error: index out of range [0] with length 0") as Ht
      by (unfold first_totals; by rewrite Hb).
    rewrite Ht, cost_samples_no_totals in Hret, Hsent;
      [done|by rewrite range_nil..].
  - intros Hempty.
    assert (range (Exporter_prometheusMetrics e) = []) as Hnil
      by (by apply range_nil).
    by rewrite Hnil, cost_samples_nil in Hret, Hsent.
  - intros Hreturned.
    destruct (decide (Exporter_prometheusMetrics e = ∅)) as [|Hne];
      [by left|right].
    unfold first_totals in Hret.
    destruct (ResultsByTime response) as [|[bucket|] rest]; [|by eauto|].
    all: rewrite cost_samples_no_totals in Hret by (by rewrite range_nil).
    all: cbn [snd] in Hret; congruence.
Qed.


Lemma pool_steps_length (O : outside) (st st' : list (prog unit) * shared) :
  rtc (pool_step O) st st' → length st'.1 = length st.1.
Proof.
  induction 1 as [|st1 st2 st3 Hstep _ IH]; [done|].
  rewrite IH. destruct Hstep; simpl. apply length_insert.
Qed.

Lemma incs_left_done (p : prog unit) (m : nat) :
  done_prog p → incs_left p m → m = 0%nat.
Proof. by destruct p. Qed.

Lemma incs_left_all_done (ts : list (prog unit)) (lefts : list nat) :
  Forall2 incs_left ts lefts → Forall done_prog ts → sum_list lefts = 0%nat.
Proof.
  induction 1 as [|p m ts' lefts' Hpm _ IH]; [done|].
  intros [Hp Hdone]%Forall_cons. simpl.
  rewrite (incs_left_done p m Hp Hpm). by apply IH.
Qed.

(** ** Goroutines run to their end *)

Lemma defer_Unlock_Ret {A : Type} (a : A) :
  defer mutex_Unlock (Ret a) = Unlock (Ret a).
Proof. reflexivity. Qed.

(** With an obliging outside, the goroutine that holds the mutex can run
    to its end, on its own, and gives the mutex back. *)
Lemma finish_inside (O : outside) (t0 : Time) (q : prog unit)
    (ts : list (prog unit)) (s : shared) (i : nat) :
  obliging O → lockfree q →
  ts !! i = Some (defer mutex_Unlock q) → sh_locked s = true →
  ∃ p' s', rtc (pool_step O) (ts, s) (<[i := p']> ts, s') ∧
    done_prog p' ∧ sh_locked s' = false.
Proof.
  intros [Hans Hrecv]. revert ts s.
  assert (∀ (ts : list (prog unit)) (s s1 : shared) (p1 k : prog unit),
    ts !! i = Some p1 → thread_step O i p1 s (defer mutex_Unlock k) s1 →
    (∃ p' s', rtc (pool_step O) (<[i := defer mutex_Unlock k]> ts, s1)
                (<[i := p']> (<[i := defer mutex_Unlock k]> ts), s') ∧
        done_prog p' ∧ sh_locked s' = false) →
    ∃ p' s', rtc (pool_step O) (ts, s) (<[i := p']> ts, s') ∧
      done_prog p' ∧ sh_locked s' = false) as Hgo.
  { intros ts s s1 p1 k Hi Hstep (p' & s' & Hrtc & Hd & Hl).
    exists p', s'. split; [|done].
    eapply rtc_l; [by eapply pool_step_at|].
    by rewrite list_insert_insert_eq in Hrtc. }
  induction q as [a|msg|k IH|k IH|k IH|k IH|input k IH|msg k IH|m k IH];
    intros ts s Hq Hi Hs; simpl in Hq; try done.
  - exists (Ret a), {| sh_counter := sh_counter s; sh_locked := false;
                       sh_trace := sh_trace s ++ [(i, EvUnlock)] |}.
    split; [|done]. apply rtc_once. eapply pool_step_at; [done|].
    by apply step_Unlock.
  - exists (Panic msg), {| sh_counter := sh_counter s; sh_locked := false;
                           sh_trace := sh_trace s ++ [(i, EvUnlock)] |}.
    split; [|done]. apply rtc_once. eapply pool_step_at; [done|].
    by apply step_Unlock.
  - eapply (Hgo ts s _ _ k Hi); [apply step_Inc|].
    apply IH; [done| |done].
    apply list_lookup_insert_eq. by eapply lookup_lt_Some.
  - eapply (Hgo ts s _ _ (k t0) Hi);
      [exact (step_Now O i (λ t, defer mutex_Unlock (k t)) s t0)|].
    apply (IH t0); [done| |done].
    apply list_lookup_insert_eq. by eapply lookup_lt_Some.
  - destruct (Hans (sh_trace s) input) as [r Hr].
    eapply (Hgo ts s _ _ (k r) Hi);
      [exact (step_GetCostAndUsage O i input
                (λ r, defer mutex_Unlock (k r)) s r Hr)|].
    apply (IH r); [done| |done].
    apply list_lookup_insert_eq. by eapply lookup_lt_Some.
  - eapply (Hgo ts s _ _ k Hi); [apply step_Errorf|].
    apply IH; [done| |done].
    apply list_lookup_insert_eq. by eapply lookup_lt_Some.
  - eapply (Hgo ts s _ _ k Hi); [by apply step_Send|].
    apply IH; [done| |done].
    apply list_lookup_insert_eq. by eapply lookup_lt_Some.
Qed.

(** So can a goroutine that has not started, once the mutex is free. *)
Lemma finish_waiting (O : outside) (t0 : Time) (e : Exporter)
    (ts : list (prog unit)) (s : shared) (i : nat) :
  obliging O → lockfree (Exporter_fetch e) →
  ts !! i = Some (Collect e) → sh_locked s = false →
  ∃ p' s', rtc (pool_step O) (ts, s) (<[i := p']> ts, s') ∧
    done_prog p' ∧ sh_locked s' = false.
Proof.
  intros HO Hlf Hi Hs. rewrite Collect_unfold in Hi.
  pose proof (lockfree_Collect_body e Hlf) as Hbody. revert Hi Hbody.
  generalize (up ← scrape e;
              m ← MustNewConstMetric awsBillingUp GaugeValue up [];
              send m;;
              send (counterMetric (Exporter_totalScrapes e))).
  intros q Hi Hq.
  destruct (finish_inside O t0 q (<[i := defer mutex_Unlock q]> ts)
              {| sh_counter := sh_counter s; sh_locked := true;
                 sh_trace := sh_trace s ++ [(i, EvLock)] |} i HO Hq)
    as (p' & s' & Hrtc & Hd & Hl); [|done|].
  { apply list_lookup_insert_eq. by eapply lookup_lt_Some. }
  exists p', s'. split; [|done].
  eapply rtc_l; [eapply pool_step_at; [done|by apply step_Lock]|].
  by rewrite list_insert_insert_eq in Hrtc.
Qed.

(** One after the other, all of them. *)
Lemma finish_all (O : outside) (t0 : Time) (e : Exporter)
    (pre post : list (prog unit)) (s : shared) :
  obliging O → lockfree (Exporter_fetch e) →
  Forall done_prog pre → Forall (λ p, waiting e p ∨ done_prog p) post →
  sh_locked s = false →
  ∃ ts' s', rtc (pool_step O) (pre ++ post, s) (ts', s') ∧
    Forall done_prog ts' ∧ sh_locked s' = false.
Proof.
  intros HO Hlf. revert pre s.
  induction post as [|p post IH]; intros pre s Hpre Hpost Hs.
  - exists pre, s. by rewrite app_nil_r.
  - apply Forall_cons in Hpost as [[Hp|Hp] Hpost].
    + unfold waiting in Hp. subst p.
      destruct (finish_waiting O t0 e (pre ++ Collect e :: post) s
                  (length pre) HO Hlf) as (p' & s' & Hrtc & Hd & Hl);
        [by apply list_lookup_middle|done|].
      rewrite insert_app_r_alt, Nat.sub_diag in Hrtc by done.
      cbn [insert list_insert] in Hrtc.
      destruct (IH (pre ++ [p']) s') as (ts' & s'' & Hrtc' & Hd' & Hl');
        [apply Forall_app; by repeat constructor|done..|].
      rewrite <- app_assoc in Hrtc'. exists ts', s''.
      split; [by etrans|done].
    + destruct (IH (pre ++ [p]) s) as (ts' & s' & Hrtc' & Hd' & Hl');
        [apply Forall_app; by repeat constructor|done..|].
      rewrite <- app_assoc in Hrtc'. by exists ts', s'.
Qed.

(** From every state the goroutines can reach, an obliging outside lets
    them all run to their end. *)
Lemma pool_can_finish (O : outside) (t0 : Time) (e : Exporter) (c : N)
    (ts : list (prog unit)) (s : shared) :
  obliging O → lockfree (Exporter_fetch e) →
  pool_inv e c (ts, s) →
  ∃ ts' s', rtc (pool_step O) (ts, s) (ts', s') ∧ Forall done_prog ts'.
Proof.
  intros HO Hlf Hinv.
  assert (∀ ts1 s1, pool_inv e c (ts1, s1) → sh_locked s1 = false →
            ∃ ts' s', rtc (pool_step O) (ts1, s1) (ts', s') ∧
              Forall done_prog ts') as Hfree.
  { intros ts1 s1 (Hok & Hin & _) Hl. cbn [fst snd] in *.
    destruct (finish_all O t0 e [] ts1 s1 HO Hlf) as (ts' & s' & ? & ? & _);
      [done| |done|by exists ts', s'].
    rewrite Forall_lookup in Hok. apply Forall_lookup. intros i p Hi.
    destruct (Hok i p Hi) as [?|[Hp|?]]; auto.
    destruct (Hin i p Hi Hp) as [Hl' _]. congruence. }
  destruct (sh_locked s) eqn:Hl; [|by apply Hfree].
  pose proof Hinv as (_ & _ & Hheld & _). cbn [fst snd] in *.
  destruct (Hheld Hl) as (i & p & Hi & (q & -> & Hq)).
  destruct (finish_inside O t0 q ts s i HO Hq Hi Hl)
    as (p' & s' & Hrtc & _ & Hl').
  destruct (Hfree (<[i := p']> ts) s') as (ts' & s'' & Hrtc' & Hd);
    [by eapply pool_inv_rtc|done|].
  exists ts', s''. split; [by etrans|done].
Qed.

(** Once all goroutines are done the mutex is free. *)
Lemma pool_done_unlocked (e : Exporter) (c : N) (ts : list (prog unit))
    (s : shared) :
  pool_inv e c (ts, s) → Forall done_prog ts → sh_locked s = false.
Proof.
  intros (_ & _ & Hheld & _) Hdone. cbn [fst snd] in *.
  destruct (sh_locked s) eqn:Hl; [|done].
  destruct (Hheld eq_refl) as (j & q & Hj & Hq).
  rewrite Forall_lookup in Hdone.
  by destruct (inside_not_done q Hq (Hdone j q Hj)).
Qed.

(** C9. Start any number of goroutines on [Collect e], on one exporter
    with the mutex free, and let them take steps in any order, whatever
    the clock reads, the service answers and the reader of the channel
    takes.  In every state they reach: at most one goroutine is between
    [Lock] and [Unlock]; the events of each goroutine form one unbroken
    block of the trace, and so do its sends; the counter has moved by the
    number of increments performed, none lost; and once all goroutines are
    done it has moved by exactly the number of goroutines and the mutex is
    free.  When the service answers every call and the reader takes every
    sample, the goroutines can always run on to that end from where they
    are: the mutex is given back, also by a scrape that panics, and those
    that waited take their turn. *)
Theorem concurrent_Collects_run_one_at_a_time (O : outside) (t0 : Time)
    (filter : string) (ms : gmap Z Desc) (e : Exporter) (n : nat) (c : N)
    (ts : list (prog unit)) (s : shared) :
  NewExporter filter ms = Ok e →
  rtc (pool_step O)
    (replicate n (Collect e),
     {| sh_counter := c; sh_locked := false; sh_trace := [] |})
    (ts, s) →
  (∀ i j p q, ts !! i = Some p → ts !! j = Some q →
              inside p → inside q → i = j) ∧
  no_interleave (sh_trace s).*1 ∧
  no_interleave (sends_of (sh_trace s)).*1 ∧
  sh_counter s =
    (c + N.of_nat (length (base.filter (λ ie, is_inc ie.2 = true)
                             (sh_trace s))))%N ∧
  (Forall done_prog ts →
   sh_counter s = (c + N.of_nat n)%N ∧ sh_locked s = false) ∧
  (obliging O →
   ∃ ts' s', rtc (pool_step O) (ts, s) (ts', s') ∧
     Forall done_prog ts' ∧ length ts' = n ∧
     sh_counter s' = (c + N.of_nat n)%N ∧ sh_locked s' = false ∧
     no_interleave (sh_trace s').*1).
Proof.
  intros He Hsteps.
  destruct (NewExporter_fetch_plain _ _ _ He) as [Hlf Hif].
  assert (∀ ts1 s1,
    rtc (pool_step O)
      (replicate n (Collect e),
       {| sh_counter := c; sh_locked := false; sh_trace := [] |}) (ts1, s1) →
    pool_inv e c (ts1, s1) ∧ length ts1 = n ∧
    (Forall done_prog ts1 →
     sh_counter s1 = (c + N.of_nat n)%N ∧ sh_locked s1 = false)) as Hreach.
  { intros ts1 s1 Hsteps1.
    pose proof (pool_steps_length _ _ _ Hsteps1) as Hlen. simpl in Hlen.
    rewrite length_replicate in Hlen.
    pose proof (pool_inv_rtc _ e c _ _ Hlf (pool_inv_init e c n Hif) Hsteps1)
      as Hinv.
    split; [done|]. split; [done|]. intros Hdone.
    split; [|by eapply pool_done_unlocked].
    destruct Hinv as (_ & _ & _ & _ & _ & (lefts & Hlefts & Hsum) & _).
    cbn [fst snd] in *.
    pose proof (incs_left_all_done ts1 lefts Hlefts Hdone) as Hzero. lia. }
  destruct (Hreach ts s Hsteps) as (Hinv & Hlen & Hdone).
  pose proof Hinv as (_ & Hin & _ & _ & Hni & _ & Hcnt).
  cbn [fst snd] in *.
  split; [|split; [done|split; [|split; [done|split; [done|]]]]].
  - intros i j p q Hi Hj Hp Hq.
    destruct (Hin i p Hi Hp) as [_ Hlast], (Hin j q Hj Hq) as [_ Hlast'].
    congruence.
  - eapply no_interleave_sublist; [|done].
    apply fmap_sublist, sublist_filter.
  - intros HO.
    destruct (pool_can_finish O t0 e c ts s HO Hlf Hinv)
      as (ts' & s' & Hrtc & Hd).
    destruct (Hreach ts' s') as (Hinv' & Hlen' & Hdone'); [by etrans|].
    destruct (Hdone' Hd) as [Hc Hl].
    exists ts', s'. repeat split; try done.
    by destruct Hinv' as (_ & _ & _ & _ & ? & _).
Qed.

End Proofs.

(** * The theorems at concrete inputs *)

Lemma sample_exporter_built :
  NewExporter (RT := sample_runtime) "2,7" sample_metrics = Ok sample_exporter.
Proof. reflexivity. Defined.

Lemma sample_exporter_main :
  main_exporter (RT := sample_runtime) "2,7" = Ok sample_exporter.
Proof. by vm_compute. Defined.


Lemma sample_ParseFloat_12_34 :
  ParseFloat (Runtime := sample_runtime) "12.34" 64 = Some float64_12_34.
Proof. by vm_compute. Defined.

Lemma sample_world_unlocked : locked sample_world = false.
Proof. reflexivity. Defined.

Lemma sample_fetch_fails :
  (run (sample_env (Err "throttled")) (Exporter_fetch sample_exporter)
     (entered sample_world)).2 = Returned (Err "throttled").
Proof. by vm_compute. Defined.

Lemma sample_fetch_succeeds (response : GetCostAndUsageOutput) :
  (run (sample_env (Ok response)) (Exporter_fetch sample_exporter)
     (entered sample_world)).2 = Returned (Ok response).
Proof. reflexivity. Defined.

(** C2 at a failing fetch: the counter goes from 41 to 42. *)
Lemma Collect_counts_once_before_fetch_witness :
  NewExporter (RT := sample_runtime) "2,7" sample_metrics = Ok sample_exporter ∧
  locked sample_world = false ∧
  ∃ t1 t2 input r rest,
    (run (sample_env (Err "throttled")) (Collect sample_exporter)
       sample_world).1.1 =
      (EvLock :: EvInc :: EvNow t1 :: EvNow t2 :: EvCall input r :: rest) ∧
    (EvInc ∉ rest) ∧
    counter (run (sample_env (Err "throttled")) (Collect sample_exporter)
               sample_world).1.2 = (counter sample_world + 1)%N ∧
    (run (sample_env (Err "throttled")) (Collect sample_exporter)
       sample_world).2 ≠ Blocked.
Proof.
  split; [exact sample_exporter_built|].
  split; [exact sample_world_unlocked|].
  exact (Collect_counts_once_before_fetch "2,7" sample_metrics sample_exporter
           (sample_env (Err "throttled")) sample_world
           sample_exporter_built sample_world_unlocked).
Defined.

(** C3 when the service answers with the error "throttled". *)
Lemma Collect_on_fetch_error_witness :
  NewExporter (RT := sample_runtime) "2,7" sample_metrics = Ok sample_exporter ∧
  locked sample_world = false ∧
  (run (sample_env (Err "throttled")) (Exporter_fetch sample_exporter)
     (entered sample_world)).2 = Returned (Err "throttled") ∧
  (run (sample_env (Err "throttled")) (Collect sample_exporter)
     sample_world).2 = Returned tt ∧
  sent (run (sample_env (Err "throttled")) (Collect sample_exporter)
          sample_world).1.1 =
    [constMetric awsBillingUp GaugeValue float64_0 [];
     counterMetric (Exporter_totalScrapes sample_exporter)].
Proof.
  split; [exact sample_exporter_built|].
  split; [exact sample_world_unlocked|].
  split; [exact sample_fetch_fails|].
  destruct (Collect_on_fetch_error "2,7" sample_metrics sample_exporter
              (sample_env (Err "throttled")) sample_world "throttled"
              sample_exporter_built sample_world_unlocked sample_fetch_fails)
    as (Hret & Hsent & _).
  split; [exact Hret|exact Hsent].
Defined.

Lemma sample_metrics_keys (k : Z) (d : Desc) :
  sample_metrics !! k = Some d → k = 2 ∨ k = 7.
Proof.
  unfold sample_metrics. rewrite lookup_insert_Some, lookup_singleton_Some.
  intros [[<- _]|[_ [<- _]]]; auto.
Qed.

Lemma blended_bucket_usable (k : Z) (d : Desc) (item : option MetricValue) :
  Exporter_prometheusMetrics sample_exporter !! k = Some d →
  ({[ "BlendedCost" := Some blended_cost ]} : gmap string (option MetricValue))
    !! AWSMetrics_at k = Some item →
  usable (RT := sample_runtime) item.
Proof.
  intros [-> | ->]%sample_metrics_keys Hitem; vm_compute in Hitem;
    [|discriminate Hitem].
  injection Hitem as <-. exists blended_cost, "12.34".
  split; [done|]. split; [done|]. intros f _. by exists "USD".
Qed.

Lemma garbled_bucket_usable (k : Z) (d : Desc) (item : option MetricValue) :
  Exporter_prometheusMetrics sample_exporter !! k = Some d →
  (<[ "BlendedCost" := Some blended_cost ]>
     {[ "UsageQuantity" := Some garbled_usage ]}
     : gmap string (option MetricValue))
    !! AWSMetrics_at k = Some item →
  usable (RT := sample_runtime) item.
Proof.
  intros [-> | ->]%sample_metrics_keys Hitem; vm_compute in Hitem;
    injection Hitem as <-.
  - exists blended_cost, "12.34".
    split; [done|]. split; [done|]. intros f _. by exists "USD".
  - exists garbled_usage, "n/a".
    split; [done|]. split; [done|]. intros f Hf. by vm_compute in Hf.
Qed.

(** C4 on the response of the specification: BlendedCost 12.34 USD in the
    first bucket, metric 2 enabled. *)
Lemma Collect_one_sample_per_priced_metric_witness :
  let d := newAwsBillingMetric "blended_cost" "This cost metric reflects the average cost of usage across the consolidated billing family." [] in
  let r := run (sample_env (Ok blended_response)) (Collect sample_exporter)
             sample_world in
  main_exporter (RT := sample_runtime) "2,7" = Ok sample_exporter ∧
  Exporter_prometheusMetrics sample_exporter !! 2 = Some d ∧
  (∃ bucket rest, ResultsByTime blended_response = Some bucket :: rest ∧
     Total bucket !! AWSMetrics_at 2 = Some (Some blended_cost) ∧
     ∀ k' d' item, Exporter_prometheusMetrics sample_exporter !! k' = Some d' →
       Total bucket !! AWSMetrics_at k' = Some item →
       usable (RT := sample_runtime) item) ∧
  fqName d = "aws_billing_server_blended_cost" ∧
  r.2 = Returned tt ∧
  base.filter (λ m, Metric_desc m = d) (sent r.1.1) =
    [constMetric d GaugeValue float64_12_34 [AWSMetrics_at 2; "USD"]] ∧
  AWSMetrics_at 2 = "BlendedCost".
Proof.
  intros d r.
  assert (Exporter_prometheusMetrics sample_exporter !! 2 = Some d) as Hd
    by (by vm_compute).
  assert (ResultsByTime blended_response =
            Some {| Total := {[ "BlendedCost" := Some blended_cost ]} |} :: [])
    as Hb by reflexivity.
  assert (Total {| Total := {[ "BlendedCost" := Some blended_cost ]} |}
            !! AWSMetrics_at 2 = Some (Some blended_cost)) as Hcost
    by (by vm_compute).
  destruct (Collect_one_sample_per_priced_metric "2,7"
              sample_exporter (sample_env (Ok blended_response)) sample_world
              blended_response _ _ 2 d blended_cost "12.34" "USD"
              float64_12_34 sample_exporter_main
              sample_world_unlocked (sample_fetch_succeeds blended_response)
              Hb blended_bucket_usable Hd Hcost eq_refl
              sample_ParseFloat_12_34 eq_refl)
    as (Hret & Hone & _ & Hname).
  destruct (Hname eq_refl) as (Hfq & _ & Haws).
  split; [exact sample_exporter_main|]. split; [exact Hd|].
  split; [exists {| Total := {[ "BlendedCost" := Some blended_cost ]} |}, [];
          split; [exact Hb|split; [exact Hcost|exact blended_bucket_usable]]|].
  split; [exact Hfq|]. split; [exact Hret|]. split; [exact Hone|exact Haws].
Defined.

(** C5 at the filter 2,x. *)
Lemma invalid_field_fails_construction_witness :
  "2,x" ≠ "" ∧
  Exists (λ f, Atoi f = None) (Split "2,x" ",") ∧
  filterServerMetrics (RT := sample_runtime) "2,x" = Err (invalid_field "x") ∧
  NewExporter (RT := sample_runtime) "2,x" ∅ = Err (invalid_field "x").
Proof.
  assert ("2,x" ≠ "") as Hne by done.
  assert (Exists (λ f, Atoi f = None) (Split "2,x" ",")) as Hex
    by (right; left; reflexivity).
  destruct (invalid_field_fails_construction (RT := sample_runtime) "2,x"
              Hne Hex) as (f & Hin & Hnone & Hfilter & Hnew & _).
  assert (f = "x") as ->.
  { apply elem_of_cons in Hin as [->|Hin]; [discriminate Hnone|].
    by apply list_elem_of_singleton in Hin. }
  split; [exact Hne|]. split; [exact Hex|].
  split; [exact Hfilter|exact (Hnew ∅)].
Defined.

(** C6 on a response whose UsageQuantity amount is not a number. *)
Lemma Collect_skips_unparsable_amount_witness :
  let r := run (sample_env (Ok garbled_response)) (Collect sample_exporter)
             sample_world in
  main_exporter (RT := sample_runtime) "2,7" = Ok sample_exporter ∧
  (∃ bucket rest, ResultsByTime garbled_response = Some bucket :: rest ∧
     Total bucket !! "UsageQuantity" = Some (Some garbled_usage) ∧
     ∀ k' d' item, Exporter_prometheusMetrics sample_exporter !! k' = Some d' →
       Total bucket !! AWSMetrics_at k' = Some item →
       usable (RT := sample_runtime) item) ∧
  ParseFloat (Runtime := sample_runtime) "n/a" 64 = None ∧
  r.2 = Returned tt ∧
  (∀ d vt v labels, constMetric d vt v ("UsageQuantity" :: labels) ∉ sent r.1.1) ∧
  (∃ costs, sent r.1.1 =
     costs ++ [constMetric awsBillingUp GaugeValue float64_1 [];
               counterMetric (Exporter_totalScrapes sample_exporter)]).
Proof.
  intros r.
  assert (ResultsByTime garbled_response =
            Some {| Total :=
                      <[ "BlendedCost" := Some blended_cost ]>
                        {[ "UsageQuantity" := Some garbled_usage ]} |} :: [])
    as Hb by reflexivity.
  assert (Total
            {| Total :=
                 <[ "BlendedCost" := Some blended_cost ]>
                   {[ "UsageQuantity" := Some garbled_usage ]} |}
            !! "UsageQuantity" = Some (Some garbled_usage)) as Hcost
    by (by vm_compute).
  assert (ParseFloat (Runtime := sample_runtime) "n/a" 64 = None) as Hf
    by (by vm_compute).
  destruct (Collect_skips_unparsable_amount "2,7"
              sample_exporter (sample_env (Ok garbled_response)) sample_world
              garbled_response _ [] "UsageQuantity" garbled_usage "n/a"
              sample_exporter_main
              sample_world_unlocked (sample_fetch_succeeds garbled_response)
              Hb Hcost eq_refl Hf)
    as (_ & Hnone & Hgoes).
  destruct (Hgoes garbled_bucket_usable) as (Hret & _ & Hsent).
  split; [exact sample_exporter_main|].
  split; [eexists _, []; split; [exact Hb|split; [exact Hcost|
          exact garbled_bucket_usable]]|].
  split; [exact Hf|]. split; [exact Hret|].
  split; [exact Hnone|exact Hsent].
Defined.


(** C7 at the filter 2,9: 9 is no catalog id, and no error either. *)
Lemma unknown_ids_are_skipped_witness :
  "2,9" ≠ "" ∧
  Forall (λ f, is_Some (Atoi f)) (Split "2,9" ",") ∧
  ∃ e, main_exporter (RT := sample_runtime) "2,9" = Ok e ∧
    Exporter_prometheusMetrics e !! 9 = None ∧
    Exporter_fetch e = fetchHTTP ["BlendedCost"; ""].
Proof.
  assert ("2,9" ≠ "") as Hne by done.
  assert (Forall (λ f, is_Some (Atoi f)) (Split "2,9" ",")) as Hall
    by (repeat constructor; by eexists).
  destruct (unknown_ids_are_skipped (RT := sample_runtime) "2,9" Hne Hall)
    as (e & He & _ & Hfetch & Hout).
  split; [exact Hne|]. split; [exact Hall|].
  exists e. split; [exact He|]. split; [|exact Hfetch].
  apply (Hout 9). lia.
Defined.

(** One step of goroutine [i] of a pool, on the sample runtime. *)
Ltac pool_go i :=
  eapply rtc_l;
  [ eapply (pool_step_at _ _ _ i); [reflexivity|];
    first [ apply step_Lock; reflexivity
          | apply step_Unlock; reflexivity
          | apply step_Inc
          | apply (step_Now (RT := sample_runtime) _ _ _ _ (18000 : Z))
          | eapply step_GetCostAndUsage; reflexivity
          | apply step_Errorf
          | apply step_Send; exact I ]
  | cbn [insert list_insert sh_counter sh_locked sh_trace record app] ].

Lemma sample_outside_obliging :
  obliging (obliging_outside (Err "throttled")).
Proof. split; [intros tr input; by eexists|done]. Defined.

(** C9 for two goroutines and a service that answers "throttled": the
    second goroutine runs its whole scrape, then the first one does.  The
    counter goes from 41 to 43 and four samples are sent, two by two. *)
Lemma concurrent_Collects_run_one_at_a_time_witness :
  let O := obliging_outside (Err "throttled") in
  NewExporter (RT := sample_runtime) "2,7" sample_metrics = Ok sample_exporter ∧
  obliging O ∧
  ∃ s,
    rtc (pool_step O)
      (replicate 2 (Collect sample_exporter),
       {| sh_counter := 41; sh_locked := false; sh_trace := [] |})
      ([Ret tt; Ret tt], s) ∧
    length (sh_trace s) = 18%nat ∧
    length (sends_of (sh_trace s)) = 4%nat ∧
    (sends_of (sh_trace s)).*1 = [1; 1; 0; 0]%nat ∧
    no_interleave (sh_trace s).*1 ∧
    no_interleave (sends_of (sh_trace s)).*1 ∧
    sh_counter s = 43%N ∧
    sh_locked s = false ∧
    ∃ ts' s', rtc (pool_step O) ([Ret tt; Ret tt], s) (ts', s') ∧
      Forall done_prog ts' ∧ sh_counter s' = 43%N.
Proof.
  intros O.
  assert (∃ s,
    rtc (pool_step O)
      (replicate 2 (Collect sample_exporter),
       {| sh_counter := 41; sh_locked := false; sh_trace := [] |})
      ([Ret tt; Ret tt], s) ∧
    length (sh_trace s) = 18%nat ∧
    length (sends_of (sh_trace s)) = 4%nat ∧
    (sends_of (sh_trace s)).*1 = [1; 1; 0; 0]%nat)
    as (s & Hsteps & Hlen & Hsends & Hwho).
  { eexists. split.
    - cbn [replicate]. do 9 pool_go 1%nat. do 9 pool_go 0%nat.
      apply rtc_refl.
    - split; [|split]; vm_compute; reflexivity. }
  destruct (concurrent_Collects_run_one_at_a_time O (18000 : Z) "2,7"
              sample_metrics sample_exporter 2 41 [Ret tt; Ret tt] s
              sample_exporter_built Hsteps)
    as (_ & Hni & Hnis & _ & Hdone & Hlive).
  destruct Hdone as [Hc Hl]; [by repeat constructor|].
  destruct (Hlive sample_outside_obliging)
    as (ts' & s' & Hrtc & Hd' & _ & Hc' & _).
  split; [exact sample_exporter_built|].
  split; [exact sample_outside_obliging|].
  exists s. split; [exact Hsteps|]. split; [exact Hlen|].
  split; [exact Hsends|]. split; [exact Hwho|]. split; [exact Hni|].
  split; [exact Hnis|]. split; [exact Hc|]. split; [exact Hl|].
  exists ts', s'. split; [exact Hrtc|]. split; [exact Hd'|exact Hc'].
Defined.

(** C10 on a response without buckets: with metrics 2 and 7 enabled the
    scrape panics. *)
Lemma first_bucket_is_read_per_enabled_metric_witness :
  main_exporter (RT := sample_runtime) "2,7" = Ok sample_exporter ∧
  locked sample_world = false ∧
  ResultsByTime no_bucket_response = [] ∧
  Exporter_prometheusMetrics sample_exporter ≠ ∅ ∧
  (run (sample_env (Ok no_bucket_response)) (Collect sample_exporter)
     sample_world).2 =
    Panicked "runtime error: index out of range [0] with length 0" ∧
  sent (run (sample_env (Ok no_bucket_response)) (Collect sample_exporter)
          sample_world).1.1 = [] ∧
  locked (run (sample_env (Ok no_bucket_response)) (Collect sample_exporter)
            sample_world).1.2 = false.
Proof.
  assert (Exporter_prometheusMetrics sample_exporter ≠ ∅) as Hne.
  { intros Hempty.
    assert (Exporter_prometheusMetrics sample_exporter !! 7 = None) as Hnone
      by (rewrite Hempty; apply lookup_empty).
    assert (is_Some (Exporter_prometheusMetrics sample_exporter !! 7))
      as [d Hd] by (by vm_compute).
    congruence. }
  destruct (first_bucket_is_read_per_enabled_metric "2,7"
              sample_exporter (sample_env (Ok no_bucket_response)) sample_world
              no_bucket_response sample_exporter_main sample_world_unlocked
              (sample_fetch_succeeds no_bucket_response))
    as (Hpanic & _ & _ & _).
  destruct (Hpanic eq_refl Hne) as (Hp & Hs & Hl).
  split; [exact sample_exporter_main|].
  split; [exact sample_world_unlocked|].
  split; [reflexivity|]. split; [exact Hne|]. split; [exact Hp|].
  split; [exact Hs|exact Hl].
Defined.

(** * Where the specification and the code part *)

(** C7 as stated fails at the filter 9: its one field is an integer
    outside the catalog, and construction returns an exporter, with no
    metric enabled, instead of an error. *)
Lemma unknown_id_is_not_an_error :
  Forall (λ f, is_Some (Atoi f)) (Split "9" ",") ∧
  Exists (λ f, ∃ k, Atoi f = Some k ∧ ¬ (1 ≤ k ≤ 7)) (Split "9" ",") ∧
  filterServerMetrics (RT := sample_runtime) "9" = Ok ∅ ∧
  match main_exporter (RT := sample_runtime) "9" with
  | Ok e => Exporter_prometheusMetrics e = ∅
  | Err _ => False
  end.
Proof.
  split; [repeat constructor; by eexists|].
  split; [left; exists 9; split; [reflexivity|lia]|].
  split; by vm_compute.
Qed.

(** C10 as stated fails when no metric is enabled (here by the filter 9):
    the fetch succeeds with an empty bucket list, and [Collect] returns
    normally with the up gauge at 1, never reading the first bucket. *)
Lemma no_bucket_is_read_without_metrics :
  match main_exporter (RT := sample_runtime) "9" with
  | Ok e =>
      (run (sample_env (Ok no_bucket_response)) (Exporter_fetch e)
         (entered sample_world)).2 = Returned (Ok no_bucket_response) ∧
      ResultsByTime no_bucket_response = [] ∧
      (run (sample_env (Ok no_bucket_response)) (Collect e) sample_world).2
        = Returned tt ∧
      sent (run (sample_env (Ok no_bucket_response)) (Collect e)
              sample_world).1.1 =
        [constMetric awsBillingUp GaugeValue float64_1 [];
         counterMetric (Exporter_totalScrapes e)]
  | Err _ => False
  end.
Proof. by vm_compute. Qed.

(** C4 as stated fails on a response that prices BlendedCost as the
    specification has it but whose UsageQuantity item has no amount: with
    metrics 2 and 7 enabled the scrape panics on the nil pointer, and
    neither the up gauge nor the scrape counter is sent. *)
Lemma missing_amount_stops_the_scrape :
  let r := run (sample_env (Ok no_amount_response)) (Collect sample_exporter)
             sample_world in
  main_exporter (RT := sample_runtime) "2,7" = Ok sample_exporter ∧
  (run (sample_env (Ok no_amount_response)) (Exporter_fetch sample_exporter)
     (entered sample_world)).2 = Returned (Ok no_amount_response) ∧
  (∃ bucket rest, ResultsByTime no_amount_response = Some bucket :: rest ∧
     Total bucket !! AWSMetrics_at 2 = Some (Some blended_cost) ∧
     Total bucket !! AWSMetrics_at 7 =
       Some (Some {| Amount := None; Unit := Some "GB" |})) ∧
  ParseFloat (Runtime := sample_runtime) "12.34" 64 = Some float64_12_34 ∧
  r.2 = Panicked nil_dereference ∧
  (constMetric awsBillingUp GaugeValue float64_1 [] ∉ sent r.1.1) ∧
  (counterMetric (Exporter_totalScrapes sample_exporter) ∉ sent r.1.1).
Proof.
  intros r. split; [exact sample_exporter_main|]. split; [reflexivity|].
  split; [eexists _, []; split; [reflexivity|split; by vm_compute]|].
  split; [exact sample_ParseFloat_12_34|]. split; [by vm_compute|].
  split; apply (bool_decide_unpack _); by vm_compute.
Qed.

(** C6 as stated fails on a response whose UsageQuantity amount does not
    parse and whose BlendedCost item, with a parsable amount, has no
    unit: the scrape as a whole fails, on the nil pointer, and the up
    gauge and the scrape counter are not sent. *)
Lemma unparsable_amount_next_to_a_missing_unit :
  let r := run (sample_env (Ok no_unit_response)) (Collect sample_exporter)
             sample_world in
  main_exporter (RT := sample_runtime) "2,7" = Ok sample_exporter ∧
  (run (sample_env (Ok no_unit_response)) (Exporter_fetch sample_exporter)
     (entered sample_world)).2 = Returned (Ok no_unit_response) ∧
  (∃ bucket rest, ResultsByTime no_unit_response = Some bucket :: rest ∧
     Total bucket !! "UsageQuantity" = Some (Some garbled_usage) ∧
     Total bucket !! "BlendedCost" =
       Some (Some {| Amount := Some "12.34"; Unit := None |})) ∧
  ParseFloat (Runtime := sample_runtime) "n/a" 64 = None ∧
  r.2 = Panicked nil_dereference ∧
  (constMetric awsBillingUp GaugeValue float64_1 [] ∉ sent r.1.1) ∧
  (counterMetric (Exporter_totalScrapes sample_exporter) ∉ sent r.1.1).
Proof.
  intros r. split; [exact sample_exporter_main|]. split; [reflexivity|].
  split; [eexists _, []; split; [reflexivity|split; by vm_compute]|].
  split; [by vm_compute|]. split; [by vm_compute|].
  split; apply (bool_decide_unpack _); by vm_compute.
Qed.


(** C1 on the code, run: the flag set to the empty string, a response
    that prices BlendedCost, and no cost sample comes out. *)
Lemma empty_filter_drops_blended_cost :
  match main_exporter (RT := sample_runtime) "" with
  | Ok e =>
      sent (run (sample_env (Ok blended_response)) (Collect e)
              sample_world).1.1 =
        [constMetric awsBillingUp GaugeValue float64_1 [];
         counterMetric (Exporter_totalScrapes e)]
  | Err _ => False
  end.
Proof. by vm_compute. Qed.

(** * The rest of the code *)

Section More.
Context `{RT : Runtime}.

(** ** [Itoa], [Atoi], [Join] and [Split] back and forth *)

Lemma digit_pretty_N_char (x : N) :
  (x < 10)%N → digit (pretty_N_char x) = Some (Z.of_N x).
Proof.
  intros Hx.
  assert (x = 0 ∨ x = 1 ∨ x = 2 ∨ x = 3 ∨ x = 4 ∨ x = 5 ∨ x = 6 ∨ x = 7
          ∨ x = 8 ∨ x = 9)%N as Hcases by lia.
  destruct Hcases as [->|[->|[->|[->|[->|[->|[->|[->|[->| ->]]]]]]]]]; done.
Qed.

Lemma digits_pretty_N_go (x : N) (s : string) :
  (0 < x)%N → digits (pretty_N_go x s) 0 = digits s (Z.of_N x).
Proof.
  revert s. induction (N.lt_wf_0 x) as [x _ IH]; intros s Hx.
  rewrite pretty_N_go_step by done.
  destruct (N.eq_0_gt_0_cases (x `div` 10)) as [Hz|Hpos].
  - rewrite Hz, pretty_N_go_0. simpl.
    rewrite digit_pretty_N_char by (apply N.mod_lt; lia). simpl.
    f_equal. pose proof (N.div_mod x 10). lia.
  - rewrite IH; [|apply N.div_lt; lia|done]. simpl.
    rewrite digit_pretty_N_char by (apply N.mod_lt; lia). simpl.
    f_equal. pose proof (N.div_mod x 10). lia.
Qed.

(** The decimal form of a positive number starts with a digit. *)
Lemma pretty_N_go_head (x : N) (s : string) :
  (0 < x)%N →
  ∃ d rest, pretty_N_go x s = String (pretty_N_char d) rest ∧ (d < 10)%N.
Proof.
  revert s. induction (N.lt_wf_0 x) as [x _ IH]; intros s Hx.
  rewrite pretty_N_go_step by done.
  destruct (N.eq_0_gt_0_cases (x `div` 10)) as [Hz|Hpos].
  - rewrite Hz, pretty_N_go_0. eexists _, _. split; [done|].
    apply N.mod_lt. lia.
  - apply IH; [apply N.div_lt; lia|done].
Qed.

Lemma pretty_N_char_not_sign (d : N) :
  pretty_N_char d ≠ "-"%char ∧ pretty_N_char d ≠ "+"%char ∧
  pretty_N_char d ≠ ","%char.
Proof. unfold pretty_N_char. repeat case_match; done. Qed.

Lemma Atoi_pretty_pos (p : positive) :
  Atoi (pretty_N_go (N.pos p) "") =
    if (Z.pos p <=? maxInt) then Some (Z.pos p) else None.
Proof.
  destruct (pretty_N_go_head (N.pos p) "") as (d & rest & Heq & Hd); [lia|].
  destruct (pretty_N_char_not_sign d) as (Hm & Hp & _).
  pose proof (digits_pretty_N_go (N.pos p) "" ltac:(lia)) as Hdigits.
  rewrite Heq in Hdigits |- *. unfold Atoi.
  assert (match String (pretty_N_char d) rest with
          | String "-" r => (true, r)
          | String "+" r => (false, r)
          | _ => (false, String (pretty_N_char d) rest)
          end = (false, String (pretty_N_char d) rest)) as ->.
  { revert Hm Hp. generalize (pretty_N_char d). intros c Hm Hp.
    destruct c as [[] [] [] [] [] [] [] []]; done. }
  rewrite Hdigits. done.
Qed.

(** [strconv.Atoi (strconv.Itoa i)] gives [i] back, for every [int]. *)
Lemma Atoi_Itoa (i : Z) : minInt ≤ i ≤ maxInt → Atoi (Itoa i) = Some i.
Proof.
  intros [Hlo Hhi]. unfold Itoa, pretty, pretty_Z.
  destruct i as [|p|p].
  - done.
  - unfold pretty, pretty_positive, pretty, pretty_N.
    rewrite decide_False by done. rewrite Atoi_pretty_pos.
    by rewrite (proj2 (Z.leb_le _ _) Hhi).
  - unfold pretty, pretty_positive, pretty, pretty_N.
    rewrite decide_False by done.
    destruct (pretty_N_go_head (N.pos p) "") as (d & rest & Heq & Hd); [lia|].
    pose proof (digits_pretty_N_go (N.pos p) "" ltac:(lia)) as Hdigits.
    change ("-" +:+ pretty_N_go (N.pos p) "")
      with (String "-" (pretty_N_go (N.pos p) "")).
    rewrite Heq in Hdigits |- *. unfold Atoi. cbv beta iota.
    rewrite Hdigits. cbn [digits mbind option_bind Z.of_N Z.opp].
    change (- Z.pos p) with (Z.neg p).
    rewrite (proj2 (Z.leb_le _ _) Hlo), (proj2 (Z.leb_le _ _) Hhi). done.
Qed.

Lemma Split_not_nil (s : string) (sep : ascii) : Split s sep ≠ [].
Proof.
  destruct s as [|c s]; simpl; [done|].
  destruct (Ascii.eqb c sep); [done|]. by destruct (Split s sep).
Qed.

Lemma Split_app_sep (a b : string) :
  Split (a +:+ String "," b) "," = Split a "," ++ Split b ",".
Proof.
  induction a as [|c a IH]; [done|].
  change (String c a +:+ String "," b) with (String c (a +:+ String "," b)).
  simpl. destruct (Ascii.eqb c ","); [by rewrite IH|].
  rewrite IH. pose proof (Split_not_nil a ",") as Hne.
  by destruct (Split a ",").
Qed.

Lemma Split_String_other (c : ascii) (s : string) :
  c ≠ ","%char → Split s "," = [s] → Split (String c s) "," = [String c s].
Proof.
  intros Hc Hs. simpl. rewrite Hs.
  by rewrite (proj2 (Ascii.eqb_neq c ",") Hc).
Qed.

Lemma Split_pretty_N_go (x : N) (s : string) :
  Split s "," = [s] → Split (pretty_N_go x s) "," = [pretty_N_go x s].
Proof.
  revert s. induction (N.lt_wf_0 x) as [x _ IH]; intros s Hs.
  destruct (N.eq_0_gt_0_cases x) as [->|Hx]; [by rewrite pretty_N_go_0|].
  rewrite pretty_N_go_step by done.
  apply IH; [apply N.div_lt; lia|].
  apply Split_String_other; [|done]. apply pretty_N_char_not_sign.
Qed.

(** The decimal form of an integer holds no comma. *)
Lemma Split_Itoa (i : Z) : Split (Itoa i) "," = [Itoa i].
Proof.
  unfold Itoa, pretty, pretty_Z. destruct i as [|p|p]; [done|..].
  - unfold pretty, pretty_positive, pretty, pretty_N.
    rewrite decide_False by done. by apply Split_pretty_N_go.
  - unfold pretty, pretty_positive, pretty, pretty_N.
    rewrite decide_False by done.
    apply (Split_String_other "-"); [done|]. by apply Split_pretty_N_go.
Qed.

Lemma Split_foldl_Join (rest : list string) (acc : string) :
  Forall (λ t, Split t "," = [t]) rest →
  Split (foldl (λ acc t, acc +:+ "," +:+ t) acc rest) "," =
    Split acc "," ++ rest.
Proof.
  revert acc. induction rest as [|t rest IH]; intros acc Hall; simpl.
  - by rewrite app_nil_r.
  - apply Forall_cons in Hall as [Ht Hall]. rewrite IH by done.
    change ("," +:+ t) with (String "," t).
    rewrite Split_app_sep, Ht. by rewrite <- app_assoc.
Qed.

(** [strings.Split (strings.Join l ",") ","] gives [l] back when [l] is
    not empty and none of its elements holds a comma. *)
Lemma Split_Join (l : list string) :
  l ≠ [] → Forall (λ t, Split t "," = [t]) l → Split (Join l ",") "," = l.
Proof.
  destruct l as [|t rest]; [done|]. intros _ [Ht Hall]%Forall_cons.
  unfold Join. by rewrite Split_foldl_Join, Ht.
Qed.

(** ** [metrics.String] *)

(** The ids [String] prints: those of the map, each once, in increasing
    order, whatever the order in which the map is visited. *)
Lemma String_keys (m : gmap Z Desc) :
  ∃ ks, metrics_String m = Join (Itoa <$> ks) "," ∧
    Sorted Z.le ks ∧ NoDup ks ∧ ∀ k, k ∈ ks ↔ is_Some (m !! k).
Proof.
  exists (merge_sort Z.le (range m).*1).
  unfold metrics_String. rewrite (foldl_snoc fst). simpl app.
  split; [done|]. split; [apply Sorted_merge_sort; apply _|].
  split.
  - rewrite merge_sort_Permutation. apply NoDup_fst_range.
  - intros k. rewrite merge_sort_Permutation, list_elem_of_fmap. split.
    + intros ([k' d] & -> & Hin). apply elem_of_range in Hin. by eexists.
    + intros [d Hd]. exists (k, d). split; [done|]. by apply elem_of_range.
Qed.

Lemma parseFields_Itoa (ks : list Z) (acc : gset Z) :
  Forall (λ k, minInt ≤ k ≤ maxInt) ks →
  parseFields (Itoa <$> ks) acc = Ok (list_to_set ks ∪ acc).
Proof.
  revert acc. induction ks as [|k ks IH]; intros acc Hall; csimpl.
  - by rewrite (left_id_L ∅ (∪)).
  - apply Forall_cons in Hall as [Hk Hall]. rewrite (Atoi_Itoa k Hk).
    rewrite IH by done. f_equal.
    by rewrite (assoc_L (∪)), (comm_L (∪) (list_to_set ks)).
Qed.

Lemma Itoa_not_empty (k : Z) : minInt ≤ k ≤ maxInt → Itoa k ≠ "".
Proof. intros Hk Heq. apply Atoi_Itoa in Hk. by rewrite Heq in Hk. Qed.

(** What [filterServerMetrics] makes of the [String] of a map: the
    catalog entries under the ids of the map. *)
Lemma filterServerMetrics_String (m : gmap Z Desc) :
  (∀ k, is_Some (m !! k) → minInt ≤ k ≤ maxInt) →
  filterServerMetrics (metrics_String m) =
    Ok (base.filter (λ kv, is_Some (m !! kv.1)) prometheusMetrics).
Proof.
  intros Hrange. destruct (String_keys m) as (ks & -> & _ & _ & Hks).
  assert (Forall (λ k, minInt ≤ k ≤ maxInt) ks) as Hall.
  { apply Forall_forall. intros k Hk. by apply Hrange, Hks. }
  destruct ks as [|k0 ks].
  - simpl. unfold filterServerMetrics. simpl. f_equal.
    apply map_eq. intros k. rewrite lookup_empty. symmetry.
    apply map_lookup_filter_None. right. intros d _ Hk. simpl in Hk.
    apply Hks in Hk. by apply elem_of_nil in Hk.
  - assert (Split (Join (Itoa <$> k0 :: ks) ",") "," = Itoa <$> k0 :: ks)
      as Hsplit.
    { apply Split_Join; [done|]. apply Forall_fmap, Forall_forall.
      intros k _. apply Split_Itoa. }
    assert (String.length (Join (Itoa <$> k0 :: ks) ",") ≠ 0%nat) as Hlen.
    { intros Hlen.
      destruct (Join (Itoa <$> k0 :: ks) ",") as [|c j]; [|done].
      injection Hsplit as Hk0 _.
      apply Forall_cons in Hall as [Hk Hall].
      by apply (Itoa_not_empty k0). }
    destruct (filterServerMetrics _) as [ms|err] eqn:Hms.
    + apply filterServerMetrics_Ok in Hms. rewrite decide_False in Hms by done.
      destruct Hms as (selected & Hsel & ->).
      rewrite Hsplit, parseFields_Itoa in Hsel by done.
      injection Hsel as <-. f_equal. apply map_filter_ext.
      intros k d _. simpl. rewrite <- Hks.
      change ({[k0]} ∪ list_to_set ks : gset Z) with (list_to_set (C := gset Z) (k0 :: ks)).
      by rewrite (right_id_L ∅ (∪)), elem_of_list_to_set.
    + unfold filterServerMetrics in Hms. rewrite decide_False in Hms by done.
      by rewrite Hsplit, parseFields_Itoa in Hms by done.
Qed.

(** X1. Round trip of the flag: for every selection of catalog metrics,
    [filterServerMetrics] reads the [String] of the selection back into
    that very selection; the empty selection prints as the empty string
    and reads back empty. *)
Theorem filterServerMetrics_String_round_trip (m : gmap Z Desc) :
  m ⊆ prometheusMetrics →
  filterServerMetrics (metrics_String m) = Ok m.
Proof.
  intros Hsub. rewrite filterServerMetrics_String.
  - f_equal. apply map_eq. intros k. apply option_eq. intros d.
    rewrite map_lookup_filter_Some. simpl. split.
    + intros [Hd [d' Hd']].
      pose proof (lookup_weaken _ _ _ _ Hd' Hsub). congruence.
    + intros Hd. split; [by eapply lookup_weaken|by eexists].
  - intros k [d Hd]. eapply lookup_weaken in Hd; [|done].
    apply catalog_ids in Hd. unfold minInt, maxInt. lia.
Qed.

(** X2. [String] does not depend on the order in which Go visits the map:
    its fields are the ids of the map in increasing order, each once, and
    [strconv.Atoi] reads each field back into its id. *)
Theorem String_lists_ids_in_increasing_order (m : gmap Z Desc) :
  m ≠ ∅ →
  (∀ k, is_Some (m !! k) → minInt ≤ k ≤ maxInt) →
  ∃ ks, Atoi <$> Split (metrics_String m) "," = Some <$> ks ∧
    Sorted Z.le ks ∧ NoDup ks ∧ ∀ k, k ∈ ks ↔ is_Some (m !! k).
Proof.
  intros Hne Hrange. destruct (String_keys m) as (ks & -> & Hs & Hnd & Hks).
  exists ks. split; [|done].
  assert (ks ≠ []) as Hks_ne.
  { intros ->. apply Hne. apply map_eq. intros k. rewrite lookup_empty.
    apply eq_None_not_Some. intros Hk. apply Hks in Hk.
    by apply elem_of_nil in Hk. }
  rewrite Split_Join.
  - rewrite <- list_fmap_compose. apply list_fmap_ext.
    intros i k Hik. simpl. apply Atoi_Itoa, Hrange, Hks.
    by eapply list_elem_of_lookup_2.
  - by destruct ks.
  - apply Forall_fmap, Forall_forall. intros k _. apply Split_Itoa.
Qed.

(** ** The two readers of the flag *)

Lemma fields_valid_or_not (fields : list string) :
  Forall (λ f, is_Some (Atoi f)) fields ∨ Exists (λ f, Atoi f = None) fields.
Proof.
  induction fields as [|f fields [IH|IH]].
  - left. constructor.
  - destruct (Atoi f) as [k|] eqn:Hf.
    + left. constructor; [by rewrite Hf|done].
    + right. by left.
  - right. by right.
Qed.

(** X3. [filterServerMetrics] and [NewExporter] accept the same flag
    values and reject the others with the same error: once the first has
    returned a map, the second returns an exporter, so the second fatal
    check of [main] never fires. *)
Theorem readers_of_the_flag_agree (filter : string) (ms : gmap Z Desc) :
  (∃ m e, filterServerMetrics filter = Ok m ∧ NewExporter filter ms = Ok e) ∨
  (∃ err, filterServerMetrics filter = Err err ∧
          NewExporter filter ms = Err err).
Proof.
  unfold filterServerMetrics, NewExporter.
  destruct (decide (String.length filter = 0%nat)) as [Hlen|Hlen].
  - left. by eexists _, _.
  - destruct (fields_valid_or_not (Split filter ",")) as [Hall|Hex].
    + left. destruct (parseFields_valid _ ∅ Hall) as [selected ->].
      rewrite (selectFields_valid _ [] Hall). by eexists _, _.
    + right. destruct (fields_invalid _ ∅ [] Hex) as (f & _ & _ & -> & ->).
      by eexists.
Qed.

Lemma AWSMetrics_ids (k : Z) (name : string) :
  AWSMetrics !! k = Some name → name ≠ "" ∧ is_Some (prometheusMetrics !! k).
Proof.
  intros Hk.
  assert (Forall (λ kn : Z * string,
            kn.2 ≠ "" ∧ is_Some (prometheusMetrics !! kn.1))
            (map_to_list AWSMetrics)) as Hall
    by (apply (bool_decide_unpack _); by vm_compute).
  rewrite Forall_forall in Hall.
  by apply (Hall (k, name)), elem_of_map_to_list.
Qed.

Lemma catalog_has_AWS_name (k : Z) (d : Desc) :
  prometheusMetrics !! k = Some d → is_Some (AWSMetrics !! k).
Proof.
  apply (catalog_Forall (λ kd, is_Some (AWSMetrics !! kd.1))).
  apply (bool_decide_unpack _). by vm_compute.
Qed.

(** What [main] builds from a flag value that is not empty. *)
Lemma main_exporter_fields (filter : string) (e : Exporter) :
  filter ≠ "" →
  main_exporter filter = Ok e →
  Forall (λ f, is_Some (Atoi f)) (Split filter ",") ∧
  Exporter_fetch e =
    fetchHTTP ((λ f, AWSMetrics_at (default 0 (Atoi f))) <$> Split filter ",") ∧
  ∀ k d, Exporter_prometheusMetrics e !! k = Some d ↔
         prometheusMetrics !! k = Some d ∧
         ∃ f, f ∈ Split filter "," ∧ Atoi f = Some k.
Proof.
  intros Hne He.
  assert (String.length filter ≠ 0%nat) as Hlen by (by destruct filter).
  unfold main_exporter in He.
  destruct (filterServerMetrics filter) as [ms|err] eqn:Hms; simpl in He;
    [|done].
  apply filterServerMetrics_Ok in Hms. rewrite decide_False in Hms by done.
  destruct Hms as (selected & Hsel & ->).
  destruct (parseFields_Ok _ _ _ Hsel) as [Hall Hin].
  unfold NewExporter in He. rewrite decide_False in He by done.
  rewrite (selectFields_valid _ [] Hall) in He. simpl in He.
  injection He as <-. simpl. split; [done|]. split; [done|].
  intros k d. rewrite map_lookup_filter_Some. simpl. rewrite Hin. split.
  - intros [Hd [Hk|Hf]]; [by apply not_elem_of_empty in Hk|done].
  - intros [Hd Hf]; auto.
Qed.

(** X4. The exporter [main] builds asks the billing service for the AWS
    name of every metric it has enabled; and when the flag is not empty
    it asks for nothing else, apart from the empty names that stand for
    ids outside the catalog. *)
Theorem request_names_cover_enabled_metrics (filter : string) (e : Exporter) :
  main_exporter filter = Ok e →
  ∃ selected, Exporter_fetch e = fetchHTTP selected ∧
    (∀ k d, Exporter_prometheusMetrics e !! k = Some d →
            AWSMetrics_at k ∈ selected ∧ AWSMetrics_at k ≠ "") ∧
    (filter ≠ "" → ∀ name, name ∈ selected → name ≠ "" →
       ∃ k d, Exporter_prometheusMetrics e !! k = Some d ∧
              AWSMetrics_at k = name).
Proof.
  intros He. destruct (decide (filter = "")) as [->|Hne].
  - destruct (main_exporter_Ok _ _ He) as [Hnew _].
    destruct (NewExporter_Ok _ _ _ Hnew) as (_ & _ & selected & Hfetch & _).
    exists selected. split; [done|]. split; [|done].
    intros k d Hd. unfold main_exporter in He. simpl in He.
    injection He as <-. simpl in Hd. by rewrite lookup_empty in Hd.
  - destruct (main_exporter_fields _ _ Hne He) as (Hall & Hfetch & Hen).
    eexists. split; [done|]. split.
    + intros k d [Hd (f & Hf & Hk)]%Hen. split.
      * apply list_elem_of_fmap. exists f. split; [|done]. by rewrite Hk.
      * destruct (catalog_has_AWS_name k d Hd) as [name Hname].
        unfold AWSMetrics_at. rewrite Hname. simpl.
        by apply (AWSMetrics_ids k).
    + intros _ name (f & -> & Hf)%list_elem_of_fmap Hname.
      rewrite Forall_forall in Hall. destruct (Hall f Hf) as [k Hk].
      rewrite Hk in Hname |- *. simpl in *. unfold AWSMetrics_at in *.
      destruct (AWSMetrics !! k) as [name|] eqn:Hk'; [|done].
      destruct (AWSMetrics_ids k name Hk') as [_ [d Hd]].
      exists k, d. split; [|by rewrite Hk'].
      apply Hen. split; [done|]. by exists f.
Qed.

Lemma parseFields_app (l1 l2 : list string) (acc : gset Z) :
  parseFields (l1 ++ l2) acc = acc' ← parseFields l1 acc; parseFields l2 acc'.
Proof.
  revert acc. induction l1 as [|f l1 IH]; intros acc; simpl; [done|].
  destruct (Atoi f); [apply IH|done].
Qed.

Lemma parseFields_acc (fields : list string) (acc selected : gset Z) :
  parseFields fields ∅ = Ok selected →
  parseFields fields acc = Ok (selected ∪ acc).
Proof.
  intros Hp. destruct (parseFields_Ok _ _ _ Hp) as [Hall Hsel].
  destruct (parseFields_valid _ acc Hall) as [selected' Hp'].
  rewrite Hp'. f_equal. destruct (parseFields_Ok _ _ _ Hp') as [_ Hsel'].
  apply set_eq. intros k. rewrite Hsel', elem_of_union, Hsel.
  rewrite elem_of_empty. tauto.
Qed.

(** X5. Joining two flag values with a comma enables the metrics of
    both: when [filterServerMetrics] accepts two non-empty filters, it
    accepts their concatenation with a comma, and returns the union of
    the two maps.  So neither the order nor the repetition of ids in the
    flag matters. *)
Theorem filterServerMetrics_of_joined_filters (a b : string)
    (ma mb : gmap Z Desc) :
  a ≠ "" → b ≠ "" →
  filterServerMetrics a = Ok ma →
  filterServerMetrics b = Ok mb →
  filterServerMetrics (a +:+ "," +:+ b) = Ok (ma ∪ mb).
Proof.
  intros Ha Hb Hma Hmb.
  assert (String.length a ≠ 0%nat) as Hla by (by destruct a).
  assert (String.length b ≠ 0%nat) as Hlb by (by destruct b).
  apply filterServerMetrics_Ok in Hma, Hmb.
  rewrite decide_False in Hma by done. rewrite decide_False in Hmb by done.
  destruct Hma as (sa & Hsa & ->), Hmb as (sb & Hsb & ->).
  assert (String.length (a +:+ "," +:+ b) ≠ 0%nat) as Hlab
    by (by destruct a).
  destruct (filterServerMetrics (a +:+ "," +:+ b)) as [m|err] eqn:Hm.
  - apply filterServerMetrics_Ok in Hm. rewrite decide_False in Hm by done.
    destruct Hm as (sab & Hsab & ->).
    change ("," +:+ b) with (String "," b) in Hsab.
    rewrite Split_app_sep, parseFields_app, Hsa in Hsab. simpl in Hsab.
    rewrite (parseFields_acc _ _ _ Hsb) in Hsab. injection Hsab as <-.
    f_equal. apply map_eq. intros k. apply option_eq. intros d.
    rewrite lookup_union_Some_raw, !map_lookup_filter_Some,
      map_lookup_filter_None. simpl. rewrite elem_of_union. split.
    + intros [Hd [Hk|Hk]].
      * destruct (decide (k ∈ sa)); [by left|]. right. split; [|done].
        right. intros d' Hd'. simpl. done.
      * by left.
    + intros [[Hd Hk]|[_ [Hd Hk]]]; auto.
  - unfold filterServerMetrics in Hm. rewrite decide_False in Hm by done.
    change ("," +:+ b) with (String "," b) in Hm.
    rewrite Split_app_sep, parseFields_app, Hsa in Hm. simpl in Hm.
    by rewrite (parseFields_acc _ _ _ Hsb) in Hm.
Qed.

(** ** Counting the operations of a program *)

Lemma ops_left_bind {A B : Type} (o : op) (p : prog A) (f : A → prog B)
    (n : nat) :
  ops_left o p n → (∀ a, ops_left o (f a) 0) → ops_left o (p ≫= f) n.
Proof.
  unfold mbind, prog_mbind. intros Hp Hf. revert n Hp.
  induction p as [a|msg|k IH|k IH|k IH|k IH|input k IH|msg k IH|s k IH];
    intros n Hp; simpl in *; subst; auto;
    unfold tick in *; case_decide; try destruct n; auto.
Qed.

Lemma ops_left_for_each {X : Type} (o : op) (l : list X)
    (body : X → prog unit) :
  (∀ x, ops_left o (body x) 0) → ops_left o (for_each l body) 0.
Proof.
  intros Hb. induction l as [|x l IH]; simpl; [done|].
  apply ops_left_bind; auto.
Qed.

Lemma ops_left_MustNewConstMetric (o : op) d vt v lvs :
  ops_left o (MustNewConstMetric d vt v lvs) 0.
Proof. unfold MustNewConstMetric. by destruct (NewConstMetric _ _ _ _). Qed.

Lemma ops_left_deref {X : Type} (o : op) (p : option X) :
  ops_left o (deref p) 0.
Proof. by destruct p. Qed.

Lemma ops_left_index0 {X : Type} (o : op) (l : list X) :
  ops_left o (index0 l) 0.
Proof. by destruct l. Qed.

(** The events of a program that stays away from the mutex show each of
    its operations. *)
Lemma run_ops_left {A : Type} (o : op) (E : env) (p : prog A) (n : nat)
    (w : world) :
  lockfree p → ops_left o p n → count_op o (run E p w).1.1 = n.
Proof.
  unfold count_op. revert n w.
  induction p as [a|msg|k IH|k IH|k IH|k IH|input k IH|msg k IH|m k IH];
    intros n w Hl Hn; simpl in *; try done;
    unfold tick in Hn; case_decide as Ho; subst;
    try (destruct n as [|n]; [done|]);
    rewrite ?filter_cons_True, ?filter_cons_False by (simpl; congruence);
    simpl; try f_equal; eauto.
Qed.

Lemma run_lockfree_outcome {A : Type} (E : env) (p : prog A) (w : world) :
  lockfree p →
  locked (run E p w).1.2 = locked w ∧ (run E p w).2 ≠ Blocked.
Proof.
  revert w.
  induction p as [a|msg|k IH|k IH|k IH|k IH|input k IH|msg k IH|m k IH];
    intros w Hl; simpl in *; try done.
  - match goal with |- context [run E k ?w'] => by destruct (IH w' Hl) end.
  - match goal with |- context [run E (k ?t) ?w'] =>
      by destruct (IH t w' (Hl t)) end.
  - match goal with |- context [run E (k ?r) ?w'] =>
      by destruct (IH r w' (Hl r)) end.
  - by destruct (IH w Hl).
  - by destruct (IH w Hl).
Qed.

Lemma count_op_cons (o : op) (ev : event) (evs : list event) :
  count_op o (ev :: evs) =
    ((if decide (op_of ev = o) then 1 else 0) + count_op o evs)%nat.
Proof.
  unfold count_op. case_decide.
  - by rewrite filter_cons_True.
  - by rewrite filter_cons_False.
Qed.

Lemma count_op_app (o : op) (evs1 evs2 : list event) :
  count_op o (evs1 ++ evs2) = (count_op o evs1 + count_op o evs2)%nat.
Proof. unfold count_op. by rewrite filter_app, length_app. Qed.

Ltac count_step IH :=
  unfold emit; cbn [fst snd]; rewrite !count_op_cons; cbn [op_of];
  destruct IH as (Hc & Hn & Hk); rewrite Hc, Hn, Hk;
  cbn [counter clock_reads client_calls];
  repeat case_decide; try done; repeat split; lia.

(** The world keeps count: of the scrapes, of the clock readings and of
    the calls to the service. *)
Lemma run_world_counts {A : Type} (E : env) (p : prog A) (w : world) :
  counter (run E p w).1.2
    = (counter w + N.of_nat (count_op OInc (run E p w).1.1))%N ∧
  clock_reads (run E p w).1.2
    = (clock_reads w + count_op ONow (run E p w).1.1)%nat ∧
  client_calls (run E p w).1.2
    = (client_calls w + count_op OCall (run E p w).1.1)%nat.
Proof.
  revert w.
  induction p as [a|msg|k IH|k IH|k IH|k IH|input k IH|msg k IH|m k IH];
    intros w; cbn [run]; cbv zeta.
  - repeat split; cbn; lia.
  - repeat split; cbn; lia.
  - destruct (locked w); [repeat split; cbn; lia|].
    match goal with |- context [run E k ?w'] => count_step (IH w') end.
  - destruct (locked w); [|repeat split; cbn; lia].
    match goal with |- context [run E k ?w'] => count_step (IH w') end.
  - match goal with |- context [run E k ?w'] => count_step (IH w') end.
  - match goal with |- context [run E (k ?t) ?w'] => count_step (IH t w') end.
  - match goal with |- context [run E (k ?r) ?w'] => count_step (IH r w') end.
  - count_step (IH w).
  - count_step (IH w).
Qed.

(** ** What [scrape] does after the fetch *)

(** After the fetch [scrape] only sends samples, apart from the one log
    line of a failed fetch. *)
Lemma ops_left_metric_body (o : op) (response : GetCostAndUsageOutput)
    (km : Z * Desc) :
  o ≠ OSend → ops_left o (metric_body response km) 0.
Proof.
  intros Ho. unfold metric_body.
  apply ops_left_bind; [apply ops_left_index0|]. intros bucket.
  apply ops_left_bind; [apply ops_left_deref|]. intros b.
  apply ops_left_for_each. intros kc. unfold item_body.
  case_decide; [|done].
  apply ops_left_bind; [apply ops_left_deref|]. intros cost.
  apply ops_left_bind; [apply ops_left_deref|]. intros amount.
  destruct (ParseFloat _ _); [|done].
  apply ops_left_bind; [apply ops_left_deref|]. intros u.
  apply ops_left_bind; [apply ops_left_MustNewConstMetric|].
  intros m. simpl. unfold tick. by rewrite decide_False by congruence.
Qed.

Lemma ops_left_scrape_after_fetch (o : op) (e : Exporter)
    (r : result GetCostAndUsageOutput) :
  o ≠ OSend →
  ops_left o (scrape_after_fetch e r)
    (match r with
     | Err _ => if decide (o = OLog) then 1 else 0
     | Ok _ => 0
     end).
Proof.
  intros Ho. destruct r as [response|err].
  - rewrite scrape_after_fetch_Ok. apply ops_left_bind; [|done].
    apply ops_left_for_each. intros km. by apply ops_left_metric_body.
  - simpl. unfold tick. repeat case_decide; simpl; congruence.
Qed.

Lemma and_then_Returned {A B : Type} (evs : list event) (w : world) (a : A)
    (f : A → world → list event * world * outcome B) :
  and_then (evs, w, Returned a) f =
    (evs ++ (f a w).1.1, (f a w).1.2, (f a w).2).
Proof. reflexivity. Qed.

Lemma and_then_prefix {A B : Type} (pre : list event)
    (r : list event * world * outcome A)
    (f : A → world → list event * world * outcome B) :
  and_then (pre ++ r.1.1, r.1.2, r.2) f =
    (pre ++ (and_then r f).1.1, (and_then r f).1.2, (and_then r f).2).
Proof.
  unfold and_then. simpl. destruct r.2; simpl; [|done..].
  by rewrite app_assoc.
Qed.

(** The body of [Collect] under the lock: the count, the fetch, then
    whatever [scrape] and the two last sends do. *)
Lemma run_Collect_body_split (filter : string) (ms : gmap Z Desc)
    (e : Exporter) (E : env) (w : world) :
  NewExporter filter ms = Ok e →
  ∃ t1 t2 input,
    let r := env_client E (client_calls w) input in
    let rest :=
      run E (up ← scrape_after_fetch e r;
             m ← MustNewConstMetric awsBillingUp GaugeValue up [];
             send m;;
             send (counterMetric (Exporter_totalScrapes e)))
        (fetched (entered w)) in
    run E (up ← scrape e;
           m ← MustNewConstMetric awsBillingUp GaugeValue up [];
           send m;;
           send (counterMetric (Exporter_totalScrapes e))) (acquired w) =
      (EvInc :: EvNow t1 :: EvNow t2 :: EvCall input r :: rest.1.1,
       rest.1.2, rest.2).
Proof.
  intros He.
  destruct (run_fetch_NewExporter _ _ _ E (entered w) He)
    as (t1 & t2 & input & Hf).
  exists t1, t2, input. intros r rest.
  change (client_calls (entered w)) with (client_calls w) in Hf. fold r in Hf.
  rewrite run_bind, scrape_unfold.
  change (run E (Inc ?k) (acquired w)) with (emit EvInc (run E k (entered w))).
  rewrite run_bind, Hf, and_then_Returned. unfold emit. cbn [fst snd].
  rewrite app_comm_cons, and_then_prefix.
  by rewrite <- run_bind.
Qed.

(** A run of [Collect]: the lock, the body, the unlock. *)
Lemma run_Collect_split (filter : string) (ms : gmap Z Desc) (e : Exporter)
    (E : env) (w : world) :
  NewExporter filter ms = Ok e →
  locked w = false →
  ∃ t1 t2 input,
    let r := env_client E (client_calls w) input in
    let rest :=
      run E (up ← scrape_after_fetch e r;
             m ← MustNewConstMetric awsBillingUp GaugeValue up [];
             send m;;
             send (counterMetric (Exporter_totalScrapes e)))
        (fetched (entered w)) in
    run E (Collect e) w =
      (EvLock :: EvInc :: EvNow t1 :: EvNow t2 :: EvCall input r ::
         rest.1.1 ++ [EvUnlock],
       released rest.1.2, rest.2).
Proof.
  intros He Hw.
  destruct (NewExporter_fetch_plain _ _ _ He) as [Hlf _].
  destruct (run_Collect_body_split _ _ _ E w He) as (t1 & t2 & input & Hb).
  exists t1, t2, input. intros r rest.
  rewrite Collect_unfold, run_Lock_free by done.
  rewrite run_defer_Unlock; [|by apply lockfree_Collect_body|done].
  cbv zeta in Hb. fold r in Hb. fold rest in Hb. by rewrite Hb.
Qed.

Lemma lockfree_after_fetch (e : Exporter) (r : result GetCostAndUsageOutput) :
  lockfree (up ← scrape_after_fetch e r;
            m ← MustNewConstMetric awsBillingUp GaugeValue up [];
            send m;;
            send (counterMetric (Exporter_totalScrapes e))).
Proof. apply lockfree_bind; [apply lockfree_scrape_after_fetch|done]. Qed.

Lemma ops_left_after_fetch (o : op) (e : Exporter)
    (r : result GetCostAndUsageOutput) :
  o ≠ OSend →
  ops_left o (up ← scrape_after_fetch e r;
              m ← MustNewConstMetric awsBillingUp GaugeValue up [];
              send m;;
              send (counterMetric (Exporter_totalScrapes e)))
    (match r with
     | Err _ => if decide (o = OLog) then 1 else 0
     | Ok _ => 0
     end).
Proof.
  intros Ho. apply ops_left_bind; [by apply ops_left_scrape_after_fetch|].
  intros up. simpl. unfold tick. by rewrite !decide_False by congruence.
Qed.

(** ** What one [Collect] does, counted *)

(** Each kind of operation, counted over one run of [Collect] on a free
    mutex; the world at the end. *)
Lemma run_Collect_counts (filter : string) (ms : gmap Z Desc) (e : Exporter)
    (E : env) (w : world) :
  NewExporter filter ms = Ok e →
  locked w = false →
  ∃ input,
    let r := env_client E (client_calls w) input in
    let evs := (run E (Collect e) w).1.1 in
    let w' := (run E (Collect e) w).1.2 in
    EvCall input r ∈ evs ∧
    count_op OLock evs = 1%nat ∧ count_op OUnlock evs = 1%nat ∧
    count_op OInc evs = 1%nat ∧ count_op ONow evs = 2%nat ∧
    count_op OCall evs = 1%nat ∧
    count_op OLog evs = (match r with Err _ => 1 | Ok _ => 0 end)%nat ∧
    locked w' = false ∧ counter w' = (counter w + 1)%N ∧
    clock_reads w' = S (S (clock_reads w)) ∧
    client_calls w' = S (client_calls w) ∧
    (run E (Collect e) w).2 ≠ Blocked.
Proof.
  intros He Hw.
  destruct (run_Collect_split _ _ _ E w He Hw) as (t1 & t2 & input & Hrun).
  exists input. cbv zeta in *.
  set (r := env_client E (client_calls w) input) in *.
  set (rest := run E _ (fetched (entered w))) in *.
  assert (Hcount : ∀ o, o ≠ OSend →
    count_op o rest.1.1 =
      match r with
      | Err _ => if decide (o = OLog) then 1%nat else 0%nat
      | Ok _ => 0%nat
      end)
    by (intros o Ho; apply run_ops_left;
        [apply lockfree_after_fetch|by apply ops_left_after_fetch]).
  destruct (run_world_counts E
    (up ← scrape_after_fetch e r;
     m ← MustNewConstMetric awsBillingUp GaugeValue up [];
     send m;;
     send (counterMetric (Exporter_totalScrapes e)))
    (fetched (entered w))) as (Hc & Hn & Hk).
  fold rest in Hc, Hn, Hk.
  destruct (run_lockfree_outcome E _ (fetched (entered w))
              (lockfree_after_fetch e r)) as [_ Hnb].
  fold rest in Hnb.
  assert (count_op OInc rest.1.1 = 0%nat) as HI
    by (rewrite Hcount by done; by destruct r).
  assert (count_op ONow rest.1.1 = 0%nat) as HN
    by (rewrite Hcount by done; by destruct r).
  assert (count_op OCall rest.1.1 = 0%nat) as HK
    by (rewrite Hcount by done; by destruct r).
  rewrite HI, N.add_0_r in Hc. rewrite HN, Nat.add_0_r in Hn.
  rewrite HK, Nat.add_0_r in Hk.
  rewrite Hrun. cbn [fst snd released counter locked clock_reads client_calls].
  split; [set_solver|].
  rewrite !count_op_cons, !count_op_app, !count_op_cons. cbn [op_of].
  rewrite !Hcount by done.
  change (count_op ?o []) with 0%nat.
  repeat split; try done;
    repeat case_decide; try done; destruct r; simpl; lia.
Qed.

(** X6. Every [Collect] on a free mutex, whether it returns or panics,
    takes the mutex once and gives it back once, reads the clock twice and
    calls the billing service exactly once; it is never left waiting and
    the mutex is free again when it ends. *)
Theorem Collect_calls_once_and_releases (filter : string) (ms : gmap Z Desc)
    (e : Exporter) (E : env) (w : world) :
  NewExporter filter ms = Ok e →
  locked w = false →
  let evs := (run E (Collect e) w).1.1 in
  let w' := (run E (Collect e) w).1.2 in
  count_op OLock evs = 1%nat ∧ count_op OUnlock evs = 1%nat ∧
  last evs = Some EvUnlock ∧
  count_op ONow evs = 2%nat ∧ count_op OCall evs = 1%nat ∧
  locked w' = false ∧
  clock_reads w' = S (S (clock_reads w)) ∧
  client_calls w' = S (client_calls w) ∧
  (run E (Collect e) w).2 ≠ Blocked.
Proof.
  intros He Hw evs w'. subst evs w'.
  destruct (run_Collect_counts _ _ _ E w He Hw)
    as (input & _ & ? & ? & ? & ? & ? & ? & ? & ? & ? & ? & ?).
  repeat split; try done.
  destruct (run_Collect_split _ _ _ E w He Hw) as (t1 & t2 & input' & ->).
  cbn [fst snd].
  change (EvLock :: EvInc :: EvNow t1 :: EvNow t2 :: ?x :: ?l ++ [EvUnlock])
    with ((EvLock :: EvInc :: EvNow t1 :: EvNow t2 :: x :: l) ++ [EvUnlock]).
  apply last_snoc.
Qed.

(** X7. [Collect] writes a log line exactly when the fetch fails: one line
    for an answer that is an error, none for any other answer, also when
    the scrape panics on it. *)
Theorem Collect_logs_iff_fetch_fails (filter : string) (ms : gmap Z Desc)
    (e : Exporter) (E : env) (w : world) :
  NewExporter filter ms = Ok e →
  locked w = false →
  ∃ input,
    let r := env_client E (client_calls w) input in
    let evs := (run E (Collect e) w).1.1 in
    EvCall input r ∈ evs ∧
    count_op OLog evs = (match r with Err _ => 1 | Ok _ => 0 end)%nat ∧
    (∀ err, r = Err err →
       EvLog ("Can't scrape AWS Billing data: " +:+ err) ∈ evs).
Proof.
  intros He Hw.
  destruct (run_Collect_counts _ _ _ E w He Hw)
    as (input & Hin & _ & _ & _ & _ & _ & Hlog & _).
  destruct (run_Collect_split _ _ _ E w He Hw) as (t1 & t2 & input' & Hrun).
  cbv zeta in *.
  assert (input' = input) as ->.
  { rewrite Hrun in Hin. cbn [fst snd] in Hin.
    rewrite !elem_of_cons, elem_of_app, list_elem_of_singleton in Hin.
    destruct Hin as [|[|[|[|[Heq|[Hin|]]]]]]; try done; [congruence|].
    exfalso.
    apply list_elem_of_split in Hin as (l1 & l2 & Hin).
    pose proof (run_ops_left OCall E _ 0 (fetched (entered w))
      (lockfree_after_fetch e (env_client E (client_calls w) input'))) as Hc.
    rewrite Hin, count_op_app, count_op_cons in Hc. cbn [op_of] in Hc.
    rewrite decide_True in Hc by done.
    assert (ops_left OCall
      (up ← scrape_after_fetch e (env_client E (client_calls w) input');
       m ← MustNewConstMetric awsBillingUp GaugeValue up [];
       send m;;
       send (counterMetric (Exporter_totalScrapes e))) 0) as H0.
    { pose proof (ops_left_after_fetch OCall e
        (env_client E (client_calls w) input')) as H0.
      destruct (env_client E (client_calls w) input'); by apply H0. }
    specialize (Hc H0). lia. }
  exists input. cbv zeta. split; [done|]. split; [done|].
  intros err Hr. rewrite Hrun. cbn [fst snd]. rewrite Hr.
  do 5 apply list_elem_of_further. apply elem_of_app. left.
  rewrite run_bind. simpl. set_solver.
Qed.

(** ** Scrapes in a row *)

(** X8. Any number of scrapes in a row on one exporter, each started where
    the one before stopped and however each of them ended: none is left
    waiting for the mutex, the mutex is free at the end, and the scrape
    counter, the calls to the service and the clock readings have grown by
    one, one and two per scrape. *)
Theorem Collects_in_a_row (filter : string) (ms : gmap Z Desc) (e : Exporter)
    (E : env) (n : nat) (w : world) :
  NewExporter filter ms = Ok e →
  locked w = false →
  locked (after_Collects E e n w) = false ∧
  counter (after_Collects E e n w) = (counter w + N.of_nat n)%N ∧
  client_calls (after_Collects E e n w) = (client_calls w + n)%nat ∧
  clock_reads (after_Collects E e n w) = (clock_reads w + 2 * n)%nat ∧
  length (outcomes_of_Collects E e n w) = n ∧
  Forall (λ o, o ≠ Blocked) (outcomes_of_Collects E e n w).
Proof.
  intros He. revert w. induction n as [|n IH]; intros w Hw.
  - simpl. repeat split; try done; lia.
  - destruct (run_Collect_counts _ _ _ E w He Hw)
      as (input & _ & _ & _ & _ & _ & _ & _ & Hl & Hc & Hn & Hk & Hb).
    cbv zeta in *.
    destruct (IH _ Hl) as (IHl & IHc & IHk & IHn & IHlen & IHb).
    cbn [after_Collects outcomes_of_Collects].
    rewrite IHl, IHc, IHk, IHn, Hc, Hn, Hk.
    repeat split; try lia; [by rewrite length_cons, IHlen|].
    by constructor.
Qed.

(** ** [Describe] and [Collect] *)

Lemma sends_all_bind {A B : Type} (P : Metric → Prop) (p : prog A)
    (f : A → prog B) :
  sends_all P p → (∀ a, sends_all P (f a)) → sends_all P (p ≫= f).
Proof.
  unfold mbind, prog_mbind. intros Hp Hf.
  induction p; simpl in *; auto. destruct Hp. auto.
Qed.

Lemma sends_all_for_each {X : Type} (P : Metric → Prop) (l : list X)
    (body : X → prog unit) :
  (∀ x, x ∈ l → sends_all P (body x)) → sends_all P (for_each l body).
Proof.
  intros Hb. induction l as [|x l IH]; simpl; [done|].
  apply sends_all_bind; [apply Hb; left|].
  intros _. apply IH. intros y Hy. apply Hb. by right.
Qed.

Lemma sends_all_defer_Unlock {A : Type} (P : Metric → Prop) (p : prog A) :
  sends_all P p → sends_all P (defer mutex_Unlock p).
Proof. induction p; simpl in *; auto. intros []. auto. Qed.

Lemma sends_all_fetchHTTP (P : Metric → Prop) (metrics : list string) :
  sends_all P (fetchHTTP metrics).
Proof. intros t1 t2 r. by destruct r. Qed.

Lemma run_sends_all {A : Type} (P : Metric → Prop) (E : env) (p : prog A)
    (w : world) :
  sends_all P p → Forall P (sent (run E p w).1.1).
Proof.
  revert w.
  induction p as [a|msg|k IH|k IH|k IH|k IH|input k IH|msg k IH|m k IH];
    intros w Hp; simpl in *; try (by constructor); auto.
  - destruct (locked w); [by constructor|]. by apply IH.
  - destruct (locked w); [|by constructor]. by apply IH.
  - destruct Hp as [Hm Hk]. constructor; auto.
Qed.

Lemma Describe_eq (e : Exporter) :
  Describe e =
    (range (Exporter_prometheusMetrics e)).*2 ++
    [awsBillingUp; Exporter_totalScrapes e].
Proof.
  unfold Describe. rewrite (foldl_snoc snd). simpl. by rewrite <- app_assoc.
Qed.

Lemma sends_all_deref {X : Type} (P : Metric → Prop) (p : option X) :
  sends_all P (deref p).
Proof. by destruct p. Qed.

Lemma sends_all_metric_body (P : Metric → Prop)
    (response : GetCostAndUsageOutput) (km : Z * Desc) :
  (∀ vt v lvs, P (constMetric km.2 vt v lvs)) →
  sends_all P (metric_body response km).
Proof.
  intros HP. unfold metric_body.
  apply sends_all_bind; [unfold index0; by destruct (ResultsByTime _)|].
  intros bucket. apply sends_all_bind; [apply sends_all_deref|]. intros b.
  apply sends_all_for_each. intros kc _. unfold item_body.
  case_decide; [|done].
  apply sends_all_bind; [apply sends_all_deref|]. intros cost.
  apply sends_all_bind; [apply sends_all_deref|]. intros amount.
  destruct (ParseFloat _ _); [|done].
  apply sends_all_bind; [apply sends_all_deref|]. intros u.
  unfold MustNewConstMetric, NewConstMetric.
  destruct (Desc_err km.2); [done|].
  destruct (validateLabelValues _ _); [done|]. simpl. auto.
Qed.

Lemma sends_all_Collect (e : Exporter) :
  sends_all (λ m, Metric_desc m ∈ Describe e) (Exporter_fetch e) →
  sends_all (λ m, Metric_desc m ∈ Describe e) (Collect e).
Proof.
  intros Hf. rewrite Collect_unfold.
  change (sends_all ?P (Lock ?k)) with (sends_all P k).
  apply sends_all_defer_Unlock. apply sends_all_bind.
  - rewrite scrape_unfold.
    change (sends_all ?P (Inc ?k)) with (sends_all P k).
    apply sends_all_bind; [done|]. intros [response|err]; [|done].
    rewrite scrape_after_fetch_Ok. apply sends_all_bind; [|done].
    apply sends_all_for_each. intros km Hkm.
    apply sends_all_metric_body. intros vt v lvs. cbn [Metric_desc].
    rewrite Describe_eq, elem_of_app. left.
    apply list_elem_of_fmap. by exists km.
  - intros up. rewrite MustNewConstMetric_up. simpl.
    rewrite Describe_eq. set_solver.
Qed.

(** X9. Every sample [Collect] sends, in any run, carries a descriptor that
    [Describe] announces; this holds for any descriptor map the exporter
    was built with, and also for a run that panics or is left waiting. *)
Theorem Collect_sends_only_described (filter : string) (ms : gmap Z Desc)
    (e : Exporter) (E : env) (w : world) (m : Metric) :
  NewExporter filter ms = Ok e →
  m ∈ sent (run E (Collect e) w).1.1 →
  Metric_desc m ∈ Describe e.
Proof.
  intros He Hm.
  destruct (NewExporter_Ok _ _ _ He) as (_ & _ & selected & Hf & _).
  pose proof (run_sends_all (λ m, Metric_desc m ∈ Describe e) E (Collect e) w)
    as Hall.
  rewrite Forall_forall in Hall. apply Hall; [|done].
  apply sends_all_Collect. rewrite Hf. apply sends_all_fetchHTTP.
Qed.

Lemma catalog_names_NoDup :
  NoDup (fqName <$>
    (map_to_list prometheusMetrics).*2 ++
    [awsBillingUp;
     NewCounter namespace "exporter_total_scrapes"
       "Current total aws cost and usage API scrapes."]).
Proof. apply (bool_decide_unpack _). by vm_compute. Qed.

Lemma submseteq_NoDup {X : Type} (l k : list X) :
  l ⊆+ k → NoDup k → NoDup l.
Proof.
  intros Hlk Hk. apply submseteq_Permutation in Hlk as [k' Hk'].
  rewrite Hk' in Hk. by apply NoDup_app in Hk as [? _].
Qed.

(** X10. [Describe] of an exporter built as [main] builds it announces one
    descriptor per enabled metric, then the one of the up gauge and the one
    of the scrape counter, and no two of them have the same name. *)
Theorem Describe_names_are_distinct (filter : string) (e : Exporter) :
  main_exporter filter = Ok e →
  length (Describe e) = (size (Exporter_prometheusMetrics e) + 2)%nat ∧
  (∀ d, d ∈ Describe e ↔
     (∃ k, Exporter_prometheusMetrics e !! k = Some d) ∨
     d = awsBillingUp ∨ d = Exporter_totalScrapes e) ∧
  NoDup (fqName <$> Describe e).
Proof.
  intros Hmain.
  destruct (main_exporter_Ok _ _ Hmain) as [He Hsub].
  destruct (NewExporter_Ok _ _ _ He) as (_ & Hts & _).
  rewrite Describe_eq. split; [|split].
  - rewrite length_app, !length_fmap, (range_perm _), length_map_to_list.
    done.
  - intros d. rewrite elem_of_app, list_elem_of_fmap.
    rewrite !elem_of_cons, elem_of_nil. split.
    + intros [([k d'] & -> & Hkd)|[|[|[]]]]; auto.
      left. exists k. by apply elem_of_range.
    + intros [[k Hk]|[|]]; auto.
      left. exists (k, d). split; [done|]. by apply elem_of_range.
  - rewrite Hts. eapply submseteq_NoDup; [|apply catalog_names_NoDup].
    apply fmap_submseteq, submseteq_app; [|done].
    apply fmap_submseteq. rewrite (range_perm _).
    by apply map_to_list_submseteq.
Qed.

(** What [Collect] sends, in each of the cases of the answer of the
    service: cost samples, then the up gauge and the counter unless the
    scrape panicked. *)
Lemma sent_Collect_cases (filter : string) (e : Exporter) (E : env)
    (w : world) :
  main_exporter filter = Ok e →
  locked w = false →
  ∃ costs last,
    Metric_desc <$> costs
      `sublist_of` (range (Exporter_prometheusMetrics e)).*2 ∧
    (last = [] ∨
     ∃ up, last = [constMetric awsBillingUp GaugeValue up [];
                   counterMetric (Exporter_totalScrapes e)]) ∧
    sent (run E (Collect e) w).1.1 = costs ++ last.
Proof.
  intros Hmain Hw.
  destruct (main_exporter_Ok _ _ Hmain) as [He Hsub].
  destruct (NewExporter_fetch_plain _ _ _ He) as [Hlf _].
  destruct (run_fetch_NewExporter _ _ _ E (entered w) He)
    as (t1 & t2 & input & Hf).
  destruct (env_client E (client_calls (entered w)) input)
    as [response|err] eqn:Hr.
  - destruct (run_Collect_Ok _ _ _ E w response He Hw) as (_ & Hsent & _);
      [by rewrite Hf|].
    do 2 eexists. split; [|split; [|exact Hsent]].
    + apply cost_samples_sublist.
    + destruct (cost_samples _ _).2; eauto.
  - pose proof (run_scrape_Err _ _ _ _ _ _ Hf) as Hs.
    rewrite (run_Collect_returned _ _ _ _ _ _ Hlf Hw Hs).
    exists [], [constMetric awsBillingUp GaugeValue float64_0 [];
                counterMetric (Exporter_totalScrapes e)].
    split; [apply sublist_nil_l|]. split; [eauto|done].
Qed.

(** X11. [Collect] never sends two samples with the same descriptor: for
    an exporter built as [main] builds it, in every run (failed fetch,
    answer with or without a bucket, panic), the descriptors of the samples
    sent are, up to order, part of those [Describe] announces, each at most
    once. *)
Theorem Collect_sends_each_descriptor_at_most_once (filter : string)
    (e : Exporter) (E : env) (w : world) :
  main_exporter filter = Ok e →
  locked w = false →
  Metric_desc <$> sent (run E (Collect e) w).1.1 ⊆+ Describe e ∧
  NoDup (Metric_desc <$> sent (run E (Collect e) w).1.1) ∧
  (length (sent (run E (Collect e) w).1.1)
     ≤ size (Exporter_prometheusMetrics e) + 2)%nat.
Proof.
  intros Hmain Hw.
  assert (NoDup (Describe e)) as Hnd.
  { destruct (main_exporter_Ok _ _ Hmain) as [He Hsub].
    destruct (NewExporter_Ok _ _ _ He) as (_ & Hts & _).
    apply (NoDup_fmap_1 fqName). rewrite Describe_eq, Hts.
    eapply submseteq_NoDup; [|apply catalog_names_NoDup].
    apply fmap_submseteq, submseteq_app; [|done].
    apply fmap_submseteq. rewrite (range_perm _).
    by apply map_to_list_submseteq. }
  assert (length (Describe e) =
          (size (Exporter_prometheusMetrics e) + 2)%nat) as Hlen.
  { rewrite Describe_eq, length_app, !length_fmap, (range_perm _).
    by rewrite length_map_to_list. }
  assert (Metric_desc <$> sent (run E (Collect e) w).1.1 ⊆+ Describe e)
    as Hsub.
  { destruct (sent_Collect_cases _ _ E w Hmain Hw)
      as (costs & last & Hcosts & Hlast & ->).
    rewrite Describe_eq, fmap_app.
    apply submseteq_app; [by apply sublist_submseteq|].
    destruct Hlast as [->|[up ->]]; [apply submseteq_nil_l|done]. }
  split; [done|]. split; [by eapply submseteq_NoDup|].
  rewrite <- Hlen, <- (length_fmap Metric_desc).
  by apply submseteq_length.
Qed.

(** ** When a scrape returns *)

(** X13. After a successful fetch, [Collect] of an exporter built as
    [main] builds it returns normally exactly when no metric is enabled,
    or the response has a first bucket that is not nil and every item of
    it named after an enabled metric is usable: not nil, with an amount
    and, when the amount parses, with a unit that is valid UTF-8.  In
    every other case it panics, the mutex is given back and neither the
    up gauge nor the scrape counter is sent. *)
Theorem Collect_returns_iff_response_usable (filter : string)
    (e : Exporter) (E : env) (w : world)
    (response : GetCostAndUsageOutput) :
  main_exporter filter = Ok e →
  locked w = false →
  (run E (Exporter_fetch e) (entered w)).2 = Returned (Ok response) →
  ((run E (Collect e) w).2 = Returned tt ↔
   Exporter_prometheusMetrics e = ∅ ∨
   ∃ bucket rest,
     ResultsByTime response = Some bucket :: rest ∧
     ∀ k d item, Exporter_prometheusMetrics e !! k = Some d →
       Total bucket !! AWSMetrics_at k = Some item → usable item) ∧
  ((run E (Collect e) w).2 ≠ Returned tt →
   (∃ msg, (run E (Collect e) w).2 = Panicked msg) ∧
   (∀ up, constMetric awsBillingUp GaugeValue up []
            ∉ sent (run E (Collect e) w).1.1) ∧
   (counterMetric (Exporter_totalScrapes e)
      ∉ sent (run E (Collect e) w).1.1) ∧
   locked (run E (Collect e) w).1.2 = false).
Proof.
  intros Hmain Hw Hr.
  destruct (main_exporter_Ok _ _ Hmain) as [He Hsub].
  destruct (NewExporter_Ok _ _ _ He) as (_ & Hts & _).
  destruct (run_Collect_Ok _ _ _ E w response He Hw Hr)
    as (Hret & Hsent & _ & Hl).
  split; [split|].
  - intros Hreturned. rewrite Hreturned in Hret.
    destruct (decide (Exporter_prometheusMetrics e = ∅)) as [|Hne];
      [by left|right].
    assert (range (Exporter_prometheusMetrics e) ≠ []) as Hrange
      by (by rewrite range_nil).
    unfold first_totals in Hret.
    destruct (ResultsByTime response) as [|[bucket|] rest];
      [by rewrite cost_samples_no_totals in Hret| |
       by rewrite cost_samples_no_totals in Hret].
    exists bucket, rest. split; [done|]. intros k d item Hd Hitem.
    destruct (cost_samples (Ok (Total bucket))
                (range (Exporter_prometheusMetrics e))).2 as [msg|] eqn:Hcs;
      [done|].
    destruct (cost_samples_None _ _ (k, d) Hcs) as [m Hm];
      [by apply elem_of_range|].
    eapply cost_sample_Ok_usable; [by eapply lookup_weaken|done..].
  - intros [Hempty|(bucket & rest & Hb & Hok)].
    + assert (range (Exporter_prometheusMetrics e) = []) as Hnil
        by (by apply range_nil).
      by rewrite Hnil, cost_samples_nil in Hret.
    + by destruct (run_Collect_usable _ _ _ E w _ _ _ He Hsub Hw Hr Hb Hok).
  - intros Hnot.
    destruct (cost_samples (first_totals response)
                (range (Exporter_prometheusMetrics e))).2 as [msg|] eqn:Hcs;
      [|done].
    split; [by exists msg|]. rewrite Hsent, app_nil_r.
    assert (∀ m, m ∈ (cost_samples (first_totals response)
                        (range (Exporter_prometheusMetrics e))).1 →
              Metric_desc m ≠ awsBillingUp ∧
              Metric_desc m ≠ Exporter_totalScrapes e) as Hcosts.
    { intros m Hm. destruct (first_totals response) as [totals|msg'];
        [|by rewrite cost_samples_Err in Hm; apply elem_of_nil in Hm].
      apply cost_samples_priced in Hm as ([k d] & Hkd & Hp).
      apply cost_sample_desc in Hp. rewrite Hp, Hts. cbn [snd].
      apply elem_of_range in Hkd.
      apply (catalog_not_up_nor_counter k). by eapply lookup_weaken. }
    split; [|split; [|done]].
    + intros up Hin. by destruct (Hcosts _ Hin).
    + intros Hin. by destruct (Hcosts _ Hin).
Qed.

(** ** Who can go on while the mutex is held *)

Lemma inside_can_step (O : outside) (t0 : Time) (i : nat) (p : prog unit)
    (s : shared) :
  obliging O → inside p → sh_locked s = true →
  ∃ p' s', thread_step O i p s p' s'.
Proof.
  intros [Hans Hrecv] (q & -> & Hq) Hs.
  destruct q as [a|msg|k|k|k|k|input k|msg k|m k]; simpl in *; try done.
  - do 2 eexists. by apply step_Unlock.
  - do 2 eexists. by apply step_Unlock.
  - do 2 eexists. apply step_Inc.
  - do 2 eexists. apply (step_Now _ _ _ _ t0).
  - destruct (Hans (sh_trace s) input) as [r Hr].
    do 2 eexists. by apply (step_GetCostAndUsage _ _ _ _ _ r).
  - do 2 eexists. apply step_Errorf.
  - do 2 eexists. by apply step_Send.
Qed.

Lemma thread_ok_cases (e : Exporter) (ts : list (prog unit)) :
  Forall (thread_ok e) ts →
  Forall done_prog ts ∨
  ∃ i p, ts !! i = Some p ∧ (waiting e p ∨ inside p).
Proof.
  induction 1 as [|p ts Hp _ IH]; [by left|].
  destruct Hp as [Hp|[Hp|Hp]].
  - right. exists 0%nat, p. auto.
  - right. exists 0%nat, p. auto.
  - destruct IH as [IH|(i & q & Hi & Hq)]; [left; by constructor|].
    right. exists (S i), q. auto.
Qed.

(** While the mutex is held, a goroutine that can step holds it. *)
Lemma step_while_locked (O : outside) (e : Exporter) (p p' : prog unit)
    (s s' : shared) (j : nat) :
  thread_ok e p → sh_locked s = true → thread_step O j p s p' s' → inside p.
Proof.
  intros [Hp|[Hp|Hp]] Hl Hstep; [|done|by apply done_no_step in Hstep].
  unfold waiting in Hp. subst p. rewrite Collect_unfold in Hstep.
  inversion Hstep; congruence.
Qed.

(** X12. Goroutines that all run [Collect] on one exporter, in any state
    they can reach from a free mutex, whatever the service and the reader
    of the channel do.  While the mutex is held, the goroutine holding it
    is the only one that can take a step.  So a call of the billing
    service that gets no answer blocks every scrape: no goroutine can
    step, and they are not all done.  When the service answers every call
    and the reader takes every sample, either all goroutines are done or
    one of them can step.  Once all are done the mutex is free. *)
Theorem concurrent_Collects_wait_for_the_holder (O : outside) (t0 : Time)
    (filter : string) (ms : gmap Z Desc) (e : Exporter) (n : nat) (c : N)
    (ts : list (prog unit)) (s : shared) :
  NewExporter filter ms = Ok e →
  rtc (pool_step O)
    (replicate n (Collect e),
     {| sh_counter := c; sh_locked := false; sh_trace := [] |})
    (ts, s) →
  (sh_locked s = true →
   ∃ i p, ts !! i = Some p ∧ inside p ∧ ∀ j, can_step O ts s j → j = i) ∧
  (∀ i input k,
     ts !! i = Some (GetCostAndUsage input k) →
     (∀ r, ¬ answers O (sh_trace s) input r) →
     sh_locked s = true ∧ ¬ Forall done_prog ts ∧ ∀ j, ¬ can_step O ts s j) ∧
  (obliging O → Forall done_prog ts ∨ ∃ i, can_step O ts s i) ∧
  (Forall done_prog ts → sh_locked s = false).
Proof.
  intros He Hsteps.
  destruct (NewExporter_fetch_plain _ _ _ He) as [Hlf Hincs].
  pose proof (pool_inv_rtc _ e c _ _ Hlf (pool_inv_init e c n Hincs) Hsteps)
    as Hinv.
  pose proof Hinv as (Hok & Hin & Hheld & _).
  cbn [fst snd] in *.
  assert (sh_locked s = true →
          ∃ i p, ts !! i = Some p ∧ inside p ∧
            ∀ j, can_step O ts s j → j = i) as Honly.
  { intros Hl. destruct (Hheld Hl) as (i & p & Hi & Hp).
    exists i, p. split; [done|]. split; [done|].
    intros j (pj & pj' & s' & Hj & Hstep).
    rewrite Forall_lookup in Hok.
    pose proof (step_while_locked O e _ _ _ _ j (Hok j pj Hj) Hl Hstep) as Hpj.
    destruct (Hin i p Hi Hp) as [_ Hlast], (Hin j pj Hj Hpj) as [_ Hlast'].
    congruence. }
  split; [done|]. split; [|split].
  - intros i input k Hi Hhung.
    assert (inside (GetCostAndUsage input k)) as Hp.
    { rewrite Forall_lookup in Hok.
      destruct (Hok i _ Hi) as [Hp|[Hp|Hp]]; [|done..].
      unfold waiting in Hp. by rewrite Collect_unfold in Hp. }
    destruct (Hin i _ Hi Hp) as [Hl _].
    split; [done|]. split.
    + rewrite Forall_lookup. intros Hdone. by apply (Hdone i _ Hi).
    + intros j Hj.
      destruct (Honly Hl) as (i' & p' & Hi' & Hp' & Huniq).
      assert (j = i) as ->.
      { rewrite (Huniq j Hj). symmetry.
        destruct (Hin i _ Hi Hp) as [_ Hlast],
                 (Hin i' p' Hi' Hp') as [_ Hlast'].
        congruence. }
      destruct Hj as (pj & pj' & s' & Hj & Hstep).
      rewrite Hi in Hj. injection Hj as <-.
      inversion Hstep; subst. by eapply Hhung.
  - intros HO.
    assert (∀ i p, ts !! i = Some p → inside p → can_step O ts s i) as Hgo.
    { intros i p Hi Hp. destruct (Hin i p Hi Hp) as [Hl _].
      destruct (inside_can_step O t0 i p s HO Hp Hl) as (p' & s' & Hstep).
      by exists p, p', s'. }
    destruct (thread_ok_cases e ts Hok) as [|(i & p & Hi & [Hp|Hp])];
      [by left|..]; right.
    + destruct (sh_locked s) eqn:Hl.
      * destruct (Hheld eq_refl) as (j & q & Hj & Hq). exists j. eauto.
      * exists i, p. rewrite Hp in *. rewrite Collect_unfold.
        do 2 eexists. split; [by rewrite <- Collect_unfold|].
        by apply step_Lock.
    + exists i. eauto.
  - by eapply pool_done_unlocked.
Qed.

End More.

(** ** The rest of the code at concrete inputs *)

Lemma sample_metrics_catalog : sample_metrics ⊆ prometheusMetrics.
Proof.
  exact (proj2 (main_exporter_Ok (RT := sample_runtime) "2,7" sample_exporter
                  sample_exporter_main)).
Defined.

Lemma sample_metrics_not_empty : sample_metrics ≠ ∅.
Proof. intros H. by apply (f_equal (λ m : gmap Z Desc, m !! 2)) in H. Defined.

Lemma sample_metrics_ids (k : Z) :
  is_Some (sample_metrics !! k) → minInt ≤ k ≤ maxInt.
Proof.
  intros [d Hd].
  pose proof (catalog_ids k d
    (lookup_weaken _ _ _ _ Hd sample_metrics_catalog)).
  unfold minInt, maxInt. lia.
Defined.

Lemma sample_filter_7 :
  filterServerMetrics (RT := sample_runtime) "7" =
    Ok {[7 := newAwsBillingMetric "usage_quantity" "Usage of quantity like data in GB." []]}.
Proof. by vm_compute. Defined.

Lemma sample_filter_2_7 :
  filterServerMetrics (RT := sample_runtime) "2,7" = Ok sample_metrics.
Proof. by vm_compute. Defined.

Lemma sample_counter_is_sent :
  counterMetric (Exporter_totalScrapes sample_exporter) ∈
    sent (run (sample_env (Err "throttled")) (Collect sample_exporter)
            sample_world).1.1.
Proof.
  rewrite (run_Collect_returned sample_exporter (sample_env (Err "throttled"))
             sample_world _ _ _
             (proj1 (NewExporter_fetch_plain _ _ _ sample_exporter_built))
             sample_world_unlocked
             (run_scrape_Err sample_exporter (sample_env (Err "throttled"))
                sample_world _ _ "throttled" eq_refl)).
  cbn [fst snd]. rewrite app_comm_cons, sent_app. apply elem_of_app. right.
  right. left.
Defined.

(** X1 at the selection 2,7: it prints as 2,7 and reads back. *)
Lemma filterServerMetrics_String_round_trip_witness :
  sample_metrics ⊆ prometheusMetrics ∧
  filterServerMetrics (RT := sample_runtime)
    (metrics_String (RT := sample_runtime) sample_metrics) = Ok sample_metrics.
Proof.
  split; [exact sample_metrics_catalog|].
  exact (filterServerMetrics_String_round_trip (RT := sample_runtime)
           sample_metrics sample_metrics_catalog).
Defined.

(** X2 at the selection 2,7. *)
Lemma String_lists_ids_in_increasing_order_witness :
  sample_metrics ≠ ∅ ∧
  ∃ ks, Atoi <$> Split (metrics_String (RT := sample_runtime) sample_metrics) ","
          = Some <$> ks ∧
    Sorted Z.le ks ∧ NoDup ks ∧ ∀ k, k ∈ ks ↔ is_Some (sample_metrics !! k).
Proof.
  split; [exact sample_metrics_not_empty|].
  exact (String_lists_ids_in_increasing_order (RT := sample_runtime)
           sample_metrics sample_metrics_not_empty sample_metrics_ids).
Defined.

(** X4 at the flag value 2,7: BlendedCost and UsageQuantity are asked for. *)
Lemma request_names_cover_enabled_metrics_witness :
  main_exporter (RT := sample_runtime) "2,7" = Ok sample_exporter ∧
  ∃ selected, Exporter_fetch sample_exporter = fetchHTTP selected ∧
    (∀ k d, Exporter_prometheusMetrics sample_exporter !! k = Some d →
            AWSMetrics_at k ∈ selected ∧ AWSMetrics_at k ≠ "").
Proof.
  split; [exact sample_exporter_main|].
  destruct (request_names_cover_enabled_metrics (RT := sample_runtime) "2,7"
              sample_exporter sample_exporter_main)
    as (selected & Hfetch & Hall & _).
  exists selected. split; [exact Hfetch|exact Hall].
Defined.

(** X5 at the flag values 2,7 and 7. *)
Lemma filterServerMetrics_of_joined_filters_witness :
  let usage : gmap Z Desc :=
    {[7 := newAwsBillingMetric "usage_quantity" "Usage of quantity like data in GB." []]} in
  filterServerMetrics (RT := sample_runtime) "2,7" = Ok sample_metrics ∧
  filterServerMetrics (RT := sample_runtime) "7" = Ok usage ∧
  filterServerMetrics (RT := sample_runtime) "2,7,7" = Ok (sample_metrics ∪ usage).
Proof.
  intros usage.
  assert ("2,7" ≠ "") as Ha by done.
  assert ("7" ≠ "") as Hb by done.
  split; [exact sample_filter_2_7|]. split; [exact sample_filter_7|].
  exact (filterServerMetrics_of_joined_filters (RT := sample_runtime)
           "2,7" "7" sample_metrics usage Ha Hb
           sample_filter_2_7 sample_filter_7).
Defined.

(** X6 on a scrape that panics: the answer has no bucket. *)
Lemma Collect_calls_once_and_releases_witness :
  let r := run (sample_env (Ok no_bucket_response)) (Collect sample_exporter)
             sample_world in
  NewExporter (RT := sample_runtime) "2,7" sample_metrics = Ok sample_exporter ∧
  locked sample_world = false ∧
  count_op OLock r.1.1 = 1%nat ∧ count_op OUnlock r.1.1 = 1%nat ∧
  count_op OCall r.1.1 = 1%nat ∧ locked r.1.2 = false ∧ r.2 ≠ Blocked.
Proof.
  intros r.
  split; [exact sample_exporter_built|].
  split; [exact sample_world_unlocked|].
  destruct (Collect_calls_once_and_releases "2,7" sample_metrics
              sample_exporter (sample_env (Ok no_bucket_response)) sample_world
              sample_exporter_built sample_world_unlocked)
    as (Hl & Hu & _ & _ & Hc & Hf & _ & _ & Hb).
  split; [exact Hl|]. split; [exact Hu|]. split; [exact Hc|].
  split; [exact Hf|exact Hb].
Defined.

(** X7 when the service answers with the error "throttled". *)
Lemma Collect_logs_iff_fetch_fails_witness :
  NewExporter (RT := sample_runtime) "2,7" sample_metrics = Ok sample_exporter ∧
  locked sample_world = false ∧
  count_op OLog
    (run (sample_env (Err "throttled")) (Collect sample_exporter)
       sample_world).1.1 = 1%nat.
Proof.
  split; [exact sample_exporter_built|].
  split; [exact sample_world_unlocked|].
  destruct (Collect_logs_iff_fetch_fails "2,7" sample_metrics
              sample_exporter (sample_env (Err "throttled")) sample_world
              sample_exporter_built sample_world_unlocked)
    as (input & _ & Hlog & _).
  exact Hlog.
Defined.

(** X8 for three scrapes that all panic: the counter goes from 41 to 44. *)
Lemma Collects_in_a_row_witness :
  let E := sample_env (Ok no_bucket_response) in
  NewExporter (RT := sample_runtime) "2,7" sample_metrics = Ok sample_exporter ∧
  locked sample_world = false ∧
  locked (after_Collects E sample_exporter 3 sample_world) = false ∧
  counter (after_Collects E sample_exporter 3 sample_world) = 44%N ∧
  Forall (λ o, o ≠ Blocked)
    (outcomes_of_Collects E sample_exporter 3 sample_world).
Proof.
  intros E.
  split; [exact sample_exporter_built|].
  split; [exact sample_world_unlocked|].
  destruct (Collects_in_a_row "2,7" sample_metrics sample_exporter E 3
              sample_world sample_exporter_built sample_world_unlocked)
    as (Hl & Hc & _ & _ & _ & Hb).
  split; [exact Hl|]. split; [exact Hc|exact Hb].
Defined.

(** X9 for the scrape counter sent after a failed fetch. *)
Lemma Collect_sends_only_described_witness :
  NewExporter (RT := sample_runtime) "2,7" sample_metrics = Ok sample_exporter ∧
  counterMetric (Exporter_totalScrapes sample_exporter) ∈
    sent (run (sample_env (Err "throttled")) (Collect sample_exporter)
            sample_world).1.1 ∧
  Exporter_totalScrapes sample_exporter ∈ Describe sample_exporter.
Proof.
  split; [exact sample_exporter_built|].
  split; [exact sample_counter_is_sent|].
  exact (Collect_sends_only_described "2,7" sample_metrics sample_exporter
           (sample_env (Err "throttled")) sample_world
           (counterMetric (Exporter_totalScrapes sample_exporter))
           sample_exporter_built sample_counter_is_sent).
Defined.

(** X10 at the flag value 2,7: four descriptors, four names. *)
Lemma Describe_names_are_distinct_witness :
  main_exporter (RT := sample_runtime) "2,7" = Ok sample_exporter ∧
  length (Describe sample_exporter) = 4%nat ∧
  NoDup (fqName <$> Describe sample_exporter).
Proof.
  split; [exact sample_exporter_main|].
  destruct (Describe_names_are_distinct (RT := sample_runtime) "2,7"
              sample_exporter sample_exporter_main) as (Hlen & _ & Hnd).
  split; [exact Hlen|exact Hnd].
Defined.

(** X11 on the response of the specification. *)
Lemma Collect_sends_each_descriptor_at_most_once_witness :
  let r := run (sample_env (Ok blended_response)) (Collect sample_exporter)
             sample_world in
  main_exporter (RT := sample_runtime) "2,7" = Ok sample_exporter ∧
  locked sample_world = false ∧
  Metric_desc <$> sent r.1.1 ⊆+ Describe sample_exporter ∧
  NoDup (Metric_desc <$> sent r.1.1).
Proof.
  intros r.
  split; [exact sample_exporter_main|].
  split; [exact sample_world_unlocked|].
  destruct (Collect_sends_each_descriptor_at_most_once "2,7" sample_exporter
              (sample_env (Ok blended_response)) sample_world
              sample_exporter_main sample_world_unlocked) as (Hsub & Hnd & _).
  split; [exact Hsub|exact Hnd].
Defined.

(** X12 for two goroutines and a service that never answers: the second
    goroutine takes the mutex, counts the scrape, reads the clock twice
    and calls the service; from then on no goroutine can take a step. *)
Lemma concurrent_Collects_wait_for_the_holder_witness :
  NewExporter (RT := sample_runtime) "2,7" sample_metrics = Ok sample_exporter ∧
  ∃ ts s,
    rtc (pool_step hung_outside)
      (replicate 2 (Collect sample_exporter),
       {| sh_counter := 41; sh_locked := false; sh_trace := [] |})
      (ts, s) ∧
    length (sh_trace s) = 4%nat ∧
    ts !! 0%nat = Some (Collect sample_exporter) ∧
    (∃ input k, ts !! 1%nat = Some (GetCostAndUsage input k)) ∧
    sh_locked s = true ∧
    ¬ Forall done_prog ts ∧
    ∀ j, ¬ can_step hung_outside ts s j.
Proof.
  split; [exact sample_exporter_built|].
  assert (∃ ts s,
    rtc (pool_step hung_outside)
      (replicate 2 (Collect sample_exporter),
       {| sh_counter := 41; sh_locked := false; sh_trace := [] |})
      (ts, s) ∧
    length (sh_trace s) = 4%nat ∧
    ts !! 0%nat = Some (Collect sample_exporter) ∧
    ∃ input k, ts !! 1%nat = Some (GetCostAndUsage input k))
    as (ts & s & Hsteps & Hlen & Hfirst & input & k & Hcall).
  { eexists _, _. split.
    - cbn [replicate]. do 4 pool_go 1%nat. apply rtc_refl.
    - split; [reflexivity|]. split; [reflexivity|].
      eexists _, _. reflexivity. }
  destruct (concurrent_Collects_wait_for_the_holder hung_outside (18000 : Z) "2,7"
              sample_metrics sample_exporter 2 41 ts s
              sample_exporter_built Hsteps)
    as (_ & Hhung & _ & _).
  destruct (Hhung 1%nat input k Hcall (λ r Hr, Hr)) as (Hl & Hnd & Hstuck).
  exists ts, s. split; [exact Hsteps|]. split; [exact Hlen|].
  split; [exact Hfirst|]. split; [by exists input, k|].
  split; [exact Hl|]. split; [exact Hnd|exact Hstuck].
Defined.

(** X13 on the response whose UsageQuantity item has no amount: the item
    is not usable, and the scrape panics. *)
Lemma Collect_returns_iff_response_usable_witness :
  let r := run (sample_env (Ok no_amount_response)) (Collect sample_exporter)
             sample_world in
  main_exporter (RT := sample_runtime) "2,7" = Ok sample_exporter ∧
  locked sample_world = false ∧
  ¬ usable (RT := sample_runtime)
      (Some {| Amount := None; Unit := Some "GB" |}) ∧
  r.2 ≠ Returned tt ∧
  (∃ msg, r.2 = Panicked msg) ∧
  (counterMetric (Exporter_totalScrapes sample_exporter) ∉ sent r.1.1) ∧
  locked r.1.2 = false.
Proof.
  intros r.
  destruct (Collect_returns_iff_response_usable "2,7" sample_exporter
              (sample_env (Ok no_amount_response)) sample_world
              no_amount_response sample_exporter_main sample_world_unlocked
              (sample_fetch_succeeds no_amount_response))
    as (Hiff & Hpanics).
  assert (¬ usable (RT := sample_runtime)
            (Some {| Amount := None; Unit := Some "GB" |})) as Hnot.
  { intros (cost & amount & [= <-] & Ha & _). discriminate Ha. }
  assert (r.2 ≠ Returned tt) as Hne.
  { intros Hreturned. apply Hiff in Hreturned
      as [Hempty|(bucket & rest & Hb & Hok)].
    - by apply sample_metrics_not_empty.
    - injection Hb as <- <-. apply Hnot.
      apply (Hok 7 (newAwsBillingMetric "usage_quantity"
                      "Usage of quantity like data in GB." [])); by vm_compute. }
  destruct (Hpanics Hne) as (Hmsg & _ & Hctr & Hl).
  split; [exact sample_exporter_main|].
  split; [exact sample_world_unlocked|]. split; [exact Hnot|].
  split; [exact Hne|]. split; [exact Hmsg|]. split; [exact Hctr|exact Hl].
Defined.
